(** * lunar-code: the commit-aggregation pipeline of [src/lib/github.ts]
    and the phase classifier of [src/lib/lunar.ts]

  [github.ts] holds two revisions of the module; the later one, which
  publishes progress through [sendProgress], is the one modelled.

  JavaScript numbers are modelled by exact integers ([Z]) and exact
  rationals ([Q]): every quantity the pipeline handles (millisecond
  timestamps, header values, line counts) is an integer far below 2^53,
  and the only divisions are followed by a comparison or a rounding.
  Rounding errors of the double-precision operations are not modelled:
  a quotient that the code rounds twice, as a double and then by
  [Math.round] or by a range test, can differ here when it lies next to
  a boundary (23 of 40 is 57 per cent in the code and 58 here). So no
  property below rests on the exact value of a percentage, only on its
  lying between 0 and 100, which the double satisfies as well; and the
  name of the phase of a date after the reference new moon is stated
  only at concrete dates, away from the boundaries of the windows.
  A number that can be NaN is an [option], a string or field that can be
  [undefined] or [null] is an [option] too.

  The remote API, the clock and the host are an environment of the run:
  a request has one answer, and what a run does to the outside is kept
  as a list of events in the order of the source. A request is a call
  of the client made by the function: what the client sends on the wire
  for one call (the pages of a listing, a repetition of its own before
  it rejects) is not told apart.

  [Pipeline] is [fetchUserCommits] on a progress stream whose
  controller is absent or accepts every message; [Stream] is the same
  function on a stream whose [enqueue] can throw at any call, and
  [StreamFacts.steady_run] shows that the two agree on a stream that
  has no controller at any call, or one that accepts at every call. *)

From Stdlib Require Import ZArith QArith Qround Lia Lqa Ascii String List Bool.
From stdpp Require Import gmap strings list fin_maps pretty.

Local Open Scope Z_scope.

(** ** JavaScript primitives used by the sources *)

Module JS.

(** [Math.floor] and [Math.round] on a finite number. [Math.round] rounds
    to the nearest integer, a tie going up. *)
Definition Math_floor (x : Q) : Z := Qfloor x.
Definition Math_round (x : Q) : Z := Qfloor (x + (1 # 2))%Q.

(** Truncation towards zero, the quotient used by the [%] operator. *)
Definition trunc (x : Q) : Z :=
  if Qle_bool 0 x then Qfloor x else - Qfloor (- x)%Q.

(** [x % y] for finite [x] and a finite non-zero [y]: the result is
    [x - y * q] where [q] is [x / y] truncated towards zero, so it carries
    the sign of the dividend [x]. *)
Definition rem (x y : Q) : Q := (x - y * inject_Z (trunc (x / y)))%Q.

Definition Qltb (x y : Q) : bool := negb (Qle_bool y x).

(** A [Date]: a time value in milliseconds since the Unix epoch, or an
    invalid date, whose [getTime()] is NaN. *)
Inductive Date : Type :=
| ValidDate (time : Z)
| InvalidDate.

Definition getTime (d : Date) : option Z :=
  match d with ValidDate t => Some t | InvalidDate => None end.

(** Truthiness of a possibly missing string: [undefined], [null] and the
    empty string are falsy. *)
Definition truthy (s : option string) : bool :=
  match s with
  | Some s => negb (String.eqb s "")
  | None => false
  end.

(** [a.includes(x)] on an array of strings. *)
Definition includes (a : list string) (x : string) : bool :=
  existsb (String.eqb x) a.

(** [parseInt(s, 10)]: leading white space is skipped, an optional sign
    is read, then the longest run of decimal digits; what follows is
    ignored. Without a digit the result is NaN, here [None]. Only the
    ASCII white space characters are recognised. *)
Definition isWhiteSpace (c : ascii) : bool :=
  let n := nat_of_ascii c in
  ((9 <=? n) && (n <=? 13))%nat || (n =? 32)%nat.

Definition digitValue (c : ascii) : option Z :=
  let n := nat_of_ascii c in
  if ((48 <=? n) && (n <=? 57))%nat then Some (Z.of_nat n - 48) else None.

Fixpoint skipWhiteSpace (s : string) : string :=
  match s with
  | String c rest => if isWhiteSpace c then skipWhiteSpace rest else s
  | EmptyString => s
  end.

Fixpoint readDigits (s : string) (acc : option Z) : option Z :=
  match s with
  | String c rest =>
      match digitValue c with
      | Some d => readDigits rest (Some (10 * default 0 acc + d))
      | None => acc
      end
  | EmptyString => acc
  end.

Definition parseInt (s : string) : option Z :=
  match skipWhiteSpace s with
  | String "-" rest => Z.opp <$> readDigits rest None
  | String "+" rest => readDigits rest None
  | s' => readDigits s' None
  end.

(** [x > 0] on a number that can be NaN. *)
Definition gtZero (x : option Z) : bool :=
  match x with Some v => 0 <? v | None => false end.

(** [h || '0'] on a header that may be missing. *)
Definition orZeroString (h : option string) : string :=
  if truthy h then default "0" h else "0".

End JS.

(** ** [src/lib/lunar.ts] *)

Module Lunar.
Import JS.

(** [new Date('2000-01-01T00:00:00.000Z').getTime()] *)
Definition knownNewMoon : Z := 946684800000.

Definition lunarCycle : Q := 29.53058867.

Definition daysSinceNewMoon (time : Q) : Q :=
  ((time - inject_Z knownNewMoon) / inject_Z (1000 * 60 * 60 * 24))%Q.

(** [const phase = ((daysSinceNewMoon % lunarCycle) / lunarCycle)], on
    exact rationals. *)
Definition phase (time : Q) : Q :=
  (rem (daysSinceNewMoon time) lunarCycle / lunarCycle)%Q.

(** The chain of range tests on [phase]. *)
Definition phaseName (phase : Q) : string :=
  if Qltb phase 0.0625 || Qle_bool 0.9375 phase then "New Moon"
  else if Qltb phase 0.1875 then "Waxing Crescent"
  else if Qltb phase 0.3125 then "First Quarter"
  else if Qltb phase 0.4375 then "Waxing Gibbous"
  else if Qltb phase 0.5625 then "Full Moon"
  else if Qltb phase 0.6875 then "Waning Gibbous"
  else if Qltb phase 0.8125 then "Last Quarter"
  else "Waning Crescent".

(** The body of [getLunarPhase] as a function of [date.getTime()]. *)
Definition lunarPhaseAt (time : Q) : string := phaseName (phase time).

(** [getLunarPhase(date)]. On an invalid date [getTime()] is NaN, every
    comparison of the chain is false and the last [return] is reached. *)
Definition getLunarPhase (date : Date) : string :=
  match getTime date with
  | Some t => lunarPhaseAt (inject_Z t)
  | None => "Waning Crescent"
  end.

(** [LUNAR_PHASES.map(p => p.name)] *)
Definition LUNAR_PHASE_NAMES : list string :=
  [ "New Moon"; "Waxing Crescent"; "First Quarter"; "Waxing Gibbous";
    "Full Moon"; "Waning Gibbous"; "Last Quarter"; "Waning Crescent" ].

(** One synodic month in milliseconds. *)
Definition cycleMs : Q := (lunarCycle * inject_Z (1000 * 60 * 60 * 24))%Q.

(** The number of cycles elapsed since the reference new moon. *)
Definition cycles (time : Q) : Q := (daysSinceNewMoon time / lunarCycle)%Q.

(** [new Date('1999-12-25T00:00:00.000Z').getTime()], seven days before
    the reference new moon. *)
Definition christmas1999 : Z := 946080000000.

End Lunar.

(** ** [src/lib/github.ts]: the rate limiter settings *)

Module Limiter.
Import JS.

(** The options of the [Bottleneck] limiter that the source sets. A
    number that can be NaN is an [option Z]. *)
Record Settings : Type := mkSettings {
  maxConcurrent : Z;
  minTime : option Z;
  reservoir : Z;
  reservoirRefreshAmount : Z;
  reservoirRefreshInterval : Z
}.

(** [const limiter = new Bottleneck({...})] *)
Definition limiter : Settings :=
  {| maxConcurrent := 1;
     minTime := Some 250;
     reservoir := 1000;
     reservoirRefreshAmount := 1000;
     reservoirRefreshInterval := 60 * 60 * 1000 |}.

Record Headers : Type := mkHeaders {
  x_ratelimit_remaining : option string;
  x_ratelimit_reset : option string
}.

(** [Math.max(1000, Math.floor(resetInMs / remaining))]; NaN when
    [resetInMs] is NaN. *)
Definition spreadInterval (resetInMs : option Z) (remaining : Z) : option Z :=
  match resetInMs with
  | Some r => Some (Z.max 1000 (Math_floor (inject_Z r / inject_Z remaining)))
  | None => None
  end.

(** The two numbers read from the headers: [remaining], and [resetInMs]
    with [now = Math.floor(Date.now() / 1000)]. *)
Definition remainingOf (headers : Headers) : option Z :=
  parseInt (orZeroString (x_ratelimit_remaining headers)).

Definition resetInMsOf (headers : Headers) (dateNow : Z) : option Z :=
  let reset := parseInt (orZeroString (x_ratelimit_reset headers)) in
  let now := Math_floor (inject_Z dateNow / 1000) in
  (fun r => (r - now) * 1000) <$> reset.

(** [updateRateLimits(response)], [dateNow] being the value of
    [Date.now()] and [l] the current settings of the limiter;
    [limiter.updateSettings] overwrites the options it is given. *)
Definition updateRateLimits (headers : Headers) (dateNow : Z) (l : Settings)
  : Settings :=
  let remaining := remainingOf headers in
  let resetInMs := resetInMsOf headers dateNow in
  if gtZero remaining then
    {| maxConcurrent := maxConcurrent l;
       minTime := spreadInterval resetInMs (default 0 remaining);
       reservoir := default 0 remaining;
       reservoirRefreshAmount := reservoirRefreshAmount l;
       reservoirRefreshInterval := reservoirRefreshInterval l |}
  else if gtZero resetInMs then
    {| maxConcurrent := maxConcurrent l;
       minTime := minTime l;
       reservoir := 0;
       reservoirRefreshAmount := 5000;
       reservoirRefreshInterval := default 0 resetInMs |}
  else l.

End Limiter.

(** ** The scheduling of the limiter *)

Module Dispatch.
Import JS Limiter.

(** Modelled from the spec: the scheduling of the rate limiter, which
    the source leaves to the Bottleneck library; the library is not
    under [src/]. The spec (4.2) gives the limiter "a call budget that
    depletes by one per call and refills to a fixed amount on a fixed
    interval; when budget reaches zero, further calls are deferred until
    refill", and has the re-tuning "zero the budget and set the refill
    interval to exactly the time-until-reset, so no further calls
    proceed until then". So the budget that a call finds [elapsed] ms
    after the settings were made, no call having started in between, is
    the budget that was set until one refill interval has passed, and
    the refill amount from then on. *)
Definition budgetAfter (s : Settings) (elapsed : Z) : Z :=
  if elapsed <? reservoirRefreshInterval s then reservoir s
  else reservoirRefreshAmount s.

(** Modelled from the spec: "when budget reaches zero, further calls
    are deferred until refill". *)
Definition deferred (s : Settings) (elapsed : Z) : bool :=
  budgetAfter s elapsed <=? 0.

End Dispatch.

(** ** [src/lib/github.ts]: data *)

Module GitHub.
Import JS Lunar.

(** A commit of a listing. The optional chains of the source are
    flattened: [authorEmail] is [commit.commit.author?.email],
    [authorDate] is [commit.commit.author?.date] and [authorLogin] is
    [commit.author?.login]. *)
Record GitHubCommitResponse : Type := mkCommit {
  authorEmail : option string;
  authorDate : option string;
  authorLogin : option string;
  message : string;
  sha : string
}.

(** [detailedCommit.stats]; a field is [None] when it is undefined. *)
Record DiffStats : Type := mkDiffStats {
  additions : option Z;
  deletions : option Z;
  total : option Z
}.

Record DetailedCommitResponse : Type := mkDetailed {
  stats : option DiffStats
}.

Record GitHubEmail : Type := mkEmail {
  email : string;
  verified : bool
}.

Record GitHubRepo : Type := mkRepo {
  owner : string;
  name : string;
  fork : bool
}.

Record TimeOfDay : Type := mkTimeOfDay {
  dawn : Z;
  day : Z;
  dusk : Z;
  night : Z
}.

Record LargestCommit : Type := mkLargest {
  lc_phase : string;
  lc_size : Z;
  lc_message : string;
  lc_date : string
}.

Record CommitStats : Type := mkStats {
  commitsByPhase : gmap string Z;
  averageCommitSize : gmap string Z;
  timeOfDay : TimeOfDay;
  largestCommit : LargestCommit;
  totalAdditions : Z;
  totalDeletions : Z
}.

(** The literal [stats] is initialised with. *)
Definition emptyStats : CommitStats :=
  {| commitsByPhase := ∅;
     averageCommitSize := ∅;
     timeOfDay := mkTimeOfDay 0 0 0 0;
     largestCommit := mkLargest "" 0 "" "";
     totalAdditions := 0;
     totalDeletions := 0 |}.

Definition GITHUB_SYSTEM_AUTHORS : list string :=
  [ "noreply@github.com"; "actions@github.com"; "github-actions[bot]";
    "web-flow"; "dependabot[bot]" ].

(** The predicate given to [commits.filter]. The two early
    [return false] come first; the value of the last [return] is read
    for its truthiness. *)
Definition isUserCommit (username : string) (userEmails : list string)
    (commit : GitHubCommitResponse) : bool :=
  if truthy (authorEmail commit)
     && includes GITHUB_SYSTEM_AUTHORS (default "" (authorEmail commit))
  then false
  else if truthy (authorLogin commit)
     && includes GITHUB_SYSTEM_AUTHORS (default "" (authorLogin commit))
  then false
  else
    bool_decide (authorLogin commit = Some username)
    || (truthy (authorEmail commit)
        && includes userEmails (default "" (authorEmail commit))).

(** The two conditions the predicate combines: the author is one of
    the system authors; the author is the user. *)
Definition isSystemAuthor (commit : GitHubCommitResponse) : bool :=
  (truthy (authorEmail commit)
   && includes GITHUB_SYSTEM_AUTHORS (default "" (authorEmail commit)))
  || (truthy (authorLogin commit)
      && includes GITHUB_SYSTEM_AUTHORS (default "" (authorLogin commit))).

Definition isOwnedByUser (username : string) (userEmails : list string)
    (commit : GitHubCommitResponse) : bool :=
  bool_decide (authorLogin commit = Some username)
  || (truthy (authorEmail commit)
      && includes userEmails (default "" (authorEmail commit))).

(** The host: how [new Date(s)] reads a date string and the offset of
    local time from UTC, in milliseconds, at an instant. *)
Record Host : Type := mkHost {
  newDate : string → Date;
  localOffset : Z → Z
}.

(** [date.getHours()]: the hour of the day in local time, NaN on an
    invalid date. *)
Definition getHours (h : Host) (date : Date) : option Z :=
  match date with
  | ValidDate t => Some (((t + localOffset h t) / 3600000) `mod` 24)
  | InvalidDate => None
  end.

(** [new Date(commit.commit.author?.date || '')] *)
Definition commitDate (h : Host) (commit : GitHubCommitResponse) : Date :=
  newDate h (if truthy (authorDate commit) then default "" (authorDate commit) else "").

(** The four tests on [hour]; with NaN all of them fail and the last
    branch counts the commit under [night]. *)
Definition countTimeOfDay (hour : option Z) (t : TimeOfDay) : TimeOfDay :=
  match hour with
  | Some hr =>
      if (4 <=? hr) && (hr <? 8) then
        mkTimeOfDay (dawn t + 1) (day t) (dusk t) (night t)
      else if (8 <=? hr) && (hr <? 16) then
        mkTimeOfDay (dawn t) (day t + 1) (dusk t) (night t)
      else if (16 <=? hr) && (hr <? 20) then
        mkTimeOfDay (dawn t) (day t) (dusk t + 1) (night t)
      else mkTimeOfDay (dawn t) (day t) (dusk t) (night t + 1)
  | None => mkTimeOfDay (dawn t) (day t) (dusk t) (night t + 1)
  end.

(** [m[k] || 0] on a record of numbers. *)
Definition orZero (m : gmap string Z) (k : string) : Z := default 0 (m !! k).

(** The counting part of the first loop over [userCommits]: phase and
    time of day of one commit. *)
Definition countCommit (h : Host) (commit : GitHubCommitResponse)
    (s : CommitStats) : CommitStats :=
  let date := commitDate h commit in
  let phase := getLunarPhase date in
  let hour := getHours h date in
  {| commitsByPhase := <[phase := orZero (commitsByPhase s) phase + 1]> (commitsByPhase s);
     averageCommitSize := averageCommitSize s;
     timeOfDay := countTimeOfDay hour (timeOfDay s);
     largestCommit := largestCommit s;
     totalAdditions := totalAdditions s;
     totalDeletions := totalDeletions s |}.

(** The truthy value of [detailedCommit.stats?.total], if any. *)
Definition truthyTotal (d : DetailedCommitResponse) : option Z :=
  match stats d with
  | Some st =>
      match total st with
      | Some t => if t =? 0 then None else Some t
      | None => None
      end
  | None => None
  end.

(** [detailedCommit.stats?.total] *)
Definition diffTotal (d : DetailedCommitResponse) : option Z :=
  stats d ≫= total.

(** The body of the loop over [batchResults]: the sizes of one commit. *)
Definition addDetails (h : Host) (commit : GitHubCommitResponse)
    (detailedCommit : DetailedCommitResponse) (s : CommitStats) : CommitStats :=
  match truthyTotal detailedCommit, stats detailedCommit with
  | Some size, Some st =>
      let date := commitDate h commit in
      let phase := getLunarPhase date in
      {| commitsByPhase := commitsByPhase s;
         averageCommitSize :=
           <[phase := orZero (averageCommitSize s) phase + size]> (averageCommitSize s);
         timeOfDay := timeOfDay s;
         largestCommit :=
           if lc_size (largestCommit s) <? size then
             {| lc_phase := phase;
                lc_size := size;
                lc_message := message commit;
                lc_date := if truthy (authorDate commit)
                           then default "" (authorDate commit) else "" |}
           else largestCommit s;
         totalAdditions := totalAdditions s + default 0 (additions st);
         totalDeletions := totalDeletions s + default 0 (deletions st) |}
  | _, _ => s
  end.

(** [m[k] || 1] *)
Definition orOne (m : gmap string Z) (k : string) : Z :=
  match m !! k with
  | Some c => if c =? 0 then 1 else c
  | None => 1
  end.

(** The [Calculate averages] loop: every key of [averageCommitSize] is
    overwritten with its value divided by the count of its phase and
    rounded. *)
Definition finalize (s : CommitStats) : CommitStats :=
  {| commitsByPhase := commitsByPhase s;
     averageCommitSize :=
       map_imap (fun phase v =>
         Some (Math_round (inject_Z v / inject_Z (orOne (commitsByPhase s) phase))))
         (averageCommitSize s);
     timeOfDay := timeOfDay s;
     largestCommit := largestCommit s;
     totalAdditions := totalAdditions s;
     totalDeletions := totalDeletions s |}.

(** [sum(commitsByPhase.values())] *)
Definition sumValues (m : gmap string Z) : Z :=
  map_fold (fun _ v acc => v + acc) 0 m.

End GitHub.

(** ** [src/lib/github.ts]: [fetchUserCommits] *)

Module Pipeline.
Import JS Lunar GitHub.

(** A rejected request: [error.status],
    [error.response?.headers?.['x-ratelimit-reset']], [error.message]. *)
Record RequestError : Type := mkError {
  status : option Z;
  resetHeader : option string;
  errorMessage : string
}.

Inductive Response (A : Type) : Type :=
| Ok (data : A)
| Failed (error : RequestError).
Arguments Ok {A} data.
Arguments Failed {A} error.

(** What is outside the function: the remote API, the clock read when
    the failure of a repository is handled, the host, and whether
    [global.progressController] is set. *)
Record Env : Type := mkEnv {
  listEmailsForAuthenticatedUser : Response (list GitHubEmail);
  listForAuthenticatedUser : Response (list GitHubRepo);
  listCommits : GitHubRepo → Response (list GitHubCommitResponse);
  getCommit : GitHubRepo → string → Response DetailedCommitResponse;
  dateNowAtFailure : GitHubRepo → Z;
  host : Host;
  progressController : bool
}.

Record StatsSnapshot : Type := mkSnapshot {
  snap_commitsByPhase : gmap string Z;
  snap_timeOfDay : TimeOfDay;
  snap_totalCommits : Z
}.

Record Progress : Type := mkProgress {
  current : Z;
  total : Z;
  percentage : Z;
  progress_stats : option StatsSnapshot
}.

Record ProgressData : Type := mkData {
  data_message : string;
  data_progress : option Progress
}.

(** The call site of a [sendProgress]. *)
Inductive Site : Type :=
| AtStatus
| AtRepository
| AtFifthCommit
| AtComplete
| AtError.

Inductive Request : Type :=
| ListEmails
| ListRepos
| ListCommits (repo : GitHubRepo)
| GetCommit (repo : GitHubRepo) (ref : string).

(** What a run does to the outside, in the order it happens: a message
    put on the progress stream, a request handed to the limiter (one
    call of the client, whatever the client sends on the wire for it),
    a wait. *)
Inductive Event : Type :=
| Enqueued (site : Site) (data : ProgressData)
| Requested (r : Request)
| Slept (ms : Z).

(** The local variables of [fetchUserCommits] that the loops update,
    and the events so far. *)
Record Run : Type := mkRun {
  run_stats : CommitStats;
  processedRepos : Z;
  totalCommits : Z;
  events : list Event
}.

Definition emit (e : Event) (r : Run) : Run :=
  {| run_stats := run_stats r;
     processedRepos := processedRepos r;
     totalCommits := totalCommits r;
     events := events r ++ [e] |}.

(** The object [sendProgress] serialises: the message and, when a
    progress is given, its [current] and [total], the percentage and
    the optional [stats]. The percentage is rounded from the exact
    quotient; the code rounds the double, which can give one less. *)
Definition progressData (message : string)
    (progress : option (Z * Z * option StatsSnapshot)) : ProgressData :=
  {| data_message := message;
     data_progress :=
       (fun p => match p with
          | (cur, tot, st) =>
              {| current := cur;
                 total := tot;
                 percentage := Math_round (inject_Z cur / inject_Z tot * 100);
                 progress_stats := st |}
          end) <$> progress |}.

(** [sendProgress(message, progress)] with a controller that accepts
    the message, or without one: nothing happens without a controller.
    A controller whose [enqueue] throws is the matter of
    [Stream.sendProgress]. *)
Definition sendProgress (env : Env) (site : Site) (message : string)
    (progress : option (Z * Z * option StatsSnapshot)) (r : Run) : Run :=
  if progressController env then
    emit (Enqueued site (progressData message progress)) r
  else r.

(** The [progress] argument of the two calls inside the loop. *)
Definition repositoryProgress (nRepos : Z) (r : Run)
  : option (Z * Z * option StatsSnapshot) :=
  Some (processedRepos r, nRepos,
        Some {| snap_commitsByPhase := commitsByPhase (run_stats r);
                snap_timeOfDay := timeOfDay (run_stats r);
                snap_totalCommits := totalCommits r |}).

(** One iteration of the first loop over [userCommits]. *)
Definition processBasic (env : Env) (nRepos : Z) (r : Run)
    (commit : GitHubCommitResponse) : Run :=
  let r1 :=
    {| run_stats := countCommit (host env) commit (run_stats r);
       processedRepos := processedRepos r;
       totalCommits := totalCommits r + 1;
       events := events r |} in
  if Z.rem (totalCommits r1) 5 =? 0 then
    sendProgress env AtFifthCommit "Analyzing repositories"
      (repositoryProgress nRepos r1) r1
  else r1.

Definition BATCH_SIZE : nat := 5.

(** The slices [userCommits.slice(i, i + BATCH_SIZE)] for
    [i = 0, BATCH_SIZE, ...] while [i < userCommits.length]. The first
    argument bounds the number of iterations. *)
Fixpoint batchesFrom {A : Type} (fuel : nat) (l : list A) : list (list A) :=
  match fuel with
  | O => []
  | S fuel' =>
      match l with
      | [] => []
      | _ => take BATCH_SIZE l :: batchesFrom fuel' (drop BATCH_SIZE l)
      end
  end.

Definition batches {A : Type} (l : list A) : list (list A) :=
  batchesFrom (length l) l.

(** [Promise.all]: the results in order, or a rejection. *)
Fixpoint promiseAll {A : Type} (rs : list (Response A)) : option (list A) :=
  match rs with
  | [] => Some []
  | Ok a :: rest => (fun l => a :: l) <$> promiseAll rest
  | Failed _ :: _ => None
  end.

Definition withStats (s : CommitStats) (r : Run) : Run :=
  {| run_stats := s;
     processedRepos := processedRepos r;
     totalCommits := totalCommits r;
     events := events r |}.

(** One iteration of the loop over the batches: the requests of the
    batch are all issued; the results are folded only if none failed,
    and a failure is caught and logged. *)
Definition processBatch (env : Env) (repo : GitHubRepo) (r : Run)
    (batch : list GitHubCommitResponse) : Run :=
  let r1 := foldl (fun acc c => emit (Requested (GetCommit repo (sha c))) acc) r batch in
  match promiseAll (map (fun c => getCommit env repo (sha c)) batch) with
  | Some batchResults =>
      withStats
        (foldl (fun s cd => addDetails (host env) (fst cd) (snd cd) s)
               (run_stats r1) (zip batch batchResults))
        r1
  | None => r1
  end.

Definition statusIs (e : RequestError) (code : Z) : bool :=
  bool_decide (status e = Some code).

(** The [catch] block of the loop over the repositories. Every branch
    ends the iteration: three of them with [continue], the fourth by
    reaching the end of the block. *)
Definition onRepositoryError (env : Env) (repo : GitHubRepo)
    (error : RequestError) (r : Run) : Run :=
  if statusIs error 404 then r
  else if statusIs error 403 then
    let resetIn :=
      (fun reset => reset * 1000 - dateNowAtFailure env repo)
        <$> parseInt (orZeroString (resetHeader error)) in
    if gtZero resetIn then emit (Slept (default 0 resetIn)) r
    else r
  else if statusIs error 409 then r
  else r.

(** One iteration of the loop over [nonForkRepos]. *)
Definition processRepository (env : Env) (username : string)
    (userEmails : list string) (nRepos : Z) (r : Run) (repo : GitHubRepo) : Run :=
  let r1 :=
    {| run_stats := run_stats r;
       processedRepos := processedRepos r + 1;
       totalCommits := totalCommits r;
       events := events r |} in
  let r2 := sendProgress env AtRepository "Analyzing repositories"
              (repositoryProgress nRepos r1) r1 in
  let r3 := emit (Requested (ListCommits repo)) r2 in
  match listCommits env repo with
  | Ok commits =>
      let userCommits := filter (fun c => isUserCommit username userEmails c) commits in
      let r4 := foldl (processBasic env nRepos) r3 userCommits in
      foldl (processBatch env repo) r4 (batches userCommits)
  | Failed error => onRepositoryError env repo error r3
  end.

(** The repositories whose commits were requested, the commits whose
    details were requested, the totals carried by the snapshots sent
    every fifth commit, and the sites of the messages, each in the order
    of the events. *)
Definition listedRepos (l : list Event) : list GitHubRepo :=
  omap (fun e => match e with Requested (ListCommits repo) => Some repo | _ => None end) l.

Definition commitRequests (l : list Event) : list string :=
  omap (fun e => match e with Requested (GetCommit _ ref) => Some ref | _ => None end) l.

Definition sites (l : list Event) : list Site :=
  omap (fun e => match e with Enqueued site _ => Some site | _ => None end) l.

Definition snapshotOf (e : Event) : option StatsSnapshot :=
  match e with
  | Enqueued _ d => data_progress d ≫= progress_stats
  | _ => None
  end.

Definition fifthCommitTotals (l : list Event) : list Z :=
  omap (fun e => match e with
                 | Enqueued AtFifthCommit d =>
                     snap_totalCommits <$> (data_progress d ≫= progress_stats)
                 | _ => None
                 end) l.

#[export] Instance Site_eq_dec : EqDecision Site.
Proof. solve_decision. Defined.

(** The number of messages sent from a site. *)
Definition countSite (site : Site) (l : list Event) : nat :=
  length (filter (fun s => s = site) (sites l)).

(** The multiples of five up to [n]: 5, 10, ..., in increasing order. *)
Definition multiplesOfFive (n : Z) : list Z :=
  map (fun k => 5 * Z.of_nat k) (seq 1 (Z.to_nat (n / 5))).

(** A snapshot agrees with itself when its counts by phase sum to its
    commit total. *)
Definition snapshotConsistent (e : Event) : Prop :=
  match snapshotOf e with
  | Some sn => sumValues (snap_commitsByPhase sn) = snap_totalCommits sn
  | None => True
  end.

Inductive Outcome : Type :=
| Returned (s : CommitStats)
| Thrown (error : RequestError).

Definition initialRun : Run :=
  {| run_stats := emptyStats; processedRepos := 0; totalCommits := 0; events := [] |}.

Definition lengthText {A : Type} (l : list A) : string :=
  pretty (Z.of_nat (length l)).

(** The loop over the repositories, then the averages and the last
    message. *)
Definition analyzeRepositories (env : Env) (username : string)
    (userEmails : list string) (nonForkRepos : list GitHubRepo) (r : Run) : Run :=
  let r1 := foldl (processRepository env username userEmails
                     (Z.of_nat (length nonForkRepos))) r nonForkRepos in
  let r2 := withStats (finalize (run_stats r1)) r1 in
  sendProgress env AtComplete "Analysis complete!" None r2.

Definition fetchUserCommits (env : Env) (username : string) : Run * Outcome :=
  let r0 := sendProgress env AtStatus
              ("Starting commit analysis for " ++ username ++ "...") None initialRun in
  let r1 := sendProgress env AtStatus "Fetching user emails..." None r0 in
  let r2 := emit (Requested ListEmails) r1 in
  match listEmailsForAuthenticatedUser env with
  | Failed error =>
      (sendProgress env AtError ("Error: " ++ errorMessage error) None r2, Thrown error)
  | Ok emails =>
      let userEmails := map email (filter (fun e => verified e = true) emails) in
      let r3 := sendProgress env AtStatus
                  ("Found " ++ lengthText userEmails ++ " verified email(s)") None r2 in
      let r4 := sendProgress env AtStatus "Fetching repositories..." None r3 in
      let r5 := emit (Requested ListRepos) r4 in
      match listForAuthenticatedUser env with
      | Failed error =>
          (sendProgress env AtError ("Error: " ++ errorMessage error) None r5, Thrown error)
      | Ok repos =>
          let nonForkRepos := filter (fun repo => fork repo = false) repos in
          let r6 := sendProgress env AtStatus
                      ("Found " ++ lengthText nonForkRepos ++ " repositories to analyze")
                      None r5 in
          let r7 := analyzeRepositories env username userEmails nonForkRepos r6 in
          (r7, Returned (run_stats r7))
      end
  end.


(** The last message of a run that returns. *)
Definition completion : Event :=
  Enqueued AtComplete (progressData "Analysis complete!" None).

(** What holds of the local variables and the events at every point of
    the loop over the repositories. *)
Record invariant (env : Env) (r : Run) : Prop := mkInvariant {
  inv_total : 0 ≤ totalCommits r;
  inv_sum : sumValues (commitsByPhase (run_stats r)) = totalCommits r;
  inv_snapshots : Forall snapshotConsistent (events r);
  inv_cadence :
    fifthCommitTotals (events r)
    = if progressController env then multiplesOfFive (totalCommits r) else [];
  inv_fifth : countSite AtFifthCommit (events r) = length (fifthCommitTotals (events r));
  inv_boundaries :
    Z.of_nat (countSite AtRepository (events r))
    = if progressController env then processedRepos r else 0;
  inv_open : AtComplete ∉ sites (events r)
}.

(** What holds of a finished run, thrown or returned. *)
Record finished (env : Env) (r : Run) (o : Outcome) : Prop := mkFinished {
  fin_sum : sumValues (commitsByPhase (run_stats r)) = totalCommits r;
  fin_snapshots : Forall snapshotConsistent (events r);
  fin_cadence :
    fifthCommitTotals (events r)
    = if progressController env then multiplesOfFive (totalCommits r) else [];
  fin_fifth : countSite AtFifthCommit (events r) = length (fifthCommitTotals (events r));
  fin_boundaries :
    Z.of_nat (countSite AtRepository (events r))
    = if progressController env then processedRepos r else 0;
  fin_returned :
    ∀ s, o = Returned s →
      s = run_stats r
      ∧ ∃ earlier,
          events r = earlier ++ (if progressController env then [completion] else [])
          ∧ AtComplete ∉ sites earlier;
  fin_thrown : ∀ e, o = Thrown e → totalCommits r = 0
}.

End Pipeline.

(** ** [src/lib/github.ts]: [fetchBasicCommitStats] and
     [fetchDetailedCommitStats] *)

Module Detailed.
Import JS Lunar GitHub Pipeline.

(** What is outside the two functions: the repositories and the
    commits as listed (a rejected listing rejects the whole call), the
    answers to the detail requests, the date the run starts, the host,
    and whether the caller passes [onProgress]. *)
Record DetailEnv : Type := mkDetailEnv {
  paginateRepos : Response (list GitHubRepo);
  listAllCommits : GitHubRepo → Response (list GitHubCommitResponse);
  getCommitDetails : GitHubRepo → string → Response DetailedCommitResponse;
  startDate : Date;
  detailHost : Host;
  onProgress : bool
}.

(** The argument of a call of [onProgress]: from the loop of
    [fetchBasicCommitStats], or from the loop of
    [fetchDetailedCommitStats]. *)
Inductive ProgressCall : Type :=
| BasicProgress (totalCommits : Z) (commitsByPhase : gmap string Z)
    (commitsByHour : gmap (option Z) Z) (currentRepo : string)
| DetailProgress (message : string) (current total percentage : Z).

Record BasicRun : Type := mkBasicRun {
  b_totalCommits : Z;
  b_commitsByPhase : gmap string Z;
  b_commitsByHour : gmap (option Z) Z;
  b_calls : list ProgressCall
}.

(** One commit of the loop of [fetchBasicCommitStats]. The hour of an
    invalid date is NaN, a key like another. *)
Definition basicCommit (env : DetailEnv) (repo : GitHubRepo) (b : BasicRun)
    (commit : GitHubCommitResponse) : BasicRun :=
  let total := b_totalCommits b + 1 in
  let date := commitDate (detailHost env) commit in
  let phase := getLunarPhase date in
  let hour := getHours (detailHost env) date in
  let byPhase := <[phase := orZero (b_commitsByPhase b) phase + 1]> (b_commitsByPhase b) in
  let byHour := <[hour := default 0 (b_commitsByHour b !! hour) + 1]> (b_commitsByHour b) in
  {| b_totalCommits := total;
     b_commitsByPhase := byPhase;
     b_commitsByHour := byHour;
     b_calls :=
       if onProgress env && (Z.rem total 10 =? 0)
       then b_calls b ++ [BasicProgress total byPhase byHour (name repo)]
       else b_calls b |}.

Fixpoint basicRepos (env : DetailEnv) (repos : list GitHubRepo) (b : BasicRun)
  : Response BasicRun :=
  match repos with
  | [] => Ok b
  | repo :: rest =>
      match listAllCommits env repo with
      | Ok commits => basicRepos env rest (foldl (basicCommit env repo) b commits)
      | Failed error => Failed error
      end
  end.

(** [fetchUserRepos]: the listing without the forks. *)
Definition fetchUserRepos (env : DetailEnv) : Response (list GitHubRepo) :=
  match paginateRepos env with
  | Ok repos => Ok (filter (fun repo => fork repo = false) repos)
  | Failed error => Failed error
  end.

Definition fetchBasicCommitStats (env : DetailEnv) : Response BasicRun :=
  match fetchUserRepos env with
  | Ok repos =>
      basicRepos env repos
        {| b_totalCommits := 0; b_commitsByPhase := ∅; b_commitsByHour := ∅;
           b_calls := [] |}
  | Failed error => Failed error
  end.

Record DetailRun : Type := mkDetailRun {
  d_totalAdditions : Z;
  d_totalDeletions : Z;
  d_largestSize : Z;
  d_largestMessage : string;
  d_largestDate : Date;
  processedCommits : Z;
  d_calls : list ProgressCall
}.

(** [`Analyzing commit details (${processedCommits}/${totalCommits})`] *)
Definition detailMessage (processed total : Z) : string :=
  "Analyzing commit details (" ++ pretty processed ++ "/" ++ pretty total ++ ")".

(** One commit of the loop of [fetchDetailedCommitStats]: the counter
    grows first; a rejected request is caught and skips the rest of the
    body, the progress call included. *)
Definition detailCommit (env : DetailEnv) (totalCommits : Z) (repo : GitHubRepo)
    (d : DetailRun) (commit : GitHubCommitResponse) : DetailRun :=
  let processed := processedCommits d + 1 in
  match getCommitDetails env repo (sha commit) with
  | Ok details =>
      let adds := default 0 (stats details ≫= additions) in
      let dels := default 0 (stats details ≫= deletions) in
      let size := adds + dels in
      let larger := d_largestSize d <? size in
      {| d_totalAdditions := d_totalAdditions d + adds;
         d_totalDeletions := d_totalDeletions d + dels;
         d_largestSize := if larger then size else d_largestSize d;
         d_largestMessage := if larger then message commit else d_largestMessage d;
         d_largestDate :=
           if larger then commitDate (detailHost env) commit else d_largestDate d;
         processedCommits := processed;
         d_calls :=
           if (Z.rem processed 5 =? 0) && onProgress env
           then d_calls d
                ++ [DetailProgress (detailMessage processed totalCommits)
                      processed totalCommits
                      (Math_round (inject_Z processed / inject_Z totalCommits * 100))]
           else d_calls d |}
  | Failed _ =>
      {| d_totalAdditions := d_totalAdditions d;
         d_totalDeletions := d_totalDeletions d;
         d_largestSize := d_largestSize d;
         d_largestMessage := d_largestMessage d;
         d_largestDate := d_largestDate d;
         processedCommits := processed;
         d_calls := d_calls d |}
  end.

Fixpoint detailRepos (env : DetailEnv) (totalCommits : Z) (repos : list GitHubRepo)
    (d : DetailRun) : Response DetailRun :=
  match repos with
  | [] => Ok d
  | repo :: rest =>
      match listAllCommits env repo with
      | Ok commits =>
          detailRepos env totalCommits rest
            (foldl (detailCommit env totalCommits repo) d commits)
      | Failed error => Failed error
      end
  end.

Record DetailedStats : Type := mkDetailedStats {
  ds_basic : BasicRun;
  ds_detail : DetailRun;
  ds_averageCommitSize : option Q
}.

(** [fetchDetailedCommitStats]; the average is NaN when no commit was
    counted. *)
Definition fetchDetailedCommitStats (env : DetailEnv) : Response DetailedStats :=
  match fetchBasicCommitStats env with
  | Failed error => Failed error
  | Ok basic =>
      match fetchUserRepos env with
      | Failed error => Failed error
      | Ok repos =>
          match detailRepos env (b_totalCommits basic) repos
                  {| d_totalAdditions := 0; d_totalDeletions := 0;
                     d_largestSize := 0; d_largestMessage := "";
                     d_largestDate := startDate env;
                     processedCommits := 0;
                     d_calls := b_calls basic |} with
          | Failed error => Failed error
          | Ok d =>
              Ok {| ds_basic := basic;
                    ds_detail := d;
                    ds_averageCommitSize :=
                      if b_totalCommits basic =? 0 then None
                      else Some (inject_Z (d_totalAdditions d + d_totalDeletions d)
                                 / inject_Z (b_totalCommits basic))%Q |}
          end
      end
  end.

(** The [current] of the calls made from the detail loop. *)
Definition detailCurrents (l : list ProgressCall) : list Z :=
  omap (fun c => match c with
                 | DetailProgress _ current _ _ => Some current
                 | BasicProgress _ _ _ _ => None
                 end) l.

End Detailed.

(** ** Inputs of the examples *)

Module Scenarios.
Import JS Lunar Limiter GitHub Pipeline.

(** The response of the first scenario: ten calls remaining, the reset
    five seconds after the clock reading 1000999 ms. *)
Definition tenRemaining : Headers := mkHeaders (Some "10") (Some "1005").

(** The response of the second scenario: none remaining, the reset
    three seconds ahead. *)
Definition noneRemaining : Headers := mkHeaders (Some "0") (Some "1003").

(** The commit of the counterexample: made through the web interface
    under a verified address of the user. *)
Definition webFlowCommit : GitHubCommitResponse :=
  {| authorEmail := Some "octocat@example.com";
     authorDate := Some "2024-12-29T00:52:18Z";
     authorLogin := Some "web-flow";
     message := "Update README.md";
     sha := "a1b2c3" |}.

(** The accumulator after two commits of 60 and 40 changed lines, both
    at full moon, and the one after a single commit of 100 lines. *)
Definition twoAtFullMoon : CommitStats :=
  {| commitsByPhase := {[ "Full Moon" := 2 ]};
     averageCommitSize := {[ "Full Moon" := 100 ]};
     timeOfDay := mkTimeOfDay 0 2 0 0;
     largestCommit := mkLargest "Full Moon" 60 "first" "2024-12-15T12:00:00Z";
     totalAdditions := 70;
     totalDeletions := 30 |}.

Definition oneAtFullMoon : CommitStats :=
  {| commitsByPhase := {[ "Full Moon" := 1 ]};
     averageCommitSize := {[ "Full Moon" := 100 ]};
     timeOfDay := mkTimeOfDay 0 1 0 0;
     largestCommit := mkLargest "Full Moon" 100 "only" "2024-12-15T12:00:00Z";
     totalAdditions := 70;
     totalDeletions := 30 |}.

(** A host in UTC that reads two date strings. *)
Definition utcHost : Host :=
  {| newDate := fun s =>
       if String.eqb s "2024-12-15T12:00:00Z" then ValidDate 1734264000000
       else if String.eqb s "2024-12-29T00:52:18Z" then ValidDate 1735433538000
       else InvalidDate;
     localOffset := fun _ => 0 |}.

Definition repoAlpha : GitHubRepo := mkRepo "octocat" "alpha" false.
Definition repoBeta : GitHubRepo := mkRepo "octocat" "beta" false.

Definition userCommit (ref : string) : GitHubCommitResponse :=
  {| authorEmail := Some "octocat@example.com";
     authorDate := Some "2024-12-15T12:00:00Z";
     authorLogin := Some "octocat";
     message := "commit " ++ ref;
     sha := ref |}.

Definition rateLimited : RequestError :=
  mkError (Some 403) (Some "1005") "API rate limit exceeded".

Definition serverError : RequestError :=
  mkError (Some 502) None "Bad Gateway".

Definition someDetails : DetailedCommitResponse :=
  mkDetailed (Some (mkDiffStats (Some 30) (Some 12) (Some 42))).

(** Two repositories; listing the commits of the first fails with a
    403 whose reset is five seconds after the clock reading of the
    handler; no observer. *)
Definition envRateLimited : Env :=
  {| listEmailsForAuthenticatedUser := Ok [mkEmail "octocat@example.com" true];
     listForAuthenticatedUser := Ok [repoAlpha; repoBeta];
     listCommits := fun repo =>
       if String.eqb (name repo) "alpha" then Failed rateLimited else Ok [];
     getCommit := fun _ _ => Failed serverError;
     dateNowAtFailure := fun _ => 1000000;
     host := utcHost;
     progressController := false |}.

Definition twelveRefs : list string :=
  ["c01"; "c02"; "c03"; "c04"; "c05"; "c06"; "c07"; "c08"; "c09"; "c10"; "c11"; "c12"].

(** Seven qualifying commits in one repository and five in another,
    every detail request answered, an observer attached. *)
Definition envTwelveCommits : Env :=
  {| listEmailsForAuthenticatedUser := Ok [mkEmail "octocat@example.com" true];
     listForAuthenticatedUser := Ok [repoAlpha; repoBeta];
     listCommits := fun repo =>
       if String.eqb (name repo) "alpha"
       then Ok (map userCommit (take 7 twelveRefs))
       else Ok (map userCommit (drop 7 twelveRefs));
     getCommit := fun _ _ => Ok someDetails;
     dateNowAtFailure := fun _ => 1000000;
     host := utcHost;
     progressController := true |}.

(** The detail request of the commit [c02] fails, the others succeed. *)
Definition envOneDetailFails : Env :=
  {| listEmailsForAuthenticatedUser := Ok [mkEmail "octocat@example.com" true];
     listForAuthenticatedUser := Ok [repoAlpha];
     listCommits := fun _ => Ok (map userCommit twelveRefs);
     getCommit := fun _ ref =>
       if String.eqb ref "c02" then Failed serverError else Ok someDetails;
     dateNowAtFailure := fun _ => 1000000;
     host := utcHost;
     progressController := false |}.

(** One repository with the twelve commits, every detail request
    answered, a callback passed; and the same with the request of
    [c05] rejected. *)
Definition detailEnvTwelve : Detailed.DetailEnv :=
  {| Detailed.paginateRepos := Ok [repoAlpha];
     Detailed.listAllCommits := fun _ => Ok (map userCommit twelveRefs);
     Detailed.getCommitDetails := fun _ _ => Ok someDetails;
     Detailed.startDate := ValidDate 1735433538000;
     Detailed.detailHost := utcHost;
     Detailed.onProgress := true |}.

Definition detailEnvFifthFails : Detailed.DetailEnv :=
  {| Detailed.paginateRepos := Ok [repoAlpha];
     Detailed.listAllCommits := fun _ => Ok (map userCommit twelveRefs);
     Detailed.getCommitDetails := fun _ ref =>
       if String.eqb ref "c05" then Failed serverError else Ok someDetails;
     Detailed.startDate := ValidDate 1735433538000;
     Detailed.detailHost := utcHost;
     Detailed.onProgress := true |}.

End Scenarios.

(** ** [src/lib/github.ts]: [formatRateLimitError] and [fetchUserProfile] *)

Module Profile.
Import JS Limiter GitHub Pipeline.

Definition Math_ceil (x : Q) : Z := Qceiling x.

(** [new Date(x)] on a number: NaN and the time values beyond the range
    of dates give an invalid date. *)
Definition dateOfNumber (x : option Z) : Date :=
  match x with
  | Some t => if Z.abs t <=? 8640000000000000 then ValidDate t else InvalidDate
  | None => InvalidDate
  end.

(** [Math.ceil(resetIn / (60 * 1000))] *)
Definition minutesUntil (resetIn : option Z) : Z :=
  Math_ceil (inject_Z (default 0 resetIn) / inject_Z (60 * 1000)).

(** [formatRateLimitError(error)], [dateNow] being the value of
    [Date.now()] and [toLocaleTimeString] the host's. *)
Definition formatRateLimitError (toLocaleTimeString : Date → string) (dateNow : Z)
    (error : RequestError) : string :=
  if statusIs error 403 then
    let resetTimestamp := parseInt (orZeroString (resetHeader error)) in
    let resetDate := dateOfNumber ((fun t => t * 1000) <$> resetTimestamp) in
    let resetIn := (fun t => t * 1000 - dateNow) <$> resetTimestamp in
    let minutes := minutesUntil resetIn in
    if gtZero resetIn then
      "Rate limit exceeded. You can try again in " ++ pretty minutes ++ " minute"
        ++ (if minutes =? 1 then "" else "s")
        ++ " (at " ++ toLocaleTimeString resetDate ++ ")"
    else "Rate limit exceeded. You can try again now"
  else
    if String.eqb (errorMessage error) "" then "An unknown error occurred"
    else errorMessage error.

(** What is outside [fetchUserProfile]: the answer of
    [users.getAuthenticated] (the rate limit headers and the login of the
    profile), the clock and the host. *)
Record ProfileEnv : Type := mkProfileEnv {
  getAuthenticated : Response (Headers * string);
  profileNow : Z;
  toLocaleTimeString : Date → string
}.

(** The profile, a new [Error] with a message, or the error of the
    request thrown again. *)
Inductive ProfileOutcome : Type :=
| Profile (login : string)
| RateLimitError (message : string)
| Rethrown (error : RequestError).

(** [fetchUserProfile(accessToken)] on the limiter [l]: the settings of
    the limiter after the call and what the call gives. *)
Definition fetchUserProfile (env : ProfileEnv) (l : Settings)
  : Settings * ProfileOutcome :=
  match getAuthenticated env with
  | Ok (headers, login) =>
      (updateRateLimits headers (profileNow env) l, Profile login)
  | Failed error =>
      if statusIs error 403 then
        let resetTimestamp := parseInt (orZeroString (resetHeader error)) in
        let resetDate := dateOfNumber ((fun t => t * 1000) <$> resetTimestamp) in
        let resetIn := (fun t => t * 1000 - profileNow env) <$> resetTimestamp in
        let minutes := minutesUntil resetIn in
        (l, RateLimitError
              ("Rate limit exceeded. You can try again "
                 ++ (if gtZero resetIn then
                       "in " ++ pretty minutes ++ " minute"
                         ++ (if minutes =? 1 then "" else "s")
                         ++ " (at " ++ toLocaleTimeString env resetDate ++ ")"
                     else "now")))
      else (l, Rethrown error)
  end.

End Profile.

(** ** [src/components/LunarStats.tsx]: the figures of the dashboard *)

Module Dashboard.
Import JS Lunar GitHub.

(** [entries.reduce((a, b) => (b[1] > a[1] ? b : a), ['', 0])] on the
    entries of a record, in the order of its keys. *)
Definition largestEntry (entries : list (string * Z)) : string * Z :=
  foldl (fun a b => if snd a <? snd b then b else a) ("", 0) entries.

(** [dominantPhaseName] *)
Definition dominantPhaseName (commitsByPhase : list (string * Z)) : string :=
  fst (largestEntry commitsByPhase).

(** The name of [dominantPhase]:
    [LUNAR_PHASES.find(phase => phase.name === dominantPhaseName)
     || LUNAR_PHASES[0]]. Of the records of [LUNAR_PHASES] only the names
    are kept. *)
Definition dominantPhase (commitsByPhase : list (string * Z)) : string :=
  default "New Moon"
    (List.find (String.eqb (dominantPhaseName commitsByPhase)) LUNAR_PHASE_NAMES).

(** [Object.entries(stats.timeOfDay)]: the keys in the order of the
    literal the pipeline builds. *)
Definition timeOfDayEntries (t : TimeOfDay) : list (string * Z) :=
  [("dawn", dawn t); ("day", day t); ("dusk", dusk t); ("night", night t)].

(** [maxTimeOfDay] *)
Definition maxTimeOfDay (t : TimeOfDay) : string * Z :=
  largestEntry (timeOfDayEntries t).

(** [record[name] || 0] on the entries of a record. *)
Definition countOf (entries : list (string * Z)) (name : string) : Z :=
  default 0 (snd <$> List.find (fun e => String.eqb (fst e) name) entries).

(** [Math.max(...values, 1)] *)
Definition maxOrOne (values : list Z) : Z := foldl Z.max 1 values.

(** The value of a bar while the analysis runs:
    [((commitsByPhase[name] || 0) / Math.max(...values, 1)) * 100]. *)
Definition loadingBar (commitsByPhase : list (string * Z)) (name : string) : Q :=
  (inject_Z (countOf commitsByPhase name)
   / inject_Z (maxOrOne (map snd commitsByPhase)) * 100)%Q.

End Dashboard.

(** ** What the further properties speak of *)

Module Views.
Import JS Lunar GitHub Pipeline.

(** [dawn + day + dusk + night] *)
Definition timeOfDayTotal (t : TimeOfDay) : Z := dawn t + day t + dusk t + night t.

(** The sum of the counts a reader of [LUNAR_PHASES] sees: one
    [commitsByPhase[phase.name] || 0] per name. *)
Definition sumOver (names : list string) (m : gmap string Z) : Z :=
  foldr (fun k acc => orZero m k + acc) 0 names.


(** The progress objects sent, in order. *)
Definition progresses (l : list Event) : list Progress :=
  omap (fun e => match e with Enqueued _ d => data_progress d | _ => None end) l.

(** The sizes a sequence of detailed commits adds: the truthy
    [stats.total] of each. *)
Definition sizesOf (l : list (GitHubCommitResponse * DetailedCommitResponse)) : list Z :=
  omap (fun cd => truthyTotal (snd cd)) l.

(** The additions a sequence of detailed commits adds: [additions || 0]
    of each commit with a truthy [stats.total]. *)
Definition additionsOf (l : list (GitHubCommitResponse * DetailedCommitResponse)) : list Z :=
  omap (fun cd => match truthyTotal (snd cd), stats (snd cd) with
                  | Some _, Some st => Some (default 0 (additions st))
                  | _, _ => None
                  end) l.

Definition sumList (l : list Z) : Z := foldr Z.add 0 l.

(** A snapshot whose four time of day counters sum to its commit
    total. *)
Definition snapshotTimed (e : Event) : Prop :=
  match snapshotOf e with
  | Some sn => timeOfDayTotal (snap_timeOfDay sn) = snap_totalCommits sn
  | None => True
  end.

(** What holds of the accumulator at every point of the loop over the
    repositories: the time of day counters sum to the commit total, the
    keys of [commitsByPhase] are names of [LUNAR_PHASES] with positive
    counts, and a phase with a size has a count. *)
Record accounted (r : Run) : Prop := mkAccounted {
  acc_time : timeOfDayTotal (timeOfDay (run_stats r)) = totalCommits r;
  acc_phases :
    ∀ k v, commitsByPhase (run_stats r) !! k = Some v →
           In k LUNAR_PHASE_NAMES ∧ 1 ≤ v;
  acc_sizes :
    ∀ k, is_Some (averageCommitSize (run_stats r) !! k) →
         is_Some (commitsByPhase (run_stats r) !! k);
  acc_snapshots : Forall snapshotTimed (events r)
}.


(** The verified addresses of the user, when they are listed. *)
Definition userEmailsOf (env : Env) : list string :=
  match listEmailsForAuthenticatedUser env with
  | Ok emails => map email (filter (fun e => verified e = true) emails)
  | Failed _ => []
  end.

(** The commits of a repository that are the user's, when its commits
    are listed. *)
Definition userCommitsWith (env : Env) (username : string) (userEmails : list string)
    (repo : GitHubRepo) : list GitHubCommitResponse :=
  match listCommits env repo with
  | Ok commits => filter (fun c => isUserCommit username userEmails c) commits
  | Failed _ => []
  end.


(** Whether a progress object lies within its scale of [n] steps. *)
Definition withinScale (n : Z) (p : Progress) : Prop :=
  1 ≤ current p ≤ total p ∧ total p = n ∧ 0 ≤ percentage p ≤ 100.

Definition paced (n : Z) (r : Run) : Prop :=
  Forall (withinScale n) (progresses (events r)).

(** Two accumulators with the same counts by phase and time of day. *)
Definition sameCounts (s s' : CommitStats) : Prop :=
  commitsByPhase s = commitsByPhase s' ∧ timeOfDay s = timeOfDay s'.

(** A view of the events that sees neither a message without a
    progress object nor the two listings at the start of a run. *)
Definition silent {A : Type} (f : Event → option A) : Prop :=
  (∀ site msg, f (Enqueued site (progressData msg None)) = None)
  ∧ f (Requested ListEmails) = None
  ∧ f (Requested ListRepos) = None.

(** The non-fork repositories of the listing, when both listings at the
    start of a run are answered. *)
Definition reposToAnalyze (env : Env) : list GitHubRepo :=
  match listEmailsForAuthenticatedUser env, listForAuthenticatedUser env with
  | Ok _, Ok repos => filter (fun repo => fork repo = false) repos
  | _, _ => []
  end.

(** The error a run throws, if any: that of the first of the two
    listings at its start that fails. *)
Definition startFailure (env : Env) : option RequestError :=
  match listEmailsForAuthenticatedUser env with
  | Failed error => Some error
  | Ok _ =>
      match listForAuthenticatedUser env with
      | Failed error => Some error
      | Ok _ => None
      end
  end.


(** The phase a commit is counted under. *)
Definition phaseOf (h : Host) (c : GitHubCommitResponse) : string :=
  getLunarPhase (commitDate h c).

End Views.

(** ** [src/lib/github.ts]: [fetchUserCommits] on a progress stream that
     can refuse a message *)

(** [sendProgress] calls [controller.enqueue] unguarded. The object in
    [global.progressController] is set by other requests while a run is
    under way: it can be absent, a controller that accepts the message,
    or an object whose [enqueue] throws (the controller of a stream
    that was cancelled, or the writer the details route stores, which
    has no [enqueue]). Here each call of [sendProgress] finds the object
    of its moment, and an exception takes the path the source gives it:
    out of the function when thrown by the first message, to the [catch]
    of the repository when thrown inside the loop, to the outer [catch]
    otherwise. *)
Module Stream.
Import JS Lunar GitHub Pipeline.

Inductive Controller : Type :=
| NoController
| Accepting
| Rejecting (message : string).

(** The exception of [controller.enqueue]: a [TypeError], without
    [status] and without [response]. *)
Definition streamError (message : string) : RequestError :=
  {| status := None; resetHeader := None; errorMessage := message |}.

(** The remote API, the clock and the host as before, and the object
    that the [n]-th call of [sendProgress] of the run finds, counting
    from 0. The field [progressController] of [api] is not read. *)
Record StreamEnv : Type := mkStreamEnv {
  api : Env;
  controllerAt : nat → Controller
}.

(** The local variables and the events, and the number of calls of
    [sendProgress] so far. *)
Record Walk : Type := mkWalk {
  walk_run : Run;
  sent : nat
}.

(** A step that completes, or throws from the state it had reached. *)
Inductive Step : Type :=
| Went (w : Walk)
| Threw (w : Walk) (error : RequestError).

Definition andThen (s : Step) (k : Walk → Step) : Step :=
  match s with
  | Went w => k w
  | Threw w error => Threw w error
  end.

Notation "s >>> k" := (andThen s k) (at level 50, left associativity).

(** A change of the variables or of the events that sends nothing. *)
Definition onRun (f : Run → Run) (w : Walk) : Walk :=
  {| walk_run := f (walk_run w); sent := sent w |}.

Definition request (r : Request) (w : Walk) : Step :=
  Went (onRun (emit (Requested r)) w).

(** [sendProgress(message, progress)] *)
Definition sendProgress (env : StreamEnv) (site : Site) (message : string)
    (progress : option (Z * Z * option StatsSnapshot)) (w : Walk) : Step :=
  let next := fun run => {| walk_run := run; sent := S (sent w) |} in
  match controllerAt env (sent w) with
  | NoController => Went (next (walk_run w))
  | Accepting =>
      Went (next (emit (Enqueued site (progressData message progress)) (walk_run w)))
  | Rejecting m => Threw (next (walk_run w)) (streamError m)
  end.

(** One iteration of the first loop over [userCommits]: the commit is
    counted before the message of every fifth commit is sent. *)
Definition processBasic (env : StreamEnv) (nRepos : Z) (w : Walk)
    (commit : GitHubCommitResponse) : Step :=
  let r := walk_run w in
  let r1 :=
    {| run_stats := countCommit (host (api env)) commit (run_stats r);
       processedRepos := processedRepos r;
       totalCommits := totalCommits r + 1;
       events := events r |} in
  let w1 := {| walk_run := r1; sent := sent w |} in
  if Z.rem (totalCommits r1) 5 =? 0 then
    sendProgress env AtFifthCommit "Analyzing repositories"
      (repositoryProgress nRepos r1) w1
  else Went w1.

(** The first loop: it ends at the first iteration that throws. *)
Fixpoint countCommits (env : StreamEnv) (nRepos : Z) (w : Walk)
    (commits : list GitHubCommitResponse) : Step :=
  match commits with
  | [] => Went w
  | commit :: rest =>
      processBasic env nRepos w commit >>> fun w' => countCommits env nRepos w' rest
  end.

(** The [try] block of one repository. *)
Definition tryRepository (env : StreamEnv) (username : string)
    (userEmails : list string) (nRepos : Z) (w : Walk) (repo : GitHubRepo) : Step :=
  let r := walk_run w in
  let r1 :=
    {| run_stats := run_stats r;
       processedRepos := processedRepos r + 1;
       totalCommits := totalCommits r;
       events := events r |} in
  sendProgress env AtRepository "Analyzing repositories"
    (repositoryProgress nRepos r1) {| walk_run := r1; sent := sent w |}
  >>> request (ListCommits repo)
  >>> fun w3 =>
    match listCommits (api env) repo with
    | Failed error => Threw w3 error
    | Ok commits =>
        let userCommits := filter (fun c => isUserCommit username userEmails c) commits in
        countCommits env nRepos w3 userCommits
        >>> fun w4 =>
          Went (onRun (fun r4 => foldl (Pipeline.processBatch (api env) repo) r4
                                   (batches userCommits)) w4)
    end.

(** One iteration of the loop over [nonForkRepos]: whatever the [try]
    block throws is handled by the [catch] block, which ends the
    iteration. *)
Definition processRepository (env : StreamEnv) (username : string)
    (userEmails : list string) (nRepos : Z) (w : Walk) (repo : GitHubRepo) : Walk :=
  match tryRepository env username userEmails nRepos w repo with
  | Went w' => w'
  | Threw w' error => onRun (onRepositoryError (api env) repo error) w'
  end.

(** The [try] block of the function, after its first message. *)
Definition tryRun (env : StreamEnv) (username : string) (w : Walk) : Step :=
  sendProgress env AtStatus "Fetching user emails..." None w
  >>> request ListEmails
  >>> fun w2 =>
    match listEmailsForAuthenticatedUser (api env) with
    | Failed error => Threw w2 error
    | Ok emails =>
        let userEmails := map email (filter (fun e => verified e = true) emails) in
        sendProgress env AtStatus
          ("Found " ++ lengthText userEmails ++ " verified email(s)") None w2
        >>> sendProgress env AtStatus "Fetching repositories..." None
        >>> request ListRepos
        >>> fun w5 =>
          match listForAuthenticatedUser (api env) with
          | Failed error => Threw w5 error
          | Ok repos =>
              let nonForkRepos := filter (fun repo => fork repo = false) repos in
              sendProgress env AtStatus
                ("Found " ++ lengthText nonForkRepos ++ " repositories to analyze")
                None w5
              >>> fun w6 =>
                let w7 := foldl (processRepository env username userEmails
                                   (Z.of_nat (length nonForkRepos))) w6 nonForkRepos in
                let w8 := onRun (fun r => withStats (finalize (run_stats r)) r) w7 in
                sendProgress env AtComplete "Analysis complete!" None w8
          end
    end.

Definition start : Walk := {| walk_run := initialRun; sent := 0 |}.

(** [fetchUserCommits(accessToken, username)]: the first message is
    sent before the [try]; the outer [catch] sends the message of the
    error and throws the error again, unless that message is refused
    too. *)
Definition fetchUserCommits (env : StreamEnv) (username : string) : Walk * Outcome :=
  match sendProgress env AtStatus
          ("Starting commit analysis for " ++ username ++ "...") None start with
  | Threw w error => (w, Thrown error)
  | Went w0 =>
      match tryRun env username w0 with
      | Went w => (w, Returned (run_stats (walk_run w)))
      | Threw w error =>
          match sendProgress env AtError ("Error: " ++ errorMessage error) None w with
          | Went w' => (w', Thrown error)
          | Threw w' error' => (w', Thrown error')
          end
      end
  end.

(** The state a step ends in, completed or not. *)
Definition reached (s : Step) : Walk :=
  match s with
  | Went w => w
  | Threw w _ => w
  end.

(** A view of the events that sees no message. *)
Definition deaf {A : Type} (f : Event → option A) : Prop :=
  ∀ site data, f (Enqueued site data) = None.

(** A walk that has counted nothing and has asked for the commits of
    no repository. *)
Definition fresh (w : Walk) : Prop :=
  run_stats (walk_run w) = emptyStats
  ∧ totalCommits (walk_run w) = 0
  ∧ processedRepos (walk_run w) = 0
  ∧ listedRepos (events (walk_run w)) = []
  ∧ commitRequests (events (walk_run w)) = [].

(** What the properties below read of a run: its counts, its commit
    total, and the listings and details it asked for. *)
Definition outline (r : Run)
  : gmap string Z * TimeOfDay * Z * list GitHubRepo * list string :=
  (commitsByPhase (run_stats r), timeOfDay (run_stats r), totalCommits r,
   listedRepos (events r), commitRequests (events r)).

(** A stream on which no [enqueue] throws. *)
Definition calm (env : StreamEnv) : Prop :=
  ∀ n message, controllerAt env n ≠ Rejecting message.

(** The environment of a run on which the object found is the same at
    every call: none, or a controller that accepts. *)
Definition steady (e : Env) : StreamEnv :=
  {| api := e;
     controllerAt := fun _ => if progressController e then Accepting else NoController |}.

(** What the function does itself, in order: its calls of the client
    and its waits. *)
Definition actions (l : list Event) : list Event :=
  omap (fun e => match e with Enqueued _ _ => None | _ => Some e end) l.

End Stream.

(** ** What the properties of the two-pass analysis speak of *)

Module DetailViews.
Import JS Lunar GitHub Pipeline Detailed.

(** The sum of the counts by hour. *)
Definition sumHours (m : gmap (option Z) Z) : Z :=
  map_fold (fun _ v acc => v + acc) 0 m.

(** The [totalCommits] of the calls made from the loop of
    [fetchBasicCommitStats]. *)
Definition basicTotals (l : list ProgressCall) : list Z :=
  omap (fun c => match c with
                 | BasicProgress t _ _ _ => Some t
                 | DetailProgress _ _ _ _ => None
                 end) l.

(** The multiples of ten up to [n]: 10, 20, ..., in increasing order. *)
Definition multiplesOfTen (n : Z) : list Z :=
  map (fun k => 10 * Z.of_nat k) (seq 1 (Z.to_nat (n / 10))).

(** The commits listed for a repository, each with its repository. *)
Definition commitsOf (env : DetailEnv) (repo : GitHubRepo)
  : list (GitHubRepo * GitHubCommitResponse) :=
  match listAllCommits env repo with
  | Ok commits => map (pair repo) commits
  | Failed _ => []
  end.

Definition commitsOfAll (env : DetailEnv) (repos : list GitHubRepo)
  : list (GitHubRepo * GitHubCommitResponse) :=
  concat (map (commitsOf env) repos).

(** The commits of the non-fork repositories, in the order a pass over
    them meets them. *)
Definition listedCommits (env : DetailEnv) : list (GitHubRepo * GitHubCommitResponse) :=
  match fetchUserRepos env with
  | Ok repos => commitsOfAll env repos
  | Failed _ => []
  end.

(** [(additions || 0) + (deletions || 0)] of a commit whose detail
    request is answered. *)
Definition sizeOf (env : DetailEnv) (rc : GitHubRepo * GitHubCommitResponse) : option Z :=
  match getCommitDetails env (fst rc) (sha (snd rc)) with
  | Ok details =>
      Some (default 0 (stats details ≫= additions)
            + default 0 (stats details ≫= deletions))
  | Failed _ => None
  end.

Definition detailSizes (env : DetailEnv) (l : list (GitHubRepo * GitHubCommitResponse))
  : list Z :=
  omap (sizeOf env) l.

(** What holds of the variables of [fetchBasicCommitStats] at every
    point of its loops. *)
Record tallied (env : DetailEnv) (b : BasicRun) : Prop := mkTallied {
  tal_total : 0 ≤ b_totalCommits b;
  tal_phases : sumValues (b_commitsByPhase b) = b_totalCommits b;
  tal_hours : sumHours (b_commitsByHour b) = b_totalCommits b;
  tal_calls :
    basicTotals (b_calls b)
    = if onProgress env then multiplesOfTen (b_totalCommits b) else []
}.

End DetailViews.

(** * Properties *)

(** ** The phase classifier *)

Module LunarFacts.
Import JS Lunar.
Local Open Scope Q_scope.

Lemma Qfloor_unique (z : Z) (q : Q) :
  inject_Z z <= q → q < inject_Z (z + 1) → Qfloor q = z.
Proof.
  intros Hlo Hhi.
  apply Z.le_antisymm.
  - apply Z.lt_succ_r. rewrite Zlt_Qlt.
    eapply Qle_lt_trans; [apply Qfloor_le | exact Hhi].
  - rewrite <- (Qfloor_Z z) at 1. now apply Qfloor_resp_le.
Qed.

#[export] Instance trunc_comp : Proper (Qeq ==> eq) trunc.
Proof.
  intros x y E. unfold trunc.
  rewrite (Qleb_comp 0 0 (Qeq_refl 0) x y E), (Qfloor_comp x y E).
  rewrite (Qfloor_comp (- x) (- y)); [reflexivity | now rewrite E].
Qed.

#[export] Instance inject_Z_comp : Proper (eq ==> Qeq) inject_Z.
Proof. intros x y ->. reflexivity. Qed.

#[export] Instance Qltb_comp : Proper (Qeq ==> Qeq ==> eq) Qltb.
Proof.
  intros x y E x' y' E'. unfold Qltb.
  now rewrite (Qleb_comp x' y' E' x y E).
Qed.

#[export] Instance phaseName_comp : Proper (Qeq ==> eq) phaseName.
Proof.
  intros x y E. unfold phaseName.
  rewrite (Qleb_comp _ _ (Qeq_refl 0.9375) x y E).
  now rewrite !(fun c => Qltb_comp x y E c c (Qeq_refl c)).
Qed.

Lemma Qltb_lt (x y : Q) : Qltb x y = true ↔ (x < y)%Q.
Proof.
  unfold Qltb. rewrite negb_true_iff, <- not_true_iff_false, Qle_bool_iff.
  split; [apply Qnot_le_lt | apply Qlt_not_le].
Qed.

(** The fractional part left by a truncation has the sign of the number. *)
Lemma trunc_nonneg (q : Q) :
  (0 <= q)%Q → (0 <= q - inject_Z (trunc q))%Q ∧ (q - inject_Z (trunc q) < 1)%Q.
Proof.
  intros H. unfold trunc.
  apply Qle_bool_iff in H. rewrite H.
  pose proof (Qfloor_le q) as Hlo. pose proof (Qlt_floor q) as Hhi.
  rewrite inject_Z_plus in Hhi. change (inject_Z 1) with 1%Q in Hhi. split; lra.
Qed.

Lemma trunc_neg (q : Q) :
  (q < 0)%Q → (-1 < q - inject_Z (trunc q))%Q ∧ (q - inject_Z (trunc q) <= 0)%Q.
Proof.
  intros H. unfold trunc.
  assert (Qle_bool 0 q = false) as ->.
  { apply not_true_iff_false. rewrite Qle_bool_iff. lra. }
  pose proof (Qfloor_le (- q)) as Hlo. pose proof (Qlt_floor (- q)) as Hhi.
  rewrite inject_Z_plus in Hhi. change (inject_Z 1) with 1%Q in Hhi.
  rewrite inject_Z_opp. split; lra.
Qed.

Lemma rem_div (x y : Q) :
  ¬ y == 0 → rem x y / y == x / y - inject_Z (trunc (x / y)).
Proof. intros Hy. unfold rem. field. exact Hy. Qed.

Lemma lunarCycle_pos : 0 < lunarCycle.
Proof. reflexivity. Qed.

Lemma lunarCycle_nonzero : ¬ lunarCycle == 0.
Proof. discriminate. Qed.

Lemma phase_cycles (time : Q) :
  phase time == cycles time - inject_Z (trunc (cycles time)).
Proof. apply rem_div, lunarCycle_nonzero. Qed.

Lemma cycles_nonneg (time : Q) : inject_Z knownNewMoon <= time → 0 <= cycles time.
Proof.
  intros H. unfold cycles, daysSinceNewMoon.
  apply Qle_shift_div_l; [apply lunarCycle_pos |].
  apply Qle_shift_div_l; [reflexivity |]. lra.
Qed.

Lemma cycles_neg (time : Q) : time < inject_Z knownNewMoon → cycles time < 0.
Proof.
  intros H. unfold cycles, daysSinceNewMoon.
  apply Qlt_shift_div_r; [apply lunarCycle_pos |].
  apply Qlt_shift_div_r; [reflexivity |]. lra.
Qed.

(** Before it, the remainder takes the sign of the negative dividend. *)
Lemma phase_range_before_epoch (time : Q) :
  time < inject_Z knownNewMoon → -1 < phase time ∧ phase time <= 0.
Proof.
  intros H. rewrite phase_cycles. now apply trunc_neg, cycles_neg.
Qed.

Lemma phaseName_nonpositive (p : Q) : p <= 0 → phaseName p = "New Moon".
Proof.
  intros H. unfold phaseName.
  assert (Qltb p 0.0625 = true) as ->; [| reflexivity].
  apply Qltb_lt. eapply Qle_lt_trans; [exact H | reflexivity].
Qed.

(** Every date before the reference new moon is named a new moon. *)
Lemma getLunarPhase_before_epoch (t : Z) :
  (t < knownNewMoon)%Z → getLunarPhase (ValidDate t) = "New Moon".
Proof.
  intros H. simpl. unfold lunarPhaseAt.
  apply phaseName_nonpositive, phase_range_before_epoch.
  now rewrite <- Zlt_Qlt.
Qed.

Lemma phaseName_label (p : Q) : In (phaseName p) LUNAR_PHASE_NAMES.
Proof.
  unfold phaseName, LUNAR_PHASE_NAMES.
  repeat match goal with
         | |- context [if ?b then _ else _] => destruct b
         end; simpl; tauto.
Qed.

(** The classifier returns one of the eight names, on an invalid date
    too. *)
Lemma getLunarPhase_label (date : Date) : In (getLunarPhase date) LUNAR_PHASE_NAMES.
Proof.
  destruct date as [t|]; simpl.
  - apply phaseName_label.
  - tauto.
Qed.

(** C4. The claim: the phase fraction is non-negative, in [0,1), also
    for timestamps before the reference new moon. The code at
    1999-12-25T00:00:00Z: [%] keeps the sign of the dividend, the
    fraction is -7/29.53058867, below zero, and the date is named a new
    moon. *)
Theorem C4_phase_negative_before_epoch :
  phase (inject_Z christmas1999) == -7 / lunarCycle
  ∧ phase (inject_Z christmas1999) < 0
  ∧ getLunarPhase (ValidDate christmas1999) = "New Moon".
Proof. repeat split. Qed.

(** C5. The claim: the classifier returns one of the eight labels and
    has the synodic month as a period. The code at
    1999-12-25T00:00:00Z and one synodic month later, exactly and cut to
    the millisecond: the names differ. *)
Theorem C5_period_broken_across_epoch :
  getLunarPhase (ValidDate christmas1999) = "New Moon"
  ∧ lunarPhaseAt (inject_Z christmas1999 + cycleMs) = "Last Quarter"
  ∧ getLunarPhase (ValidDate (christmas1999 + 2551442861)) = "Last Quarter".
Proof. repeat split. Qed.

End LunarFacts.

(** ** The rate limiter settings *)

Module LimiterFacts.
Import JS Limiter Scenarios.

Lemma floor_quotient (a b : Z) : Math_floor (inject_Z a / inject_Z b) = a / b.
Proof. unfold Math_floor. symmetry. apply Zdiv_Qdiv. Qed.

(** With calls remaining, the interval is the time to the reset spread
    over them, and never below 1000 ms. *)
Lemma updateRateLimits_spread (h : Headers) (dateNow : Z) (l : Settings)
    (remaining resetInMs : Z) :
  remainingOf h = Some remaining →
  resetInMsOf h dateNow = Some resetInMs →
  0 < remaining →
  updateRateLimits h dateNow l =
    {| maxConcurrent := maxConcurrent l;
       minTime := Some (Z.max 1000 (resetInMs / remaining));
       reservoir := remaining;
       reservoirRefreshAmount := reservoirRefreshAmount l;
       reservoirRefreshInterval := reservoirRefreshInterval l |}.
Proof.
  intros Hrem Hreset Hpos. unfold updateRateLimits.
  rewrite Hrem, Hreset. unfold gtZero, spreadInterval, default.
  assert ((0 <? remaining) = true) as -> by lia.
  now rewrite floor_quotient.
Qed.

(** With none remaining and the reset ahead, the reservoir is emptied
    until the reset. *)
Lemma updateRateLimits_pause (h : Headers) (dateNow : Z) (l : Settings)
    (remaining resetInMs : Z) :
  remainingOf h = Some remaining →
  resetInMsOf h dateNow = Some resetInMs →
  remaining ≤ 0 →
  0 < resetInMs →
  updateRateLimits h dateNow l =
    {| maxConcurrent := maxConcurrent l;
       minTime := minTime l;
       reservoir := 0;
       reservoirRefreshAmount := 5000;
       reservoirRefreshInterval := resetInMs |}.
Proof.
  intros Hrem Hreset Hle Hpos. unfold updateRateLimits.
  rewrite Hrem, Hreset. unfold gtZero, default.
  assert ((0 <? remaining) = false) as -> by lia.
  now assert ((0 <? resetInMs) = true) as -> by lia.
Qed.

Lemma minTime_at_least_1000 (h : Headers) (dateNow : Z) (l : Settings) (m : Z) :
  gtZero (remainingOf h) = true →
  minTime (updateRateLimits h dateNow l) = Some m → 1000 ≤ m.
Proof.
  intros Hpos. unfold updateRateLimits. rewrite Hpos. simpl.
  unfold spreadInterval. destruct (resetInMsOf h dateNow); [| discriminate].
  intros [= <-]. lia.
Qed.

(** C2, as stated: with [remaining = 10] and [resetInMs = 5000] the next
    interval is 500 ms. The code computes 1000 ms. *)
Lemma C2_interval_is_not_500 :
  remainingOf tenRemaining = Some 10
  ∧ resetInMsOf tenRemaining 1000999 = Some 5000
  ∧ minTime (updateRateLimits tenRemaining 1000999 limiter) = Some 1000
  ∧ minTime (updateRateLimits tenRemaining 1000999 limiter) ≠ Some 500.
Proof. repeat split. discriminate. Qed.

(** C2, amended: a response reporting [remaining = 10] and
    [resetInMs = 5000] sets the minimum interval to 1000 ms, the larger
    of the floor 1000 and 5000/10, and the reservoir to 10; a response
    reporting [remaining = 0] and [resetInMs = 3000] sets the reservoir
    to 0, its refresh amount to 5000 and its refresh interval to
    3000 ms, and leaves the minimum interval as it was, so that by the
    scheduling rule of the spec every call is deferred until 3000 ms
    have passed, and none after. *)
Theorem C2_retuning (h : Headers) (dateNow : Z) (l : Settings) :
  (remainingOf h = Some 10 → resetInMsOf h dateNow = Some 5000 →
     minTime (updateRateLimits h dateNow l) = Some 1000
     ∧ reservoir (updateRateLimits h dateNow l) = 10)
  ∧ (remainingOf h = Some 0 → resetInMsOf h dateNow = Some 3000 →
     reservoir (updateRateLimits h dateNow l) = 0
     ∧ reservoirRefreshAmount (updateRateLimits h dateNow l) = 5000
     ∧ reservoirRefreshInterval (updateRateLimits h dateNow l) = 3000
     ∧ minTime (updateRateLimits h dateNow l) = minTime l
     ∧ (∀ elapsed, elapsed < 3000 →
          Dispatch.deferred (updateRateLimits h dateNow l) elapsed = true)
     ∧ (∀ elapsed, 3000 ≤ elapsed →
          Dispatch.deferred (updateRateLimits h dateNow l) elapsed = false)).
Proof.
  split; intros Hrem Hreset.
  - rewrite (updateRateLimits_spread h dateNow l 10 5000) by (auto; lia).
    now split.
  - rewrite (updateRateLimits_pause h dateNow l 0 3000) by (auto; lia).
    unfold Dispatch.deferred, Dispatch.budgetAfter.
    cbn [reservoir reservoirRefreshAmount reservoirRefreshInterval minTime].
    repeat split.
    + intros elapsed He. now assert ((elapsed <? 3000) = true) as -> by lia.
    + intros elapsed He. now assert ((elapsed <? 3000) = false) as -> by lia.
Qed.

(** The two responses of the scenarios, read at the clock 1000999 ms. *)
Lemma C2_retuning_witness :
  (minTime (updateRateLimits tenRemaining 1000999 limiter) = Some 1000
   ∧ reservoir (updateRateLimits tenRemaining 1000999 limiter) = 10)
  ∧ (reservoir (updateRateLimits noneRemaining 1000999 limiter) = 0
     ∧ reservoirRefreshAmount (updateRateLimits noneRemaining 1000999 limiter) = 5000
     ∧ reservoirRefreshInterval (updateRateLimits noneRemaining 1000999 limiter) = 3000
     ∧ minTime (updateRateLimits noneRemaining 1000999 limiter) = minTime limiter
     ∧ (∀ elapsed, elapsed < 3000 →
          Dispatch.deferred (updateRateLimits noneRemaining 1000999 limiter) elapsed = true)
     ∧ (∀ elapsed, 3000 ≤ elapsed →
          Dispatch.deferred (updateRateLimits noneRemaining 1000999 limiter) elapsed
          = false)).
Proof.
  split.
  - apply (proj1 (C2_retuning tenRemaining 1000999 limiter)); reflexivity.
  - apply (proj2 (C2_retuning noneRemaining 1000999 limiter)); reflexivity.
Defined.

End LimiterFacts.

(** ** The filter, the fold and the averages *)

Module GitHubFacts.
Import JS Lunar GitHub Scenarios.

(** C1, as stated: a commit on the denylist is kept when its email is a
    verified email of the user. The code drops it. *)
Lemma C1_verified_email_on_denylist_dropped :
  isSystemAuthor webFlowCommit = true
  ∧ isOwnedByUser "octocat" ["octocat@example.com"] webFlowCommit = true
  ∧ isUserCommit "octocat" ["octocat@example.com"] webFlowCommit = false.
Proof. repeat split. Qed.

Lemma system_author_detected (x : string) :
  In x GITHUB_SYSTEM_AUTHORS →
  truthy (Some x) && includes GITHUB_SYSTEM_AUTHORS x = true.
Proof.
  unfold GITHUB_SYSTEM_AUTHORS. simpl.
  intros [<- | [<- | [<- | [<- | [<- | []]]]]]; reflexivity.
Qed.

(** C1, amended: a commit whose author email or login is on the
    denylist is dropped, also when the email is a verified email of the
    user or the login is the target username; any other commit is kept
    exactly when the login is the target username or the email is a
    verified email. The denylist comes first. *)
Theorem C1_denylist_takes_precedence (username : string)
    (userEmails : list string) (commit : GitHubCommitResponse) :
  ((∃ e, authorEmail commit = Some e ∧ In e GITHUB_SYSTEM_AUTHORS)
   ∨ (∃ l, authorLogin commit = Some l ∧ In l GITHUB_SYSTEM_AUTHORS) →
   isUserCommit username userEmails commit = false)
  ∧ (isSystemAuthor commit = false →
     isUserCommit username userEmails commit
     = isOwnedByUser username userEmails commit).
Proof.
  split.
  - unfold isUserCommit. intros [(e & He & Hin) | (l & Hl & Hin)].
    + rewrite He. change (default "" (Some e)) with e.
      now rewrite (system_author_detected e Hin).
    + rewrite Hl. change (default "" (Some l)) with l.
      rewrite (system_author_detected l Hin).
      now destruct (truthy (authorEmail commit) && _).
  - unfold isUserCommit, isSystemAuthor, isOwnedByUser.
    intros Hno. apply orb_false_iff in Hno as [-> ->]. reflexivity.
Qed.

(** A commit of [web-flow] under a verified address of the user is
    dropped. *)
Lemma C1_denylist_takes_precedence_witness :
  isUserCommit "octocat" ["octocat@example.com"] webFlowCommit = false.
Proof.
  apply (proj1 (C1_denylist_takes_precedence "octocat" ["octocat@example.com"]
                  webFlowCommit)).
  right. exists "web-flow". split; [reflexivity | simpl; tauto].
Defined.

End GitHubFacts.

Module AggregatorFacts.
Import JS Lunar GitHub Scenarios.

Lemma sumValues_empty : sumValues ∅ = 0.
Proof. unfold sumValues. apply map_fold_empty. Qed.

Lemma sumValues_insert_fresh (m : gmap string Z) (k : string) (v : Z) :
  m !! k = None → sumValues (<[k:=v]> m) = v + sumValues m.
Proof.
  intros Hk. unfold sumValues.
  apply (map_fold_insert_L (fun _ v acc => v + acc)); [| exact Hk].
  intros. lia.
Qed.

(** Overwriting a count changes the sum by the difference. *)
Lemma sumValues_insert (m : gmap string Z) (k : string) (v : Z) :
  sumValues (<[k:=v]> m) = sumValues m - orZero m k + v.
Proof.
  unfold orZero. destruct (m !! k) as [x|] eqn:Hk; simpl.
  - rewrite <- insert_delete_eq.
    rewrite sumValues_insert_fresh by apply lookup_delete_eq.
    rewrite <- (insert_delete_id m k x Hk) at 2.
    rewrite sumValues_insert_fresh by apply lookup_delete_eq. lia.
  - rewrite sumValues_insert_fresh by exact Hk. lia.
Qed.

(** One fold adds one to the sum of the counts. *)
Lemma countCommit_sum (h : Host) (commit : GitHubCommitResponse) (s : CommitStats) :
  sumValues (commitsByPhase (countCommit h commit s))
  = sumValues (commitsByPhase s) + 1.
Proof. unfold countCommit. simpl. rewrite sumValues_insert. lia. Qed.

Lemma countCommit_fold_sum (h : Host) (commits : list GitHubCommitResponse)
    (s : CommitStats) :
  sumValues (commitsByPhase (foldl (fun s c => countCommit h c s) s commits))
  = sumValues (commitsByPhase s) + Z.of_nat (length commits).
Proof.
  revert s. induction commits as [|c commits IH]; intros s; simpl.
  - lia.
  - rewrite IH, countCommit_sum. lia.
Qed.

(** *** The largest commit *)

Lemma truthyTotal_diffTotal (d : DetailedCommitResponse) :
  truthyTotal d = match diffTotal d with
                  | Some t => if t =? 0 then None else Some t
                  | None => None
                  end.
Proof. unfold truthyTotal, diffTotal. now destruct (stats d). Qed.

Lemma truthyTotal_stats (d : DetailedCommitResponse) (size : Z) :
  truthyTotal d = Some size → ∃ st, stats d = Some st.
Proof. unfold truthyTotal. destruct (stats d); [eauto | discriminate]. Qed.

(** What a fold does to [largestCommit]: replaced by the commit if its
    size is strictly greater, kept otherwise. *)
Lemma addDetails_largest (h : Host) (commit : GitHubCommitResponse)
    (d : DetailedCommitResponse) (s : CommitStats) :
  largestCommit (addDetails h commit d s)
  = match truthyTotal d with
    | Some size =>
        if lc_size (largestCommit s) <? size then
          {| lc_phase := getLunarPhase (commitDate h commit);
             lc_size := size;
             lc_message := message commit;
             lc_date := if truthy (authorDate commit)
                        then default "" (authorDate commit) else "" |}
        else largestCommit s
    | None => largestCommit s
    end.
Proof.
  unfold addDetails.
  destruct (truthyTotal d) as [size|] eqn:Ht; [| reflexivity].
  destruct (truthyTotal_stats d size Ht) as [st ->]. reflexivity.
Qed.

(** After a commit with a size is folded, the largest size is at least
    that size. *)
Lemma addDetails_largest_ge (h : Host) (commit : GitHubCommitResponse)
    (d : DetailedCommitResponse) (s : CommitStats) (size : Z) :
  truthyTotal d = Some size → size ≤ lc_size (largestCommit (addDetails h commit d s)).
Proof.
  intros Ht. rewrite addDetails_largest, Ht.
  destruct (lc_size (largestCommit s) <? size) eqn:E; simpl; lia.
Qed.

(** C8. Two commits with equal [stats.total] folded in sequence: the
    second leaves [largestCommit] as the first left it, so when the first
    was strictly larger than what came before, it is the first that is
    kept; and a fold replaces [largestCommit] only by a commit strictly
    larger than the one it holds. *)
Theorem C8_ties_keep_the_earlier_commit (h : Host)
    (c1 c2 : GitHubCommitResponse) (d1 d2 : DetailedCommitResponse)
    (s : CommitStats) :
  diffTotal d1 = diffTotal d2 →
  largestCommit (addDetails h c2 d2 (addDetails h c1 d1 s))
  = largestCommit (addDetails h c1 d1 s)
  ∧ (∀ size, diffTotal d1 = Some size → lc_size (largestCommit s) < size → size ≠ 0 →
       lc_message (largestCommit (addDetails h c2 d2 (addDetails h c1 d1 s)))
       = message c1)
  ∧ (largestCommit (addDetails h c1 d1 s) ≠ largestCommit s →
     ∃ size, diffTotal d1 = Some size ∧ lc_size (largestCommit s) < size).
Proof.
  intros Heq.
  assert (largestCommit (addDetails h c2 d2 (addDetails h c1 d1 s))
          = largestCommit (addDetails h c1 d1 s)) as Hkeep.
  { rewrite (addDetails_largest h c2 d2).
    assert (truthyTotal d2 = truthyTotal d1) as ->
      by (rewrite !truthyTotal_diffTotal; now rewrite Heq).
    destruct (truthyTotal d1) as [size|] eqn:Ht; [| reflexivity].
    pose proof (addDetails_largest_ge h c1 d1 s size Ht) as Hge.
    now assert ((lc_size (largestCommit (addDetails h c1 d1 s)) <? size) = false)
      as -> by lia. }
  split; [exact Hkeep | split].
  - intros size Hsize Hlarger Hnz. rewrite Hkeep.
    rewrite addDetails_largest, truthyTotal_diffTotal, Hsize.
    assert ((size =? 0) = false) as -> by lia.
    now assert ((lc_size (largestCommit s) <? size) = true) as -> by lia.
  - rewrite addDetails_largest, truthyTotal_diffTotal.
    destruct (diffTotal d1) as [t|]; [| congruence].
    destruct (t =? 0); [congruence |].
    destruct (lc_size (largestCommit s) <? t) eqn:E; [| congruence].
    intros _. exists t. split; [reflexivity | lia].
Qed.

(** Two commits of 42 changed lines each: the message kept is that of
    the first. *)
Lemma C8_ties_keep_the_earlier_commit_witness :
  let c1 := userCommit "first" in
  let c2 := userCommit "second" in
  lc_message (largestCommit
                (addDetails utcHost c2 someDetails
                   (addDetails utcHost c1 someDetails emptyStats)))
  = "commit first".
Proof.
  intros c1 c2.
  apply (proj1 (proj2 (C8_ties_keep_the_earlier_commit utcHost c1 c2
                         someDetails someDetails emptyStats eq_refl)) 42).
  - reflexivity.
  - reflexivity.
  - discriminate.
Defined.

(** *** The averages *)

Lemma finalize_lookup (s : CommitStats) (phase : string) :
  averageCommitSize (finalize s) !! phase
  = (fun v => Math_round (inject_Z v / inject_Z (orOne (commitsByPhase s) phase)))
      <$> averageCommitSize s !! phase.
Proof.
  unfold finalize. simpl. rewrite map_lookup_imap.
  now destruct (averageCommitSize s !! phase).
Qed.

Lemma Math_round_div_one (v : Z) : Math_round (inject_Z v / inject_Z 1) = v.
Proof.
  assert (inject_Z v / inject_Z 1 == inject_Z v)%Q as E by (now field).
  unfold Math_round. rewrite E.
  apply LunarFacts.Qfloor_unique.
  - lra.
  - rewrite inject_Z_plus. change (inject_Z 1) with 1%Q. lra.
Qed.

(** C7, as stated: the averages step applied twice gives what it gives
    applied once. On a sum of 100 over two commits the first application
    leaves 50 and the second 25. *)
Lemma C7_second_finalize_divides_again :
  averageCommitSize (finalize twoAtFullMoon) !! "Full Moon" = Some 50
  ∧ averageCommitSize (finalize (finalize twoAtFullMoon)) !! "Full Moon" = Some 25
  ∧ finalize (finalize twoAtFullMoon) ≠ finalize twoAtFullMoon.
Proof.
  assert (averageCommitSize (finalize twoAtFullMoon) !! "Full Moon" = Some 50) as H1
    by (vm_compute; reflexivity).
  assert (averageCommitSize (finalize (finalize twoAtFullMoon)) !! "Full Moon" = Some 25)
    as H2 by (vm_compute; reflexivity).
  split; [exact H1 | split; [exact H2 |]].
  intros E. rewrite E, H1 in H2. clear E H1. discriminate H2.
Qed.

(** C7, amended: the averages step changes [averageCommitSize] and no
    other field; a second application divides every entry again by the
    count of its phase and rounds again. Applying it twice gives what
    applying it once gives exactly on the accumulators on which, for
    every phase with a size, dividing the rounded average by the count
    once more and rounding gives the rounded average back; among them
    are all those in which each phase with a size has a count of one,
    a count of zero or no count, the guard then dividing by one. *)
Theorem C7_finalize_is_one_shot (s : CommitStats) :
  (commitsByPhase (finalize s) = commitsByPhase s
   ∧ timeOfDay (finalize s) = timeOfDay s
   ∧ largestCommit (finalize s) = largestCommit s
   ∧ totalAdditions (finalize s) = totalAdditions s
   ∧ totalDeletions (finalize s) = totalDeletions s)
  ∧ (∀ phase : string,
       averageCommitSize (finalize (finalize s)) !! phase
       = (fun v =>
            Math_round
              (inject_Z (Math_round (inject_Z v / inject_Z (orOne (commitsByPhase s) phase)))
               / inject_Z (orOne (commitsByPhase s) phase)))
           <$> averageCommitSize s !! phase)
  ∧ (finalize (finalize s) = finalize s
     ↔ ∀ (phase : string) (v : Z),
         averageCommitSize s !! phase = Some v →
         Math_round
           (inject_Z (Math_round (inject_Z v / inject_Z (orOne (commitsByPhase s) phase)))
            / inject_Z (orOne (commitsByPhase s) phase))
         = Math_round (inject_Z v / inject_Z (orOne (commitsByPhase s) phase)))
  ∧ ((∀ (phase : string) (v : Z),
        averageCommitSize s !! phase = Some v → orOne (commitsByPhase s) phase = 1) →
     finalize (finalize s) = finalize s).
Proof.
  assert (∀ phase : string,
            averageCommitSize (finalize (finalize s)) !! phase
            = (fun v =>
                 Math_round
                   (inject_Z (Math_round
                                (inject_Z v / inject_Z (orOne (commitsByPhase s) phase)))
                    / inject_Z (orOne (commitsByPhase s) phase)))
                <$> averageCommitSize s !! phase) as Htwice.
  { intros phase. rewrite !finalize_lookup.
    now destruct (averageCommitSize s !! phase). }
  assert ((∀ (phase : string) (v : Z),
             averageCommitSize s !! phase = Some v →
             Math_round
               (inject_Z (Math_round
                            (inject_Z v / inject_Z (orOne (commitsByPhase s) phase)))
                / inject_Z (orOne (commitsByPhase s) phase))
             = Math_round (inject_Z v / inject_Z (orOne (commitsByPhase s) phase))) →
          finalize (finalize s) = finalize s) as Hback.
  { intros Hsame.
    assert (averageCommitSize (finalize (finalize s)) = averageCommitSize (finalize s))
      as Havg.
    { apply map_eq. intros phase. rewrite Htwice, finalize_lookup.
      destruct (averageCommitSize s !! phase) as [v|] eqn:Hv; [| reflexivity].
      simpl. now rewrite (Hsame phase v Hv). }
    set (once := finalize s) in *.
    transitivity
      {| commitsByPhase := commitsByPhase once;
         averageCommitSize := averageCommitSize (finalize once);
         timeOfDay := timeOfDay once;
         largestCommit := largestCommit once;
         totalAdditions := totalAdditions once;
         totalDeletions := totalDeletions once |}; [reflexivity |].
    rewrite Havg. now destruct once. }
  split; [now repeat split |]. split; [exact Htwice |]. split; [split |].
  - intros Heq phase v Hv.
    pose proof (Htwice phase) as H2. rewrite Heq, finalize_lookup, Hv in H2.
    cbn [fmap option_fmap option_map] in H2. injection H2 as H2. now symmetry.
  - exact Hback.
  - intros Hone. apply Hback. intros phase v Hv.
    rewrite (Hone phase v Hv). now rewrite !Math_round_div_one.
Qed.

(** With one commit per phase a second application changes nothing. *)
Lemma C7_finalize_is_one_shot_witness :
  finalize (finalize oneAtFullMoon) = finalize oneAtFullMoon.
Proof.
  apply (proj2 (proj2 (proj2 (C7_finalize_is_one_shot oneAtFullMoon)))).
  intros phase v Hv.
  destruct (decide (phase = "Full Moon")) as [-> | Hne].
  - reflexivity.
  - simpl in Hv. rewrite lookup_singleton_ne in Hv by congruence. discriminate.
Defined.

End AggregatorFacts.

(** ** The run *)

Module PipelineFacts.
Import JS Lunar GitHub Pipeline Scenarios.

(** *** What each step changes *)

Lemma sendProgress_events (env : Env) (site : Site) (msg : string)
    (p : option (Z * Z * option StatsSnapshot)) (r : Run) :
  events (sendProgress env site msg p r)
  = events r ++ (if progressController env
                 then [Enqueued site (progressData msg p)] else []).
Proof.
  unfold sendProgress. destruct (progressController env); simpl.
  - reflexivity.
  - now rewrite app_nil_r.
Qed.

Lemma sendProgress_state (env : Env) (site : Site) (msg : string)
    (p : option (Z * Z * option StatsSnapshot)) (r : Run) :
  run_stats (sendProgress env site msg p r) = run_stats r
  ∧ totalCommits (sendProgress env site msg p r) = totalCommits r
  ∧ processedRepos (sendProgress env site msg p r) = processedRepos r.
Proof. unfold sendProgress. now destruct (progressController env). Qed.

(** The requests of a batch leave the counters alone. *)
Lemma requests_state (repo : GitHubRepo) (batch : list GitHubCommitResponse) (r : Run) :
  let r1 := foldl (fun acc c => emit (Requested (GetCommit repo (sha c))) acc) r batch in
  run_stats r1 = run_stats r
  ∧ totalCommits r1 = totalCommits r
  ∧ processedRepos r1 = processedRepos r
  ∧ events r1 = events r ++ map (fun c => Requested (GetCommit repo (sha c))) batch.
Proof.
  revert r. induction batch as [|c batch IH]; intros r; simpl.
  - now rewrite app_nil_r.
  - destruct (IH (emit (Requested (GetCommit repo (sha c))) r)) as (-> & -> & -> & ->).
    simpl. now rewrite <- app_assoc.
Qed.

(** The sizes of a batch, as a function of the accumulator alone. *)
Lemma processBatch_stats (env : Env) (repo : GitHubRepo) (r : Run)
    (batch : list GitHubCommitResponse) :
  run_stats (processBatch env repo r batch)
  = match promiseAll (map (fun c => getCommit env repo (sha c)) batch) with
    | Some batchResults =>
        foldl (fun s cd => addDetails (host env) (fst cd) (snd cd) s)
              (run_stats r) (zip batch batchResults)
    | None => run_stats r
    end.
Proof.
  unfold processBatch.
  destruct (requests_state repo batch r) as (Hs & _).
  destruct (promiseAll _); simpl; now rewrite Hs.
Qed.

Lemma processBatch_counters (env : Env) (repo : GitHubRepo) (r : Run)
    (batch : list GitHubCommitResponse) :
  totalCommits (processBatch env repo r batch) = totalCommits r
  ∧ processedRepos (processBatch env repo r batch) = processedRepos r
  ∧ events (processBatch env repo r batch)
    = events r ++ map (fun c => Requested (GetCommit repo (sha c))) batch.
Proof.
  unfold processBatch.
  destruct (requests_state repo batch r) as (_ & Ht & Hp & He).
  destruct (promiseAll _); simpl; auto.
Qed.

(** The sizes of a commit leave its phase and time of day counts alone. *)
Lemma addDetails_frame (h : Host) (commit : GitHubCommitResponse)
    (d : DetailedCommitResponse) (s : CommitStats) :
  commitsByPhase (addDetails h commit d s) = commitsByPhase s
  ∧ timeOfDay (addDetails h commit d s) = timeOfDay s.
Proof.
  unfold addDetails. destruct (truthyTotal d); [| easy].
  now destruct (stats d).
Qed.

Lemma addDetails_fold_frame (h : Host)
    (l : list (GitHubCommitResponse * DetailedCommitResponse)) (s : CommitStats) :
  let s' := foldl (fun s cd => addDetails h (fst cd) (snd cd) s) s l in
  commitsByPhase s' = commitsByPhase s ∧ timeOfDay s' = timeOfDay s.
Proof.
  revert s. induction l as [|[c d] l IH]; intros s; simpl; [easy |].
  destruct (IH (addDetails h c d s)) as (-> & ->). apply addDetails_frame.
Qed.

Lemma processBatch_frame (env : Env) (repo : GitHubRepo) (r : Run)
    (batch : list GitHubCommitResponse) :
  commitsByPhase (run_stats (processBatch env repo r batch)) = commitsByPhase (run_stats r)
  ∧ timeOfDay (run_stats (processBatch env repo r batch)) = timeOfDay (run_stats r).
Proof.
  rewrite processBatch_stats. destruct (promiseAll _); [| easy].
  apply addDetails_fold_frame.
Qed.

(** The accumulator after a sequence of batches depends on the run
    through its accumulator only. *)
Lemma processBatch_fold_stats (env : Env) (repo : GitHubRepo)
    (rest : list (list GitHubCommitResponse)) (r r' : Run) :
  run_stats r = run_stats r' →
  run_stats (foldl (processBatch env repo) r rest)
  = run_stats (foldl (processBatch env repo) r' rest).
Proof.
  revert r r'. induction rest as [|b rest IH]; intros r r' H; simpl; [exact H |].
  apply IH. rewrite !processBatch_stats. now rewrite H.
Qed.

(** The slices cover the commits, each once and in order: the bound on
    the number of iterations is never what ends the loop. *)
Lemma batchesFrom_concat {A : Type} (fuel : nat) (l : list A) :
  (length l ≤ fuel)%nat → concat (batchesFrom fuel l) = l.
Proof.
  revert l. induction fuel as [|fuel IH]; intros l Hlen.
  - destruct l; [reflexivity | simpl in Hlen; lia].
  - destruct l as [|a l]; [reflexivity |].
    change (batchesFrom (S fuel) (a :: l))
      with (take BATCH_SIZE (a :: l) :: batchesFrom fuel (drop BATCH_SIZE (a :: l))).
    rewrite concat_cons, IH.
    + apply take_drop.
    + rewrite length_drop. unfold BATCH_SIZE. cbn [length] in *. lia.
Qed.

Lemma batches_concat {A : Type} (l : list A) : concat (batches l) = l.
Proof. apply batchesFrom_concat. lia. Qed.

Lemma batches_size {A : Type} (l : list A) :
  Forall (fun b => (0 < length b ≤ BATCH_SIZE)%nat) (batches l).
Proof.
  unfold batches. generalize (length l) as fuel. intros fuel. revert l.
  induction fuel as [|fuel IH]; intros l; [constructor |].
  destruct l as [|a l]; [constructor |].
  change (batchesFrom (S fuel) (a :: l))
    with (take BATCH_SIZE (a :: l) :: batchesFrom fuel (drop BATCH_SIZE (a :: l))).
  constructor; [| apply IH].
  rewrite length_take. unfold BATCH_SIZE. cbn [length]. lia.
Qed.

(** C10. A batch one of whose detail requests fails leaves the whole
    accumulator and the commit total as they were, so the counts of
    the first loop stand and only the sizes of that batch are missing;
    the batches after it are folded as if it had not been there; and
    any batch, failed or not, leaves [commitsByPhase], [timeOfDay] and
    the commit total unchanged. *)
Theorem C10_failed_batch_leaves_counts (env : Env) (repo : GitHubRepo) (r : Run)
    (batch : list GitHubCommitResponse) (rest : list (list GitHubCommitResponse)) :
  (promiseAll (map (fun c => getCommit env repo (sha c)) batch) = None →
     run_stats (processBatch env repo r batch) = run_stats r
     ∧ run_stats (foldl (processBatch env repo) r (batch :: rest))
       = run_stats (foldl (processBatch env repo) r rest))
  ∧ commitsByPhase (run_stats (processBatch env repo r batch))
    = commitsByPhase (run_stats r)
  ∧ timeOfDay (run_stats (processBatch env repo r batch)) = timeOfDay (run_stats r)
  ∧ totalCommits (processBatch env repo r batch) = totalCommits r.
Proof.
  split; [| split; [| split]].
  - intros Hfail.
    assert (run_stats (processBatch env repo r batch) = run_stats r) as Hsame
      by (rewrite processBatch_stats; now rewrite Hfail).
    split; [exact Hsame |]. simpl. now apply processBatch_fold_stats.
  - apply processBatch_frame.
  - apply processBatch_frame.
  - apply processBatch_counters.
Qed.

(** *** What holds at every point of a run *)

Lemma multiplesOfFive_hit (n : Z) :
  0 ≤ n → Z.rem (n + 1) 5 = 0 → multiplesOfFive (n + 1) = multiplesOfFive n ++ [n + 1].
Proof.
  intros Hn Hrem. rewrite Z.rem_mod_nonneg in Hrem by lia.
  unfold multiplesOfFive.
  assert ((n + 1) / 5 = n / 5 + 1) as -> by
    (pose proof (Z.div_mod n 5); pose proof (Z.div_mod (n + 1) 5);
     pose proof (Z.mod_pos_bound n 5); lia).
  assert (0 ≤ n / 5) by (apply Z.div_pos; lia).
  rewrite Z2Nat.inj_add by lia. change (Z.to_nat 1) with 1%nat.
  rewrite Nat.add_1_r, seq_S, map_app. simpl. do 2 f_equal.
  pose proof (Z.div_mod n 5); pose proof (Z.div_mod (n + 1) 5);
    pose proof (Z.mod_pos_bound n 5). lia.
Qed.

Lemma multiplesOfFive_miss (n : Z) :
  0 ≤ n → Z.rem (n + 1) 5 ≠ 0 → multiplesOfFive (n + 1) = multiplesOfFive n.
Proof.
  intros Hn Hrem. rewrite Z.rem_mod_nonneg in Hrem by lia.
  unfold multiplesOfFive.
  assert ((n + 1) / 5 = n / 5) as -> by
    (pose proof (Z.div_mod n 5); pose proof (Z.div_mod (n + 1) 5);
     pose proof (Z.mod_pos_bound n 5); pose proof (Z.mod_pos_bound (n + 1) 5); lia).
  reflexivity.
Qed.

Lemma sites_snoc (l : list Event) (site : Site) (d : ProgressData) :
  sites (l ++ [Enqueued site d]) = sites l ++ [site].
Proof. unfold sites. now rewrite omap_app. Qed.

Lemma sites_snoc_other (l : list Event) (e : Event) :
  (∀ site d, e ≠ Enqueued site d) → sites (l ++ [e]) = sites l.
Proof.
  intros He. unfold sites. rewrite omap_app.
  destruct e; [congruence | |]; apply app_nil_r.
Qed.

Lemma fifthCommitTotals_snoc_other (l : list Event) (e : Event) :
  (∀ d, e ≠ Enqueued AtFifthCommit d) →
  fifthCommitTotals (l ++ [e]) = fifthCommitTotals l.
Proof.
  intros He. unfold fifthCommitTotals. rewrite omap_app.
  destruct e as [[] d | |]; try apply app_nil_r. congruence.
Qed.

Lemma fifthCommitTotals_snoc (l : list Event) (msg : string) (cur tot : Z)
    (sn : StatsSnapshot) :
  fifthCommitTotals
    (l ++ [Enqueued AtFifthCommit (progressData msg (Some (cur, tot, Some sn)))])
  = fifthCommitTotals l ++ [snap_totalCommits sn].
Proof. unfold fifthCommitTotals. now rewrite omap_app. Qed.

Lemma countSite_snoc (site : Site) (l : list Event) (s : Site) (d : ProgressData) :
  countSite site (l ++ [Enqueued s d])
  = (countSite site l + if decide (s = site) then 1 else 0)%nat.
Proof.
  unfold countSite. rewrite sites_snoc, filter_app, length_app. f_equal.
  rewrite filter_cons, filter_nil. now destruct (decide (s = site)).
Qed.

Lemma countSite_snoc_other (site : Site) (l : list Event) (e : Event) :
  (∀ s d, e ≠ Enqueued s d) → countSite site (l ++ [e]) = countSite site l.
Proof. intros He. unfold countSite. now rewrite sites_snoc_other. Qed.


Lemma invariant_initial (env : Env) : invariant env initialRun.
Proof.
  constructor; simpl.
  - lia.
  - apply AggregatorFacts.sumValues_empty.
  - constructor.
  - now destruct (progressController env).
  - reflexivity.
  - now destruct (progressController env).
  - apply not_elem_of_nil.
Qed.

(** A request or a wait adds nothing to what the observer sees. *)
Lemma invariant_emit (env : Env) (e : Event) (r : Run) :
  (∀ site d, e ≠ Enqueued site d) → invariant env r → invariant env (emit e r).
Proof.
  intros He [H1 H2 H3 H4 H5 H6 H7].
  assert (snapshotOf e = None) as Hsn by (destruct e; [congruence | easy..]).
  constructor; simpl;
    rewrite ?countSite_snoc_other, ?sites_snoc_other, ?fifthCommitTotals_snoc_other;
    auto.
  apply Forall_app. split; [exact H3 |].
  constructor; [| constructor]. unfold snapshotConsistent. now rewrite Hsn.
Qed.

(** A message without statistics, sent from a site other than that of
    the repository start, of every fifth commit and of the end. *)
Lemma invariant_status (env : Env) (site : Site) (msg : string) (r : Run) :
  site ≠ AtComplete → site ≠ AtFifthCommit → site ≠ AtRepository →
  invariant env r → invariant env (sendProgress env site msg None r).
Proof.
  intros Hc Hf Hb [H1 H2 H3 H4 H5 H6 H7]. unfold sendProgress.
  destruct (progressController env) eqn:Hctl; [| constructor; rewrite ?Hctl; auto].
  constructor; simpl;
    rewrite ?countSite_snoc, ?sites_snoc, ?fifthCommitTotals_snoc_other, ?Hctl;
    auto; try congruence.
  - apply Forall_app. split; [exact H3 |]. repeat constructor.
  - rewrite decide_False by exact Hf. lia.
  - rewrite decide_False by exact Hb. rewrite ?Hctl in H6. lia.
  - rewrite elem_of_app, list_elem_of_singleton. intros [? | ?]; congruence.
Qed.

(** The start of a repository: the counter of repositories grows by
    one and the message carries the counts as they stand. *)
Lemma invariant_boundary (env : Env) (nRepos : Z) (r : Run) :
  invariant env r →
  let r1 := {| run_stats := run_stats r;
               processedRepos := processedRepos r + 1;
               totalCommits := totalCommits r;
               events := events r |} in
  invariant env (sendProgress env AtRepository "Analyzing repositories"
                   (repositoryProgress nRepos r1) r1).
Proof.
  intros [H1 H2 H3 H4 H5 H6 H7] r1. unfold sendProgress.
  destruct (progressController env) eqn:Hctl.
  - constructor; simpl;
      rewrite ?countSite_snoc, ?sites_snoc, ?fifthCommitTotals_snoc_other, ?Hctl;
      auto; try congruence.
    + apply Forall_app. split; [exact H3 |]. repeat constructor. exact H2.
    + rewrite decide_False by congruence. lia.
    + rewrite decide_True by reflexivity. rewrite ?Hctl in H6. lia.
    + rewrite elem_of_app, list_elem_of_singleton. intros [? | ?]; congruence.
  - constructor; simpl; rewrite ?Hctl; auto.
Qed.

Lemma processBasic_state (env : Env) (nRepos : Z) (r : Run)
    (commit : GitHubCommitResponse) :
  run_stats (processBasic env nRepos r commit)
  = countCommit (host env) commit (run_stats r)
  ∧ totalCommits (processBasic env nRepos r commit) = totalCommits r + 1
  ∧ processedRepos (processBasic env nRepos r commit) = processedRepos r.
Proof.
  unfold processBasic. cbv zeta.
  match goal with |- context [if ?b then _ else _] => destruct b end.
  - match goal with
    | |- context [sendProgress ?e ?st ?m ?p ?x] =>
        destruct (sendProgress_state e st m p x) as (-> & -> & ->)
    end. now simpl.
  - now simpl.
Qed.

(** One commit of the first loop: the count and the total grow
    together, and a snapshot is sent exactly when the total reaches a
    multiple of five. *)
Lemma invariant_processBasic (env : Env) (nRepos : Z) (r : Run)
    (commit : GitHubCommitResponse) :
  invariant env r → invariant env (processBasic env nRepos r commit).
Proof.
  intros [H1 H2 H3 H4 H5 H6 H7]. unfold processBasic. simpl.
  assert (sumValues (commitsByPhase (countCommit (host env) commit (run_stats r)))
          = totalCommits r + 1) as Hsum
    by (rewrite AggregatorFacts.countCommit_sum; lia).
  destruct (Z.rem (totalCommits r + 1) 5 =? 0) eqn:Hrem.
  - apply Z.eqb_eq in Hrem. unfold sendProgress.
    destruct (progressController env) eqn:Hctl.
    + unfold repositoryProgress. simpl.
      constructor; simpl;
        rewrite ?countSite_snoc, ?sites_snoc, ?fifthCommitTotals_snoc, ?Hctl;
        auto; try lia.
      * apply Forall_app. split; [exact H3 |]. repeat constructor. exact Hsum.
      * rewrite H4, ?Hctl. simpl. now rewrite multiplesOfFive_hit.
      * rewrite decide_True by reflexivity. rewrite length_app. simpl. lia.
      * rewrite decide_False by congruence. rewrite ?Hctl in H6. lia.
      * rewrite elem_of_app, list_elem_of_singleton. intros [? | ?]; congruence.
    + constructor; simpl; rewrite ?Hctl; auto; try lia.
  - apply Z.eqb_neq in Hrem.
    constructor; simpl; auto; try lia.
    rewrite H4. destruct (progressController env); [| reflexivity].
    now rewrite multiplesOfFive_miss.
Qed.

Lemma invariant_same_view (env : Env) (r r' : Run) :
  commitsByPhase (run_stats r') = commitsByPhase (run_stats r) →
  totalCommits r' = totalCommits r →
  processedRepos r' = processedRepos r →
  events r' = events r →
  invariant env r → invariant env r'.
Proof.
  intros Hc Ht Hp He [H1 H2 H3 H4 H5 H6 H7].
  constructor; rewrite ?Hc, ?Ht, ?Hp, ?He; auto.
Qed.

Lemma invariant_requests (env : Env) (repo : GitHubRepo)
    (batch : list GitHubCommitResponse) (r : Run) :
  invariant env r →
  invariant env (foldl (fun acc c => emit (Requested (GetCommit repo (sha c))) acc) r batch).
Proof.
  revert r. induction batch as [|c batch IH]; intros r Hr; simpl; [exact Hr |].
  apply IH, invariant_emit; [congruence | exact Hr].
Qed.

Lemma invariant_processBatch (env : Env) (repo : GitHubRepo) (r : Run)
    (batch : list GitHubCommitResponse) :
  invariant env r → invariant env (processBatch env repo r batch).
Proof.
  intros Hr. pose proof (invariant_requests env repo batch r Hr) as Hreq.
  unfold processBatch. destruct (promiseAll _) as [results|]; [| exact Hreq].
  eapply invariant_same_view; [| | | | exact Hreq]; simpl; try reflexivity.
  apply addDetails_fold_frame.
Qed.

Lemma invariant_foldl {B : Type} (env : Env) (f : Run → B → Run) (l : list B) (r : Run) :
  (∀ r x, invariant env r → invariant env (f r x)) →
  invariant env r → invariant env (foldl f r l).
Proof.
  intros Hf. revert r. induction l as [|x l IH]; intros r Hr; simpl; auto.
Qed.

Lemma invariant_onRepositoryError (env : Env) (repo : GitHubRepo)
    (error : RequestError) (r : Run) :
  invariant env r → invariant env (onRepositoryError env repo error r).
Proof.
  intros Hr. unfold onRepositoryError.
  repeat match goal with
         | |- context [if ?b then _ else _] => destruct b
         end; try exact Hr.
  apply invariant_emit; [congruence | exact Hr].
Qed.

Lemma invariant_processRepository (env : Env) (username : string)
    (userEmails : list string) (nRepos : Z) (r : Run) (repo : GitHubRepo) :
  invariant env r →
  invariant env (processRepository env username userEmails nRepos r repo).
Proof.
  intros Hr. unfold processRepository. cbv zeta.
  pose proof (invariant_emit env (Requested (ListCommits repo)) _
                ltac:(congruence) (invariant_boundary env nRepos r Hr)) as H3.
  destruct (listCommits env repo) as [commits | error].
  - apply invariant_foldl; [intros; now apply invariant_processBatch |].
    apply invariant_foldl; [intros; now apply invariant_processBasic | exact H3].
  - now apply invariant_onRepositoryError.
Qed.

Lemma invariant_loop (env : Env) (username : string) (userEmails : list string)
    (nRepos : Z) (repos : list GitHubRepo) (r : Run) :
  invariant env r →
  invariant env (foldl (processRepository env username userEmails nRepos) r repos).
Proof.
  apply invariant_foldl. intros. now apply invariant_processRepository.
Qed.

Lemma finished_thrown (env : Env) (r : Run) (e : RequestError) :
  invariant env r → totalCommits r = 0 → finished env r (Thrown e).
Proof.
  intros [H1 H2 H3 H4 H5 H6 H7] H0. constructor; auto. discriminate.
Qed.

Lemma analyzeRepositories_finished (env : Env) (username : string)
    (userEmails : list string) (repos : list GitHubRepo) (r : Run) :
  invariant env r →
  let r' := analyzeRepositories env username userEmails repos r in
  finished env r' (Returned (run_stats r')).
Proof.
  intros Hr. unfold analyzeRepositories.
  set (r1 := foldl _ r repos).
  assert (invariant env r1) as [H1 H2 H3 H4 H5 H6 H7] by now apply invariant_loop.
  set (r2 := withStats (finalize (run_stats r1)) r1).
  destruct (sendProgress_state env AtComplete "Analysis complete!" None r2)
    as (Hs & Ht & Hp).
  pose proof (sendProgress_events env AtComplete "Analysis complete!" None r2) as He.
  fold completion in He.
  assert (fifthCommitTotals (events r2 ++
            (if progressController env then [completion] else []))
          = fifthCommitTotals (events r1)) as Hfifth
    by (destruct (progressController env);
        [apply fifthCommitTotals_snoc_other; unfold completion; congruence
        | now rewrite app_nil_r]).
  assert (∀ site, site ≠ AtComplete →
            countSite site (events r2 ++
              (if progressController env then [completion] else []))
            = countSite site (events r1)) as Hcount.
  { intros site Hsite. destruct (progressController env); [| now rewrite app_nil_r].
    unfold completion. rewrite countSite_snoc, decide_False by congruence.
    simpl. lia. }
  simpl. constructor; rewrite ?Hs, ?Ht, ?Hp, ?He, ?Hfifth, ?Hcount by congruence;
    simpl; auto.
  - apply Forall_app. split; [exact H3 |].
    destruct (progressController env); repeat constructor.
  - intros s [= <-]. split; [reflexivity |].
    exists (events r1). split; [reflexivity | exact H7].
  - discriminate.
Qed.

(** Every run of [fetchUserCommits] ends in a finished state. *)
Lemma fetchUserCommits_finished (env : Env) (username : string) :
  finished env (fst (fetchUserCommits env username))
               (snd (fetchUserCommits env username)).
Proof.
  unfold fetchUserCommits.
  set (r2 := emit (Requested ListEmails) _).
  assert (invariant env r2) as H2.
  { apply invariant_emit; [congruence |].
    do 2 (apply invariant_status; [congruence | congruence | congruence |]).
    apply invariant_initial. }
  assert (totalCommits r2 = 0) as T2.
  { subst r2. simpl.
    rewrite !(proj1 (proj2 (sendProgress_state _ _ _ _ _))). reflexivity. }
  destruct (listEmailsForAuthenticatedUser env) as [emails | error]; simpl.
  2: { apply finished_thrown.
       - apply invariant_status; [congruence | congruence | congruence | exact H2].
       - now rewrite (proj1 (proj2 (sendProgress_state _ _ _ _ _))). }
  set (r5 := emit (Requested ListRepos) _).
  assert (invariant env r5) as H5.
  { apply invariant_emit; [congruence |].
    do 2 (apply invariant_status; [congruence | congruence | congruence |]). exact H2. }
  assert (totalCommits r5 = 0) as T5.
  { subst r5. simpl.
    rewrite !(proj1 (proj2 (sendProgress_state _ _ _ _ _))). exact T2. }
  destruct (listForAuthenticatedUser env) as [repos | error]; simpl.
  2: { apply finished_thrown.
       - apply invariant_status; [congruence | congruence | congruence | exact H5].
       - now rewrite (proj1 (proj2 (sendProgress_state _ _ _ _ _))). }
  apply analyzeRepositories_finished.
  apply invariant_status; [congruence | congruence | congruence | exact H5].
Qed.

(** C6. After folding the first [n] of any sequence of qualifying
    commits into a fresh accumulator, for every [n], the counts of
    [commitsByPhase] sum to the number of commits folded, and so to N
    after all N; one more commit of the first loop keeps the sum equal
    to the commit total; and in a run the sum equals the commit total
    in every snapshot sent and at the end. *)
Theorem C6_counts_sum_to_commits_folded :
  (∀ (h : Host) (commits : list GitHubCommitResponse) (n : nat),
     sumValues (commitsByPhase
                  (foldl (fun s c => countCommit h c s) emptyStats (take n commits)))
     = Z.of_nat (length (take n commits))
     ∧ sumValues (commitsByPhase
                    (foldl (fun s c => countCommit h c s) emptyStats commits))
       = Z.of_nat (length commits))
  ∧ (∀ (env : Env) (nRepos : Z) (r : Run) (commit : GitHubCommitResponse),
       sumValues (commitsByPhase (run_stats r)) = totalCommits r →
       sumValues (commitsByPhase (run_stats (processBasic env nRepos r commit)))
       = totalCommits (processBasic env nRepos r commit))
  ∧ (∀ (env : Env) (username : string),
       let r := fst (fetchUserCommits env username) in
       sumValues (commitsByPhase (run_stats r)) = totalCommits r
       ∧ Forall snapshotConsistent (events r)).
Proof.
  split; [| split].
  - intros h commits n.
    split; rewrite AggregatorFacts.countCommit_fold_sum; simpl;
      rewrite AggregatorFacts.sumValues_empty; lia.
  - intros env nRepos r commit H.
    destruct (processBasic_state env nRepos r commit) as (-> & -> & _).
    rewrite AggregatorFacts.countCommit_sum. lia.
  - intros env username.
    destruct (fetchUserCommits_finished env username) as [H1 H2 _ _ _ _ _].
    now split.
Qed.

(** The first commit of a run. *)
Lemma C6_counts_sum_to_commits_folded_witness :
  sumValues (commitsByPhase
               (run_stats (processBasic envTwelveCommits 2 initialRun (userCommit "c01"))))
  = totalCommits (processBasic envTwelveCommits 2 initialRun (userCommit "c01")).
Proof.
  apply (proj1 (proj2 C6_counts_sum_to_commits_folded)).
  reflexivity.
Defined.

(** *** The commits of the detail loop *)





Lemma commitRequests_batch (repo : GitHubRepo) (b : list GitHubCommitResponse) :
  commitRequests (map (fun c => Requested (GetCommit repo (sha c))) b) = map sha b.
Proof. induction b as [|c b IH]; simpl; [reflexivity | now rewrite <- IH]. Qed.

Lemma commitRequests_processBatch (env : Env) (repo : GitHubRepo)
    (bs : list (list GitHubCommitResponse)) (r : Run) :
  commitRequests (events (foldl (processBatch env repo) r bs))
  = commitRequests (events r) ++ map sha (concat bs)
  ∧ totalCommits (foldl (processBatch env repo) r bs) = totalCommits r.
Proof.
  revert r. induction bs as [|b bs IH]; intros r; simpl.
  - now rewrite app_nil_r.
  - destruct (IH (processBatch env repo r b)) as [-> ->].
    destruct (processBatch_counters env repo r b) as (-> & _ & ->).
    split; [| reflexivity].
    unfold commitRequests at 1. rewrite omap_app.
    fold (commitRequests (events r)).
    fold (commitRequests (map (fun c => Requested (GetCommit repo (sha c))) b)).
    now rewrite commitRequests_batch, map_app, app_assoc.
Qed.






(** The first batch of five, the request of whose second commit is
    rejected. *)
Lemma C10_failed_batch_leaves_counts_witness :
  let r := foldl (processBasic envOneDetailFails 1) initialRun
             (map userCommit twelveRefs) in
  run_stats (processBatch envOneDetailFails repoAlpha r
               (map userCommit (take 5 twelveRefs)))
  = run_stats r.
Proof.
  intros r.
  apply (proj1 (C10_failed_batch_leaves_counts envOneDetailFails repoAlpha r
                  (map userCommit (take 5 twelveRefs)) [])).
  reflexivity.
Defined.

(** *** The repositories whose commits are requested *)

Lemma listedRepos_sendProgress (env : Env) (site : Site) (msg : string)
    (p : option (Z * Z * option StatsSnapshot)) (r : Run) :
  listedRepos (events (sendProgress env site msg p r)) = listedRepos (events r).
Proof.
  rewrite sendProgress_events. unfold listedRepos. rewrite omap_app.
  destruct (progressController env); simpl; apply app_nil_r.
Qed.

Lemma listedRepos_processBasic (env : Env) (nRepos : Z) (r : Run)
    (commit : GitHubCommitResponse) :
  listedRepos (events (processBasic env nRepos r commit)) = listedRepos (events r).
Proof.
  unfold processBasic. cbv zeta.
  match goal with |- context [if ?b then _ else _] => destruct b end;
    [rewrite listedRepos_sendProgress |]; reflexivity.
Qed.

Lemma listedRepos_processBatch (env : Env) (repo : GitHubRepo) (r : Run)
    (batch : list GitHubCommitResponse) :
  listedRepos (events (processBatch env repo r batch)) = listedRepos (events r).
Proof.
  destruct (processBatch_counters env repo r batch) as (_ & _ & ->).
  unfold listedRepos. rewrite omap_app.
  induction batch as [|c batch IH]; simpl in *; [apply app_nil_r | exact IH].
Qed.

Lemma listedRepos_foldl {B : Type} (f : Run → B → Run) (l : list B) (r : Run) :
  (∀ r x, listedRepos (events (f r x)) = listedRepos (events r)) →
  listedRepos (events (foldl f r l)) = listedRepos (events r).
Proof.
  intros Hf. revert r. induction l as [|x l IH]; intros r; simpl; [reflexivity |].
  now rewrite IH.
Qed.

Lemma listedRepos_onRepositoryError (env : Env) (repo : GitHubRepo)
    (error : RequestError) (r : Run) :
  listedRepos (events (onRepositoryError env repo error r)) = listedRepos (events r).
Proof.
  unfold onRepositoryError.
  repeat match goal with
         | |- context [if ?b then _ else _] => destruct b
         end; try reflexivity.
  unfold listedRepos. simpl. rewrite omap_app. apply app_nil_r.
Qed.

End PipelineFacts.

(** ** The detail loop of [fetchDetailedCommitStats] *)

Module DetailedFacts.
Import JS Lunar GitHub Pipeline Detailed Scenarios.

Lemma detailCommit_processed (env : DetailEnv) (total : Z) (repo : GitHubRepo)
    (d : DetailRun) (commit : GitHubCommitResponse) :
  processedCommits (detailCommit env total repo d commit) = processedCommits d + 1.
Proof. unfold detailCommit. now destruct (getCommitDetails env repo (sha commit)). Qed.

(** With a callback and every detail request answered, the calls made
    from the detail loop are those at the multiples of five. *)
Lemma detailCommit_cadence (env : DetailEnv) (total : Z) (repo : GitHubRepo)
    (d : DetailRun) (commit : GitHubCommitResponse) :
  onProgress env = true →
  (∀ repo ref, ∃ details, getCommitDetails env repo ref = Ok details) →
  0 ≤ processedCommits d →
  detailCurrents (d_calls d) = multiplesOfFive (processedCommits d) →
  detailCurrents (d_calls (detailCommit env total repo d commit))
  = multiplesOfFive (processedCommits d + 1).
Proof.
  intros Hcb Hok Hpos Hinv. unfold detailCommit.
  destruct (Hok repo (sha commit)) as [details ->]. simpl. rewrite Hcb.
  destruct (Z.rem (processedCommits d + 1) 5 =? 0) eqn:Hrem; simpl.
  - apply Z.eqb_eq in Hrem. unfold detailCurrents in *.
    rewrite omap_app, Hinv. simpl.
    now rewrite PipelineFacts.multiplesOfFive_hit.
  - apply Z.eqb_neq in Hrem. rewrite Hinv.
    now rewrite PipelineFacts.multiplesOfFive_miss.
Qed.

Lemma detailCommits_cadence (env : DetailEnv) (total : Z) (repo : GitHubRepo)
    (commits : list GitHubCommitResponse) (d : DetailRun) :
  onProgress env = true →
  (∀ repo ref, ∃ details, getCommitDetails env repo ref = Ok details) →
  0 ≤ processedCommits d →
  detailCurrents (d_calls d) = multiplesOfFive (processedCommits d) →
  let d' := foldl (detailCommit env total repo) d commits in
  0 ≤ processedCommits d'
  ∧ detailCurrents (d_calls d') = multiplesOfFive (processedCommits d').
Proof.
  intros Hcb Hok. revert d.
  induction commits as [|c commits IH]; intros d Hpos Hinv; simpl; [easy |].
  apply IH.
  - rewrite detailCommit_processed. lia.
  - rewrite detailCommit_processed. now apply detailCommit_cadence.
Qed.

Lemma detailRepos_cadence (env : DetailEnv) (total : Z) (repos : list GitHubRepo)
    (d d' : DetailRun) :
  onProgress env = true →
  (∀ repo ref, ∃ details, getCommitDetails env repo ref = Ok details) →
  0 ≤ processedCommits d →
  detailCurrents (d_calls d) = multiplesOfFive (processedCommits d) →
  detailRepos env total repos d = Ok d' →
  detailCurrents (d_calls d') = multiplesOfFive (processedCommits d').
Proof.
  intros Hcb Hok. revert d.
  induction repos as [|repo repos IH]; intros d Hpos Hinv Hrun; simpl in Hrun.
  - now injection Hrun as <-.
  - destruct (listAllCommits env repo) as [commits | error]; [| discriminate].
    destruct (detailCommits_cadence env total repo commits d Hcb Hok Hpos Hinv)
      as [Hpos' Hinv'].
    exact (IH _ Hpos' Hinv' Hrun).
Qed.

Lemma basicCommit_no_detail_call (env : DetailEnv) (repo : GitHubRepo) (b : BasicRun)
    (commit : GitHubCommitResponse) :
  detailCurrents (b_calls (basicCommit env repo b commit)) = detailCurrents (b_calls b).
Proof.
  unfold basicCommit. simpl.
  destruct (onProgress env && _); [| reflexivity].
  unfold detailCurrents. rewrite omap_app. apply app_nil_r.
Qed.

Lemma basicRepos_no_detail_call (env : DetailEnv) (repos : list GitHubRepo)
    (b b' : BasicRun) :
  basicRepos env repos b = Ok b' →
  detailCurrents (b_calls b') = detailCurrents (b_calls b).
Proof.
  revert b. induction repos as [|repo repos IH]; intros b Hrun; simpl in Hrun.
  - now injection Hrun as <-.
  - destruct (listAllCommits env repo) as [commits | error]; [| discriminate].
    rewrite (IH _ Hrun). clear Hrun IH. revert b.
    induction commits as [|c commits IHc]; intros b; simpl; [reflexivity |].
    now rewrite IHc, basicCommit_no_detail_call.
Qed.

(** The cadence of [fetchDetailedCommitStats]: with a callback and every
    detail request answered, a detail loop over twelve commits calls
    [onProgress] twice, at the fifth and at the tenth commit. *)
Lemma fetchDetailedCommitStats_twelve (env : DetailEnv) (ds : DetailedStats) :
  onProgress env = true →
  (∀ repo ref, ∃ details, getCommitDetails env repo ref = Ok details) →
  fetchDetailedCommitStats env = Ok ds →
  processedCommits (ds_detail ds) = 12 →
  detailCurrents (d_calls (ds_detail ds)) = [5; 10].
Proof.
  intros Hcb Hok Hrun H12. unfold fetchDetailedCommitStats in Hrun.
  destruct (fetchBasicCommitStats env) as [basic | ?] eqn:Hbasic; [| discriminate].
  destruct (fetchUserRepos env) as [repos | ?] eqn:Hrepos; [| discriminate].
  destruct (detailRepos env (b_totalCommits basic) repos _) as [d | ?] eqn:Hdetail;
    [| discriminate].
  injection Hrun as <-. simpl in *.
  assert (detailCurrents (d_calls d) = multiplesOfFive (processedCommits d)) as Hcad.
  { eapply detailRepos_cadence; [exact Hcb | exact Hok | | | exact Hdetail]; simpl.
    - lia.
    - unfold fetchBasicCommitStats in Hbasic. rewrite Hrepos in Hbasic.
      now rewrite (basicRepos_no_detail_call _ _ _ _ Hbasic). }
  now rewrite Hcad, H12.
Qed.

(** On the twelve commits the two calls are made; when the request of
    the fifth commit is rejected the call at five is skipped. *)
Example fetchDetailedCommitStats_calls :
  (∃ ds, fetchDetailedCommitStats detailEnvTwelve = Ok ds
         ∧ detailCurrents (d_calls (ds_detail ds)) = [5; 10])
  ∧ (∃ ds, fetchDetailedCommitStats detailEnvFifthFails = Ok ds
           ∧ detailCurrents (d_calls (ds_detail ds)) = [10]).
Proof.
  split; eexists; (split; [vm_compute; reflexivity | vm_compute; reflexivity]).
Qed.

End DetailedFacts.

(** * Further properties *)

(** ** The phase classifier *)

Module LunarMore.
Import JS Lunar.
Import LunarFacts.
Local Open Scope Q_scope.

Lemma Qltb_true (x y : Q) : x < y → Qltb x y = true.
Proof. apply Qltb_lt. Qed.

Lemma Qltb_false (x y : Q) : y <= x → Qltb x y = false.
Proof.
  intros H. apply not_true_iff_false. rewrite Qltb_lt. now apply Qle_not_lt.
Qed.

Lemma Qleb_true (x y : Q) : x <= y → Qle_bool x y = true.
Proof. apply Qle_bool_iff. Qed.

Lemma Qleb_false (x y : Q) : y < x → Qle_bool x y = false.
Proof.
  intros H. apply not_true_iff_false. rewrite Qle_bool_iff. now apply Qlt_not_le.
Qed.

Ltac compare_all :=
  repeat first
    [ rewrite Qltb_true by lra | rewrite Qltb_false by lra
    | rewrite Qleb_true by lra | rewrite Qleb_false by lra ].

(** The name of the fraction [p] when [8 p + 1/2] lies between the
    integer [k] and the next. *)
Ltac window k :=
  match goal with
  | |- context [Qfloor ?e] =>
      assert (Qfloor e = k) as ->
        by (apply Qfloor_unique;
            [ let v := eval vm_compute in (inject_Z k) in
              change (inject_Z k) with v; lra
            | let v := eval vm_compute in (inject_Z (k + 1)) in
              change (inject_Z (k + 1)) with v; lra ])
  end;
  unfold phaseName; compare_all; reflexivity.

(** Each name owns an eighth of the cycle, centred on a multiple of one
    eighth: the name of a fraction [p] of [0,1) is the name of index
    [floor (8 p + 1/2)] modulo 8 in [LUNAR_PHASES]. *)
Lemma phaseName_window (p : Q) :
  0 <= p → p < 1 →
  phaseName p
  = nth (Z.to_nat (Qfloor (8 * p + (1 # 2)) `mod` 8)) LUNAR_PHASE_NAMES "".
Proof.
  intros Hlo Hhi.
  destruct (Qlt_le_dec p 0.0625); [window 0%Z |].
  destruct (Qlt_le_dec p 0.1875); [window 1%Z |].
  destruct (Qlt_le_dec p 0.3125); [window 2%Z |].
  destruct (Qlt_le_dec p 0.4375); [window 3%Z |].
  destruct (Qlt_le_dec p 0.5625); [window 4%Z |].
  destruct (Qlt_le_dec p 0.6875); [window 5%Z |].
  destruct (Qlt_le_dec p 0.8125); [window 6%Z |].
  destruct (Qlt_le_dec p 0.9375); [window 7%Z | window 8%Z].
Qed.

(** X1. Whatever the date, valid or not, [getLunarPhase] returns one of
    the eight names of [LUNAR_PHASES]. *)
Theorem X1_getLunarPhase_returns_a_phase_name (date : Date) :
  In (getLunarPhase date) LUNAR_PHASE_NAMES.
Proof. apply getLunarPhase_label. Qed.

(** X2. The range tests of [getLunarPhase] give each name one eighth
    of the cycle, centred on a multiple of one eighth: a fraction [p]
    of [0,1) gets the name of index [floor (8 p + 1/2)] modulo 8 in
    [LUNAR_PHASES], and a fraction outside [0,1) is named a new moon.
    The bounds of the tests are multiples of 1/16, which a double holds
    exactly, and every double is a rational: this is the name the code
    gives to the fraction it has computed, whatever the rounding of
    that computation. *)
Theorem X2_names_own_an_eighth_of_the_cycle (p : Q) :
  (0 <= p → p < 1 →
   phaseName p
   = nth (Z.to_nat (Qfloor (8 * p + (1 # 2)) `mod` 8)) LUNAR_PHASE_NAMES "")
  ∧ (p < 0 ∨ 1 <= p → phaseName p = "New Moon").
Proof.
  split; [apply phaseName_window |].
  intros [H | H]; unfold phaseName; compare_all; reflexivity.
Qed.

(** Half way through the cycle. *)
Lemma X2_names_own_an_eighth_of_the_cycle_witness :
  phaseName 0.5
  = nth (Z.to_nat (Qfloor (8 * 0.5 + (1 # 2)) `mod` 8)) LUNAR_PHASE_NAMES "".
Proof.
  apply (proj1 (X2_names_own_an_eighth_of_the_cycle 0.5));
    [unfold Qle | unfold Qlt]; simpl; lia.
Defined.

(** X4. Every date before the reference new moon (2000-01-01T00:00Z) is
    named a new moon: the remainder keeps the sign of the negative
    dividend and the first range test accepts it. *)
Theorem X4_before_epoch_always_new_moon (t : Z) :
  (t < knownNewMoon)%Z →
  phase (inject_Z t) <= 0 ∧ getLunarPhase (ValidDate t) = "New Moon".
Proof.
  intros Ht. split; [| now apply getLunarPhase_before_epoch].
  apply phase_range_before_epoch. now rewrite <- Zlt_Qlt.
Qed.

(** 1970-01-01T00:00:00Z. *)
Lemma X4_before_epoch_always_new_moon_witness :
  getLunarPhase (ValidDate 0) = "New Moon".
Proof.
  apply (X4_before_epoch_always_new_moon 0). reflexivity.
Defined.

End LunarMore.

(** ** The rate limiter settings *)

Module LimiterMore.
Import JS Limiter Scenarios.
Import LimiterFacts.

Lemma floor_quotient_1000 (a : Z) : Math_floor (inject_Z a / 1000) = a / 1000.
Proof. apply (floor_quotient a 1000). Qed.

(** X5. With calls remaining and a readable reset, the new minimum
    interval is at least 1000 ms and spreads the remaining calls up to
    the reset: the calls at that spacing are not over before the reset
    by more than one millisecond each, and when the reset is at least
    1000 ms per call away they all start before it; the reservoir is the
    number of calls remaining. *)
Theorem X5_interval_spreads_remaining_calls (h : Headers) (dateNow : Z)
    (l : Settings) (remaining resetInMs : Z) :
  remainingOf h = Some remaining →
  resetInMsOf h dateNow = Some resetInMs →
  0 < remaining →
  ∃ m, minTime (updateRateLimits h dateNow l) = Some m
       ∧ 1000 ≤ m
       ∧ resetInMs < remaining * (m + 1)
       ∧ (1000 * remaining ≤ resetInMs → remaining * m ≤ resetInMs)
       ∧ reservoir (updateRateLimits h dateNow l) = remaining.
Proof.
  intros Hrem Hreset Hpos.
  rewrite (updateRateLimits_spread h dateNow l remaining resetInMs) by assumption.
  exists (Z.max 1000 (resetInMs / remaining)). simpl.
  pose proof (Z.div_mod resetInMs remaining ltac:(lia)) as Hdm.
  pose proof (Z.mod_pos_bound resetInMs remaining Hpos) as Hmod.
  repeat split; try lia; nia.
Qed.

(** Ten calls remaining and five seconds to the reset. *)
Lemma X5_interval_spreads_remaining_calls_witness :
  ∃ m, minTime (updateRateLimits tenRemaining 1000999 limiter) = Some m
       ∧ 1000 ≤ m
       ∧ 5000 < 10 * (m + 1)
       ∧ (1000 * 10 ≤ 5000 → 10 * m ≤ 5000)
       ∧ reservoir (updateRateLimits tenRemaining 1000999 limiter) = 10.
Proof.
  apply (X5_interval_spreads_remaining_calls tenRemaining 1000999 limiter 10 5000).
  - reflexivity.
  - reflexivity.
  - lia.
Defined.

(** X6. A response without the two rate limit headers, read at any clock
    not before 1970, leaves the limiter as it was; so does any response
    that reports nothing remaining and a reset that is not ahead. *)
Theorem X6_no_headers_no_change (h : Headers) (dateNow : Z) (l : Settings) :
  (x_ratelimit_remaining h = None → x_ratelimit_reset h = None → 0 ≤ dateNow →
   updateRateLimits h dateNow l = l)
  ∧ (∀ remaining resetInMs,
       remainingOf h = Some remaining → resetInMsOf h dateNow = Some resetInMs →
       remaining ≤ 0 → resetInMs ≤ 0 →
       updateRateLimits h dateNow l = l).
Proof.
  split.
  - intros Hrem Hreset Hnow. unfold updateRateLimits, remainingOf, resetInMsOf.
    rewrite Hrem, Hreset. cbn [orZeroString truthy].
    change (parseInt "0") with (Some 0). cbn [gtZero fmap option_fmap option_map].
    change (0 <? 0) with false. cbv iota.
    rewrite floor_quotient_1000.
    assert (0 ≤ dateNow / 1000) by (apply Z.div_pos; lia).
    now assert ((0 <? (0 - dateNow / 1000) * 1000) = false) as -> by lia.
  - intros remaining resetInMs Hrem Hreset Hr Hi. unfold updateRateLimits.
    rewrite Hrem, Hreset. unfold gtZero.
    assert ((0 <? remaining) = false) as -> by lia.
    now assert ((0 <? resetInMs) = false) as -> by lia.
Qed.

Lemma X6_no_headers_no_change_witness :
  updateRateLimits (mkHeaders None None) 1000999 limiter = limiter.
Proof.
  apply (proj1 (X6_no_headers_no_change (mkHeaders None None) 1000999 limiter)).
  - reflexivity.
  - reflexivity.
  - lia.
Defined.

End LimiterMore.

(** ** The fold and the averages *)

Module AggregatorMore.
Import JS Lunar GitHub Views Scenarios.
Import AggregatorFacts.

(** *** Time of day *)

(** One commit adds one to exactly one of the four counters. *)
Lemma countTimeOfDay_total (hour : option Z) (t : TimeOfDay) :
  timeOfDayTotal (countTimeOfDay hour t) = timeOfDayTotal t + 1.
Proof.
  unfold countTimeOfDay, timeOfDayTotal.
  destruct hour as [hr|]; [| simpl; lia].
  repeat match goal with
         | |- context [if ?b then _ else _] => destruct b
         end; simpl; lia.
Qed.

(** *** The sizes *)

Lemma addDetails_skip (h : Host) (c : GitHubCommitResponse)
    (d : DetailedCommitResponse) (s : CommitStats) :
  truthyTotal d = None → addDetails h c d s = s.
Proof. intros H. unfold addDetails. now rewrite H. Qed.

Lemma addDetails_fields (h : Host) (c : GitHubCommitResponse)
    (d : DetailedCommitResponse) (s : CommitStats) (size : Z) (st : DiffStats) :
  truthyTotal d = Some size → stats d = Some st →
  averageCommitSize (addDetails h c d s)
  = <[getLunarPhase (commitDate h c)
      := orZero (averageCommitSize s) (getLunarPhase (commitDate h c)) + size]>
      (averageCommitSize s)
  ∧ totalAdditions (addDetails h c d s) = totalAdditions s + default 0 (additions st)
  ∧ totalDeletions (addDetails h c d s) = totalDeletions s + default 0 (deletions st).
Proof. intros Ht Hs. unfold addDetails. now rewrite Ht, Hs. Qed.

Lemma sizesOf_cons (c : GitHubCommitResponse) (d : DetailedCommitResponse)
    (l : list (GitHubCommitResponse * DetailedCommitResponse)) :
  sizesOf ((c, d) :: l)
  = match truthyTotal d with Some size => size :: sizesOf l | None => sizesOf l end.
Proof. reflexivity. Qed.

Lemma additionsOf_cons (c : GitHubCommitResponse) (d : DetailedCommitResponse)
    (l : list (GitHubCommitResponse * DetailedCommitResponse)) :
  additionsOf ((c, d) :: l)
  = match truthyTotal d, stats d with
    | Some _, Some st => default 0 (additions st) :: additionsOf l
    | _, _ => additionsOf l
    end.
Proof.
  unfold additionsOf. cbn. destruct (truthyTotal d); [| reflexivity].
  now destruct (stats d).
Qed.

(** X8. After any sequence of detailed commits is folded, the size of
    [largestCommit] is the largest of the size it had and the sizes
    folded: it never decreases, and no commit folded is larger. *)
Theorem X8_largest_is_the_maximum (h : Host)
    (l : list (GitHubCommitResponse * DetailedCommitResponse)) (s : CommitStats) :
  lc_size (largestCommit (foldl (fun s cd => addDetails h (fst cd) (snd cd) s) s l))
  = foldl Z.max (lc_size (largestCommit s)) (sizesOf l).
Proof.
  revert s. induction l as [|[c d] l IH]; intros s; [reflexivity |].
  cbn [foldl fst snd]. rewrite IH, addDetails_largest, sizesOf_cons.
  destruct (truthyTotal d) as [size|]; cbn [foldl]; [| reflexivity].
  f_equal. destruct (lc_size (largestCommit s) <? size) eqn:E; simpl; lia.
Qed.

Lemma sumList_cons (x : Z) (l : list Z) : sumList (x :: l) = x + sumList l.
Proof. reflexivity. Qed.

(** X9. After any sequence of detailed commits is folded, the running
    sums of [averageCommitSize] have grown, over all phases together, by
    the sum of the sizes folded, and [totalAdditions] by the sum of the
    additions of the commits that have a size; a commit without a size
    changes nothing. *)
Theorem X9_sizes_add_up (h : Host)
    (l : list (GitHubCommitResponse * DetailedCommitResponse)) (s : CommitStats) :
  sumValues (averageCommitSize (foldl (fun s cd => addDetails h (fst cd) (snd cd) s) s l))
  = sumValues (averageCommitSize s) + sumList (sizesOf l)
  ∧ totalAdditions (foldl (fun s cd => addDetails h (fst cd) (snd cd) s) s l)
    = totalAdditions s + sumList (additionsOf l).
Proof.
  revert s. induction l as [|[c d] l IH]; intros s; [simpl; lia |].
  cbn [foldl fst snd]. destruct (IH (addDetails h c d s)) as [-> ->].
  rewrite sizesOf_cons, additionsOf_cons.
  destruct (truthyTotal d) as [size|] eqn:Ht.
  - destruct (truthyTotal_stats d size Ht) as [st Hst]. rewrite Hst.
    destruct (addDetails_fields h c d s size st Ht Hst) as (-> & -> & _).
    rewrite sumValues_insert, !sumList_cons. lia.
  - rewrite addDetails_skip by exact Ht. lia.
Qed.

End AggregatorMore.

(** ** The run *)

Module PipelineMore.
Import JS Lunar GitHub Pipeline Views Scenarios.
Import LunarFacts AggregatorFacts PipelineFacts AggregatorMore.

(** *** The accumulator during a run *)

Lemma accounted_initial : accounted initialRun.
Proof.
  constructor; simpl.
  - reflexivity.
  - intros k v H. now rewrite lookup_empty in H.
  - intros k [v H]. now rewrite lookup_empty in H.
  - constructor.
Qed.

Lemma accounted_same (r r' : Run) :
  run_stats r' = run_stats r → totalCommits r' = totalCommits r →
  events r' = events r → accounted r → accounted r'.
Proof.
  intros Hs Ht He [H1 H2 H3 H4]. constructor; rewrite ?Hs, ?Ht, ?He; auto.
Qed.

Lemma accounted_emit (e : Event) (r : Run) :
  snapshotTimed e → accounted r → accounted (emit e r).
Proof.
  intros He [H1 H2 H3 H4]. constructor; simpl; auto.
  apply Forall_app. split; [exact H4 | now constructor].
Qed.

Lemma accounted_sendProgress (env : Env) (site : Site) (msg : string)
    (p : option (Z * Z * option StatsSnapshot)) (r : Run) :
  (∀ cur tot sn, p = Some (cur, tot, Some sn) →
     timeOfDayTotal (snap_timeOfDay sn) = snap_totalCommits sn) →
  accounted r → accounted (sendProgress env site msg p r).
Proof.
  intros Hp Hr. unfold sendProgress.
  destruct (progressController env); [| exact Hr].
  apply accounted_emit; [| exact Hr].
  unfold snapshotTimed. simpl.
  destruct p as [[[cur tot] [sn|]]|]; simpl; eauto.
Qed.

Lemma accounted_repositoryProgress (env : Env) (site : Site) (msg : string)
    (nRepos : Z) (r : Run) :
  accounted r → accounted (sendProgress env site msg (repositoryProgress nRepos r) r).
Proof.
  intros Hr. apply accounted_sendProgress; [| exact Hr].
  unfold repositoryProgress. intros cur tot sn [= _ _ <-]. simpl. apply Hr.
Qed.

Lemma orZero_nonneg (m : gmap string Z) (k : string) :
  (∀ k v, m !! k = Some v → 1 ≤ v) → 0 ≤ orZero m k.
Proof.
  intros H. unfold orZero. destruct (m !! k) as [v|] eqn:E; simpl; [| lia].
  specialize (H k v E). lia.
Qed.

(** One commit counted. *)
Lemma accounted_countCommit (env : Env) (c : GitHubCommitResponse) (r : Run) :
  accounted r →
  accounted {| run_stats := countCommit (host env) c (run_stats r);
               processedRepos := processedRepos r;
               totalCommits := totalCommits r + 1;
               events := events r |}.
Proof.
  intros [H1 H2 H3 H4]. constructor; simpl.
  - rewrite countTimeOfDay_total. lia.
  - intros k v. rewrite lookup_insert_Some. intros [[<- <-] | [Hne Hk]].
    + split; [apply getLunarPhase_label |].
      assert (0 ≤ orZero (commitsByPhase (run_stats r))
                    (getLunarPhase (commitDate (host env) c)))
        by (apply orZero_nonneg; intros k v Hk; now apply (H2 k v)).
      lia.
    + now apply H2.
  - intros k Hk. rewrite lookup_insert_is_Some'. right. now apply H3.
  - exact H4.
Qed.

Lemma accounted_processBasic (env : Env) (nRepos : Z) (r : Run)
    (c : GitHubCommitResponse) :
  accounted r → accounted (processBasic env nRepos r c).
Proof.
  intros Hr. unfold processBasic. cbv zeta.
  pose proof (accounted_countCommit env c r Hr) as H1.
  match goal with |- context [if ?b then _ else _] => destruct b end;
    [now apply accounted_repositoryProgress | exact H1].
Qed.

(** After the first loop every commit of it has a count under its
    phase. *)
Lemma processBasic_counts (env : Env) (nRepos : Z)
    (commits : list GitHubCommitResponse) (r : Run) (k : string) :
  is_Some (commitsByPhase (run_stats r) !! k)
  ∨ (∃ c, c ∈ commits ∧ k = phaseOf (host env) c) →
  is_Some (commitsByPhase (run_stats (foldl (processBasic env nRepos) r commits)) !! k).
Proof.
  revert r. induction commits as [|c commits IH]; intros r H; simpl.
  - destruct H as [H | (c & Hc & _)]; [exact H | now apply elem_of_nil in Hc].
  - apply IH. destruct (processBasic_state env nRepos r c) as (-> & _ & _).
    unfold countCommit. simpl. rewrite lookup_insert_is_Some'.
    destruct H as [H | (c' & Hc & ->)]; [left; now right |].
    apply elem_of_cons in Hc as [-> | Hc]; [left; now left | right; eauto].
Qed.

(** The sizes of a commit that has a count under its phase. *)
Lemma addDetails_sized (h : Host) (c : GitHubCommitResponse)
    (d : DetailedCommitResponse) (s : CommitStats) :
  is_Some (commitsByPhase s !! phaseOf h c) →
  (∀ k, is_Some (averageCommitSize s !! k) → is_Some (commitsByPhase s !! k)) →
  ∀ k, is_Some (averageCommitSize (addDetails h c d s) !! k) →
       is_Some (commitsByPhase (addDetails h c d s) !! k).
Proof.
  intros Hc Hs k. rewrite (proj1 (addDetails_frame h c d s)).
  destruct (truthyTotal d) as [size|] eqn:Ht.
  - destruct (truthyTotal_stats d size Ht) as [st Hst].
    rewrite (proj1 (addDetails_fields h c d s size st Ht Hst)).
    rewrite lookup_insert_is_Some'. intros [<- | Hk]; [exact Hc | now apply Hs].
  - rewrite addDetails_skip by exact Ht. apply Hs.
Qed.

Lemma addDetails_fold_sized (h : Host)
    (l : list (GitHubCommitResponse * DetailedCommitResponse)) (s : CommitStats) :
  (∀ cd, cd ∈ l → is_Some (commitsByPhase s !! phaseOf h (fst cd))) →
  (∀ k, is_Some (averageCommitSize s !! k) → is_Some (commitsByPhase s !! k)) →
  ∀ k, is_Some (averageCommitSize
                  (foldl (fun s cd => addDetails h (fst cd) (snd cd) s) s l) !! k) →
       is_Some (commitsByPhase s !! k).
Proof.
  revert s. induction l as [|[c d] l IH]; intros s Hl Hs k; [apply Hs |].
  cbn [foldl fst snd]. intros Hk.
  rewrite <- (proj1 (addDetails_frame h c d s)).
  apply IH; [| | exact Hk].
  - intros cd Hcd. rewrite (proj1 (addDetails_frame h c d s)).
    apply Hl. now right.
  - apply addDetails_sized; [| exact Hs]. apply (Hl (c, d)). now left.
Qed.

Lemma accounted_processBatch (env : Env) (repo : GitHubRepo) (r : Run)
    (batch : list GitHubCommitResponse) :
  (∀ c, c ∈ batch → is_Some (commitsByPhase (run_stats r) !! phaseOf (host env) c)) →
  accounted r → accounted (processBatch env repo r batch).
Proof.
  intros Hb [H1 H2 H3 H4].
  destruct (processBatch_frame env repo r batch) as [Hc Ht].
  destruct (processBatch_counters env repo r batch) as (Hn & _ & He).
  constructor; rewrite ?Hc, ?Ht, ?Hn; auto.
  - intros k. rewrite processBatch_stats.
    destruct (promiseAll _) as [results|]; [| apply H3].
    apply addDetails_fold_sized; [| exact H3].
    intros [c d] Hcd. apply Hb. simpl. now apply elem_of_zip_l in Hcd.
  - rewrite He. apply Forall_app. split; [exact H4 |].
    apply Forall_forall. intros e He'.
    apply list_elem_of_In, in_map_iff in He' as (c & <- & _). exact I.
Qed.

Lemma batches_subset {A : Type} (l b : list A) (x : A) :
  In b (batches l) → In x b → In x l.
Proof.
  intros Hb Hx. rewrite <- (batches_concat l). apply in_concat. eauto.
Qed.

Lemma accounted_batches (env : Env) (repo : GitHubRepo)
    (bs : list (list GitHubCommitResponse)) (r : Run) :
  (∀ b c, In b bs → c ∈ b →
     is_Some (commitsByPhase (run_stats r) !! phaseOf (host env) c)) →
  accounted r → accounted (foldl (processBatch env repo) r bs).
Proof.
  revert r. induction bs as [|b bs IH]; intros r Hbs Hr; simpl; [exact Hr |].
  apply IH.
  - intros b' c Hb' Hc. rewrite (proj1 (processBatch_frame env repo r b)).
    apply (Hbs b' c); [now right | exact Hc].
  - apply accounted_processBatch; [| exact Hr].
    intros c Hc. apply (Hbs b c); [now left | exact Hc].
Qed.

Lemma accounted_foldl {B : Type} (f : Run → B → Run) (l : list B) (r : Run) :
  (∀ r x, accounted r → accounted (f r x)) → accounted r → accounted (foldl f r l).
Proof.
  intros Hf. revert r. induction l as [|x l IH]; intros r Hr; simpl; auto.
Qed.

Lemma accounted_processRepository (env : Env) (username : string)
    (userEmails : list string) (nRepos : Z) (r : Run) (repo : GitHubRepo) :
  accounted r → accounted (processRepository env username userEmails nRepos r repo).
Proof.
  intros Hr. unfold processRepository. cbv zeta.
  set (r3 := emit (Requested (ListCommits repo)) _).
  assert (accounted r3) as H3.
  { apply accounted_emit; [exact I |]. apply accounted_repositoryProgress.
    eapply accounted_same; [| | | exact Hr]; reflexivity. }
  destruct (listCommits env repo) as [commits | error].
  - set (userCommits := filter _ commits).
    apply accounted_batches.
    + intros b c Hb Hc. apply processBasic_counts. right. exists c.
      split; [| reflexivity].
      apply list_elem_of_In, (batches_subset userCommits b); [exact Hb |].
      now apply list_elem_of_In.
    + apply accounted_foldl; [intros; now apply accounted_processBasic | exact H3].
  - unfold onRepositoryError.
    repeat match goal with
           | |- context [if ?b then _ else _] => destruct b
           end; try exact H3.
    apply accounted_emit; [exact I | exact H3].
Qed.

(** The averages step keeps the counts and the keys of the sizes. *)
Lemma accounted_finalize (r : Run) :
  accounted r → accounted (withStats (finalize (run_stats r)) r).
Proof.
  intros [H1 H2 H3 H4]. constructor; [exact H1 | exact H2 | | exact H4].
  intros k Hk. apply H3. revert Hk.
  change (run_stats (withStats (finalize (run_stats r)) r))
    with (finalize (run_stats r)).
  now rewrite finalize_lookup, fmap_is_Some.
Qed.

(** Every run of [fetchUserCommits] ends with the accumulator accounted
    for. *)
Lemma fetchUserCommits_accounted (env : Env) (username : string) :
  accounted (fst (fetchUserCommits env username)).
Proof.
  unfold fetchUserCommits.
  assert (∀ site msg r, accounted r → accounted (sendProgress env site msg None r))
    as Hmsg by (intros; now apply accounted_sendProgress).
  assert (∀ q r, accounted r → accounted (emit (Requested q) r))
    as Hreq by (intros; now apply accounted_emit).
  pose proof accounted_initial as H0.
  destruct (listEmailsForAuthenticatedUser env) as [emails | error]; simpl.
  2: { now apply Hmsg, Hreq, Hmsg, Hmsg. }
  destruct (listForAuthenticatedUser env) as [repos | error]; simpl.
  2: { now apply Hmsg, Hreq, Hmsg, Hmsg, Hreq, Hmsg, Hmsg. }
  unfold analyzeRepositories. apply Hmsg, accounted_finalize.
  apply accounted_foldl; [intros; now apply accounted_processRepository |].
  now apply Hmsg, Hreq, Hmsg, Hmsg, Hreq, Hmsg, Hmsg.
Qed.

(** *** The counts a reader of [LUNAR_PHASES] sees *)

Lemma sumValues_delete (m : gmap string Z) (k : string) :
  sumValues m = orZero m k + sumValues (delete k m).
Proof.
  unfold orZero. destruct (m !! k) as [x|] eqn:Hk; simpl.
  - rewrite <- (insert_delete_id m k x Hk) at 1.
    apply sumValues_insert_fresh, lookup_delete_eq.
  - now rewrite delete_id.
Qed.

Lemma sumOver_cons (k : string) (names : list string) (m : gmap string Z) :
  sumOver (k :: names) m = orZero m k + sumOver names m.
Proof. reflexivity. Qed.

Lemma sumOver_ext (names : list string) (m m' : gmap string Z) :
  (∀ k, In k names → m !! k = m' !! k) → sumOver names m = sumOver names m'.
Proof.
  induction names as [|k names IH]; intros H; [reflexivity |].
  rewrite !sumOver_cons. unfold orZero. rewrite (H k) by now left.
  rewrite IH; [reflexivity |]. intros j Hj. apply H. now right.
Qed.

(** Summing [m[name] || 0] over a list of distinct names that holds
    every key of [m] gives the sum of the values of [m]. *)
Lemma sumOver_sumValues (names : list string) (m : gmap string Z) :
  List.NoDup names →
  (∀ k, is_Some (m !! k) → In k names) →
  sumOver names m = sumValues m.
Proof.
  intros Hnd. revert m. induction Hnd as [|k names Hk Hnd IH]; intros m Hkeys.
  - assert (m = ∅) as ->.
    { apply map_empty. intros i. destruct (m !! i) eqn:E; [| reflexivity].
      destruct (Hkeys i); eauto. }
    now rewrite sumValues_empty.
  - rewrite sumOver_cons, (sumValues_delete m k). f_equal.
    rewrite <- (IH (delete k m)).
    + apply sumOver_ext. intros j Hj. rewrite lookup_delete_ne; [reflexivity |].
      intros ->. contradiction.
    + intros j Hj. destruct (decide (k = j)) as [-> | Hne].
      * rewrite lookup_delete_eq in Hj. now destruct Hj.
      * rewrite lookup_delete_ne in Hj by exact Hne.
        destruct (Hkeys j Hj); [congruence | assumption].
Qed.

Lemma LUNAR_PHASE_NAMES_NoDup : List.NoDup LUNAR_PHASE_NAMES.
Proof.
  unfold LUNAR_PHASE_NAMES.
  repeat (constructor; [simpl; intuition discriminate |]). constructor.
Qed.

(** X10. At the end of every run of [fetchUserCommits], and in every
    snapshot it sent, the four time of day counters sum to the number of
    commits counted: each commit is in exactly one bucket. *)
Theorem X10_time_of_day_sums_to_total (env : Env) (username : string) :
  timeOfDayTotal (timeOfDay (run_stats (fst (fetchUserCommits env username))))
  = totalCommits (fst (fetchUserCommits env username))
  ∧ Forall snapshotTimed (events (fst (fetchUserCommits env username))).
Proof.
  destruct (fetchUserCommits_accounted env username) as [H1 _ _ H4]. now split.
Qed.

(** X11. At the end of every run of [fetchUserCommits] every key of
    [commitsByPhase] is a name of [LUNAR_PHASES] and has a count of at
    least one; so the counts read name by name from [LUNAR_PHASES], as
    the dashboard reads them, sum to the number of commits counted. *)
Theorem X11_phase_counts_cover_all_commits (env : Env) (username : string) :
  (∀ k v,
     commitsByPhase (run_stats (fst (fetchUserCommits env username))) !! k = Some v →
     In k LUNAR_PHASE_NAMES ∧ 1 ≤ v)
  ∧ sumOver LUNAR_PHASE_NAMES
      (commitsByPhase (run_stats (fst (fetchUserCommits env username))))
    = totalCommits (fst (fetchUserCommits env username)).
Proof.
  destruct (fetchUserCommits_accounted env username) as [_ H2 _ _].
  split; [exact H2 |].
  rewrite sumOver_sumValues.
  - apply (fetchUserCommits_finished env username).
  - apply LUNAR_PHASE_NAMES_NoDup.
  - intros k [v Hk]. now apply (H2 k v).
Qed.

(** X12. In the statistics a run of [fetchUserCommits] ends with, every
    phase that has an average size has a count of at least one: the
    sizes come from commits the first loop counted, so the averages step
    divides by the true count and its guard against a missing count is
    never used. *)
Theorem X12_every_average_has_a_count (env : Env) (username : string)
    (k : string) (a : Z) :
  averageCommitSize (run_stats (fst (fetchUserCommits env username))) !! k = Some a →
  ∃ v, commitsByPhase (run_stats (fst (fetchUserCommits env username))) !! k = Some v
       ∧ 1 ≤ v
       ∧ orOne (commitsByPhase (run_stats (fst (fetchUserCommits env username)))) k = v.
Proof.
  intros Ha.
  destruct (fetchUserCommits_accounted env username) as [_ H2 H3 _].
  destruct (H3 k) as [v Hv]; [eauto |].
  destruct (H2 k v Hv) as [_ Hpos].
  exists v. split; [exact Hv | split; [exact Hpos |]].
  unfold orOne. rewrite Hv.
  now assert ((v =? 0) = false) as -> by lia.
Qed.

(** The twelve commits of 42 lines, all under one phase. *)
Lemma X12_every_average_has_a_count_witness :
  ∃ v, commitsByPhase (run_stats (fst (fetchUserCommits envTwelveCommits "octocat")))
         !! "Waning Gibbous" = Some v
       ∧ 1 ≤ v
       ∧ orOne (commitsByPhase (run_stats (fst (fetchUserCommits envTwelveCommits "octocat"))))
           "Waning Gibbous" = v.
Proof.
  apply (X12_every_average_has_a_count envTwelveCommits "octocat" "Waning Gibbous" 42).
  vm_compute. reflexivity.
Defined.

(** *** The repositories of a run *)

Lemma processedRepos_onRepositoryError (env : Env) (repo : GitHubRepo)
    (error : RequestError) (r : Run) :
  processedRepos (onRepositoryError env repo error r) = processedRepos r
  ∧ run_stats (onRepositoryError env repo error r) = run_stats r
  ∧ totalCommits (onRepositoryError env repo error r) = totalCommits r.
Proof.
  unfold onRepositoryError.
  repeat match goal with
         | |- context [if ?b then _ else _] => destruct b
         end; easy.
Qed.

Lemma processedRepos_foldl {B : Type} (f : Run → B → Run) (l : list B) (r : Run) :
  (∀ r x, processedRepos (f r x) = processedRepos r) →
  processedRepos (foldl f r l) = processedRepos r.
Proof.
  intros Hf. revert r. induction l as [|x l IH]; intros r; simpl; [reflexivity |].
  now rewrite IH.
Qed.

(** One iteration counts one repository. *)
Lemma processedRepos_processRepository (env : Env) (username : string)
    (userEmails : list string) (nRepos : Z) (r : Run) (repo : GitHubRepo) :
  processedRepos (processRepository env username userEmails nRepos r repo)
  = processedRepos r + 1.
Proof.
  unfold processRepository. cbv zeta.
  destruct (listCommits env repo) as [commits | error].
  - rewrite processedRepos_foldl by (intros; apply processBatch_counters).
    rewrite processedRepos_foldl by (intros; apply processBasic_state).
    simpl. now rewrite (proj2 (proj2 (sendProgress_state _ _ _ _ _))).
  - rewrite (proj1 (processedRepos_onRepositoryError _ _ _ _)). simpl.
    now rewrite (proj2 (proj2 (sendProgress_state _ _ _ _ _))).
Qed.

(** *** The events each step adds *)

Lemma quiet_emit {A : Type} (f : Event → option A) (e : Event) (r : Run) :
  omap f (events (emit e r)) = omap f (events r) ++ option_list (f e).
Proof. simpl. rewrite omap_app. simpl. now destruct (f e). Qed.

Lemma quiet_sendProgress {A : Type} (f : Event → option A) (env : Env) (site : Site)
    (msg : string) (p : option (Z * Z * option StatsSnapshot)) (r : Run) :
  omap f (events (sendProgress env site msg p r))
  = omap f (events r)
    ++ (if progressController env
        then option_list (f (Enqueued site (progressData msg p))) else []).
Proof.
  unfold sendProgress. destruct (progressController env).
  - apply quiet_emit.
  - now rewrite app_nil_r.
Qed.

Lemma quiet_foldl {A B : Type} (f : Event → option A) (g : Run → B → Run)
    (l : list B) (r : Run) :
  (∀ r x, omap f (events (g r x)) = omap f (events r)) →
  omap f (events (foldl g r l)) = omap f (events r).
Proof.
  intros Hg. revert r. induction l as [|x l IH]; intros r; simpl; [reflexivity |].
  now rewrite IH.
Qed.


Lemma quiet_processBatch {A : Type} (f : Event → option A) (env : Env)
    (repo : GitHubRepo) (r : Run) (batch : list GitHubCommitResponse) :
  (∀ repo ref, f (Requested (GetCommit repo ref)) = None) →
  omap f (events (processBatch env repo r batch)) = omap f (events r).
Proof.
  intros Hf. rewrite (proj2 (proj2 (processBatch_counters env repo r batch))), omap_app.
  assert (omap f (map (fun c => Requested (GetCommit repo (sha c))) batch) = []) as ->.
  { induction batch as [|c batch IH]; simpl; [reflexivity |]. now rewrite Hf. }
  apply app_nil_r.
Qed.

Lemma silent_status {A : Type} (f : Event → option A) (env : Env) (site : Site)
    (msg : string) (r : Run) :
  silent f → omap f (events (sendProgress env site msg None r)) = omap f (events r).
Proof.
  intros (Hm & _). rewrite quiet_sendProgress, Hm.
  destruct (progressController env); apply app_nil_r.
Qed.

Ltac through :=
  repeat first
    [ rewrite (proj1 (sendProgress_state _ _ _ _ _))
    | rewrite (proj1 (proj2 (sendProgress_state _ _ _ _ _)))
    | rewrite (proj2 (proj2 (sendProgress_state _ _ _ _ _)))
    | progress cbn [run_stats processedRepos totalCommits emit initialRun withStats] ].

(** *** The two ways a run ends *)

(** With both listings answered the run is the loop over the non-fork
    repositories, started on empty counters after events that hold only
    status messages and the two listings. *)
Lemma fetchUserCommits_returned (env : Env) (username : string)
    (emails : list GitHubEmail) (repos : list GitHubRepo) :
  listEmailsForAuthenticatedUser env = Ok emails →
  listForAuthenticatedUser env = Ok repos →
  ∃ r6,
    fst (fetchUserCommits env username)
    = analyzeRepositories env username (userEmailsOf env) (reposToAnalyze env) r6
    ∧ snd (fetchUserCommits env username)
      = Returned (run_stats (fst (fetchUserCommits env username)))
    ∧ run_stats r6 = emptyStats
    ∧ processedRepos r6 = 0
    ∧ totalCommits r6 = 0
    ∧ ∀ (A : Type) (f : Event → option A), silent f → omap f (events r6) = [].
Proof.
  intros He Hr. unfold fetchUserCommits, userEmailsOf, reposToAnalyze.
  rewrite He, Hr. cbv zeta. eexists. split; [reflexivity |].
  split; [reflexivity |]. through. repeat split.
  intros A f Hf. pose proof Hf as (_ & H1 & H2).
  rewrite silent_status, quiet_emit, !silent_status, quiet_emit, !silent_status by exact Hf.
  now rewrite H1, H2.
Qed.

(** With a listing refused the run ends on the error message, after
    events that hold only status messages and the listings. *)
Lemma fetchUserCommits_thrown (env : Env) (username : string) (e : RequestError) :
  startFailure env = Some e →
  ∃ r5,
    fst (fetchUserCommits env username)
    = sendProgress env AtError ("Error: " ++ errorMessage e) None r5
    ∧ snd (fetchUserCommits env username) = Thrown e
    ∧ run_stats r5 = emptyStats
    ∧ processedRepos r5 = 0
    ∧ totalCommits r5 = 0
    ∧ ∀ (A : Type) (f : Event → option A), silent f → omap f (events r5) = [].
Proof.
  unfold startFailure, fetchUserCommits.
  destruct (listEmailsForAuthenticatedUser env) as [emails | error].
  - destruct (listForAuthenticatedUser env) as [repos | error]; [discriminate |].
    intros [= ->]. cbv zeta. eexists. split; [reflexivity |].
    split; [reflexivity |]. through. repeat split.
    intros A f Hf. pose proof Hf as (_ & H1 & H2).
    rewrite quiet_emit, !silent_status, quiet_emit, !silent_status by exact Hf.
    now rewrite H1, H2.
  - intros [= ->]. cbv zeta. eexists. split; [reflexivity |].
    split; [reflexivity |]. through. repeat split.
    intros A f Hf. pose proof Hf as (_ & H1 & H2).
    rewrite quiet_emit, !silent_status by exact Hf.
    now rewrite H1.
Qed.

Lemma startFailure_cases (env : Env) :
  (∃ e, startFailure env = Some e ∧ reposToAnalyze env = [])
  ∨ (∃ emails repos,
       listEmailsForAuthenticatedUser env = Ok emails
       ∧ listForAuthenticatedUser env = Ok repos
       ∧ startFailure env = None).
Proof.
  unfold startFailure, reposToAnalyze.
  destruct (listEmailsForAuthenticatedUser env) as [emails | error]; [| left; eauto].
  destruct (listForAuthenticatedUser env) as [repos | error]; [| left; eauto].
  right. eauto.
Qed.

(** *** The waits of a run *)







(** *** The commits a run counts *)

Lemma sameCounts_refl (s : CommitStats) : sameCounts s s.
Proof. now split. Qed.

Lemma sameCounts_trans (s1 s2 s3 : CommitStats) :
  sameCounts s1 s2 → sameCounts s2 s3 → sameCounts s1 s3.
Proof. intros [H1 H2] [H3 H4]. split; congruence. Qed.

Lemma sameCounts_countCommit (h : Host) (c : GitHubCommitResponse) (s s' : CommitStats) :
  sameCounts s s' → sameCounts (countCommit h c s) (countCommit h c s').
Proof. intros [H1 H2]. unfold countCommit. split; simpl; now rewrite ?H1, ?H2. Qed.

Lemma sameCounts_fold (h : Host) (l : list GitHubCommitResponse) (s s' : CommitStats) :
  sameCounts s s' →
  sameCounts (foldl (fun s c => countCommit h c s) s l)
             (foldl (fun s c => countCommit h c s) s' l).
Proof.
  revert s s'. induction l as [|c l IH]; intros s s' H; simpl; [exact H |].
  now apply IH, sameCounts_countCommit.
Qed.

Lemma processBatch_fold_counts (env : Env) (repo : GitHubRepo)
    (bs : list (list GitHubCommitResponse)) (r : Run) :
  sameCounts (run_stats (foldl (processBatch env repo) r bs)) (run_stats r).
Proof.
  revert r. induction bs as [|b bs IH]; intros r; simpl; [apply sameCounts_refl |].
  eapply sameCounts_trans; [apply IH |]. split; apply processBatch_frame.
Qed.

(** *** The batches of the detail loop *)

Lemma batchesFrom_length {A : Type} (fuel : nat) (l : list A) :
  (length l ≤ fuel)%nat →
  length (batchesFrom fuel l) = ((length l + 4) / 5)%nat.
Proof.
  revert l. induction fuel as [|fuel IH]; intros l Hl.
  - destruct l; [reflexivity | simpl in Hl; lia].
  - destruct l as [|a l]; [reflexivity |].
    cbn [batchesFrom length]. rewrite IH.
    + rewrite length_drop. cbn [length]. unfold BATCH_SIZE.
      destruct (Nat.le_gt_cases 5 (S (length l))) as [Hge | Hlt].
      * replace (S (length l) + 4)%nat with ((S (length l) - 5 + 4) + 1 * 5)%nat by lia.
        rewrite Nat.div_add by lia. lia.
      * replace (S (length l) - 5)%nat with 0%nat by lia.
        rewrite (Nat.div_small (0 + 4)) by lia.
        apply Nat.div_unique with (r := (S (length l) + 4 - 5)%nat); lia.
    + rewrite length_drop. cbn [length] in *. unfold BATCH_SIZE. lia.
Qed.

(** X18. The batches of the detail loop cut the commits of a
    repository in order: put end to end they give the commits back,
    each batch holds between one and five commits, all but the last
    hold five, and [n] commits make the integer part of [(n + 4) / 5]
    batches. *)
Theorem X18_batches_partition_the_commits (A : Type) (l : list A) :
  concat (batches l) = l
  ∧ Forall (fun b => (1 ≤ length b ≤ 5)%nat) (batches l)
  ∧ length (batches l) = ((length l + 4) / 5)%nat
  ∧ ∀ i b, (S i < length (batches l))%nat → batches l !! i = Some b → length b = 5%nat.
Proof.
  split; [apply batches_concat |].
  split; [eapply Forall_impl; [apply batches_size |]; unfold BATCH_SIZE; simpl; lia |].
  split; [apply batchesFrom_length; lia |].
  unfold batches. generalize (Nat.le_refl (length l)).
  generalize (length l) at 2 3 4 as fuel. intros fuel. revert l.
  induction fuel as [|fuel IH]; intros l Hl i b Hi Hb; [simpl in Hi; lia |].
  destruct l as [|a l]; [simpl in Hi; lia |].
  cbn [batchesFrom] in Hi, Hb.
  assert (length (drop BATCH_SIZE (a :: l)) ≤ fuel)%nat as Hd
    by (rewrite length_drop; cbn [length] in *; unfold BATCH_SIZE; lia).
  destruct i as [|i].
  - injection Hb as <-. cbn [length]. rewrite length_take.
    assert (drop BATCH_SIZE (a :: l) ≠ []) as Hne.
    { intros E. rewrite E in Hi. destruct fuel; simpl in Hi; lia. }
    assert (length (drop BATCH_SIZE (a :: l)) ≠ 0%nat) as Hlen
      by now destruct (drop BATCH_SIZE (a :: l)).
    rewrite length_drop in Hlen. cbn [length] in Hlen. unfold BATCH_SIZE in Hlen. lia.
  - cbn [lookup list_lookup] in Hb. cbn [length] in Hi.
    apply (IH _ Hd i b); [lia | exact Hb].
Qed.

Lemma X18_batches_partition_the_commits_witness :
  length (take 5 twelveRefs) = 5%nat.
Proof.
  apply (proj2 (proj2 (proj2 (X18_batches_partition_the_commits string twelveRefs)))
           0%nat).
  - vm_compute. lia.
  - reflexivity.
Defined.

(** *** The progress objects of a run *)

Lemma percentage_range (cur tot : Z) :
  1 ≤ cur ≤ tot → 0 ≤ Math_round (inject_Z cur / inject_Z tot * 100) ≤ 100.
Proof.
  intros H. unfold Math_round.
  assert (0 <= inject_Z cur / inject_Z tot)%Q as Hlo.
  { apply Qle_shift_div_l.
    - change 0%Q with (inject_Z 0). rewrite <- Zlt_Qlt. lia.
    - rewrite Qmult_0_l. change 0%Q with (inject_Z 0). rewrite <- Zle_Qle. lia. }
  assert (inject_Z cur / inject_Z tot <= 1)%Q as Hhi.
  { clear Hlo. apply Qle_shift_div_r.
    - change 0%Q with (inject_Z 0). rewrite <- Zlt_Qlt. lia.
    - rewrite Qmult_1_l. rewrite <- Zle_Qle. lia. }
  set (q := (inject_Z cur / inject_Z tot)%Q) in *.
  split.
  - change 0 with (Qfloor 0). apply Qfloor_resp_le. lra.
  - apply Z.lt_succ_r. rewrite Zlt_Qlt.
    eapply Qle_lt_trans; [apply Qfloor_le |].
    change (inject_Z (Z.succ 100)) with 101%Q. lra.
Qed.

Lemma progresses_status (env : Env) (site : Site) (msg : string) (r : Run) :
  progresses (events (sendProgress env site msg None r)) = progresses (events r).
Proof.
  unfold progresses. rewrite quiet_sendProgress. simpl.
  destruct (progressController env); apply app_nil_r.
Qed.

Lemma paced_step (env : Env) (site : Site) (msg : string) (n : Z) (r : Run) :
  1 ≤ processedRepos r ≤ n →
  paced n r → paced n (sendProgress env site msg (repositoryProgress n r) r).
Proof.
  intros Hp H. unfold paced, progresses in *. rewrite quiet_sendProgress.
  apply Forall_app. split; [exact H |].
  destruct (progressController env); [| constructor].
  simpl. constructor; [| constructor].
  unfold withinScale. simpl. split; [exact Hp | split; [reflexivity |]].
  now apply percentage_range.
Qed.

Lemma paced_processBasic (env : Env) (n : Z) (r : Run) (commit : GitHubCommitResponse) :
  1 ≤ processedRepos r ≤ n → paced n r → paced n (processBasic env n r commit).
Proof.
  intros Hp H. unfold processBasic. cbv zeta.
  destruct (_ =? 0); [apply paced_step |]; assumption.
Qed.

Lemma paced_processBasic_fold (env : Env) (n : Z) (l : list GitHubCommitResponse)
    (r : Run) :
  1 ≤ processedRepos r ≤ n → paced n r → paced n (foldl (processBasic env n) r l).
Proof.
  revert r. induction l as [|c l IH]; intros r Hp H; simpl; [exact H |].
  apply IH.
  - now rewrite (proj2 (proj2 (processBasic_state env n r c))).
  - now apply paced_processBasic.
Qed.

Lemma progresses_onRepositoryError (env : Env) (repo : GitHubRepo)
    (error : RequestError) (r : Run) :
  progresses (events (onRepositoryError env repo error r)) = progresses (events r).
Proof.
  unfold onRepositoryError.
  repeat match goal with
         | |- context [if ?b then _ else _] => destruct b
         end; try reflexivity.
  unfold progresses. rewrite quiet_emit. apply app_nil_r.
Qed.

Lemma paced_processRepository (env : Env) (username : string)
    (userEmails : list string) (n : Z) (r : Run) (repo : GitHubRepo) :
  0 ≤ processedRepos r < n →
  paced n r → paced n (processRepository env username userEmails n r repo).
Proof.
  intros Hp H. unfold processRepository. cbv zeta.
  set (r1 := {| run_stats := run_stats r;
                processedRepos := processedRepos r + 1;
                totalCommits := totalCommits r;
                events := events r |}).
  assert (paced n (emit (Requested (ListCommits repo))
                     (sendProgress env AtRepository "Analyzing repositories"
                        (repositoryProgress n r1) r1))) as H3.
  { unfold paced, progresses. rewrite quiet_emit. simpl. rewrite app_nil_r.
    apply (paced_step env AtRepository _ n r1); [simpl; lia | exact H]. }
  destruct (listCommits env repo) as [commits | error].
  - unfold paced, progresses.
    rewrite quiet_foldl by (intros; now apply quiet_processBatch).
    apply paced_processBasic_fold; [| exact H3].
    through. simpl. lia.
  - unfold paced. now rewrite progresses_onRepositoryError.
Qed.

Lemma paced_loop (env : Env) (username : string) (userEmails : list string) (n : Z)
    (repos : list GitHubRepo) (r : Run) :
  0 ≤ processedRepos r →
  processedRepos r + Z.of_nat (length repos) ≤ n →
  paced n r →
  paced n (foldl (processRepository env username userEmails n) r repos).
Proof.
  revert r. induction repos as [|repo repos IH]; intros r H0 Hn H; simpl; [exact H |].
  cbn [length] in Hn. apply IH.
  - rewrite processedRepos_processRepository. lia.
  - rewrite processedRepos_processRepository. lia.
  - apply paced_processRepository; [lia | exact H].
Qed.

Lemma progresses_silent : silent (fun e => match e with
                                           | Enqueued _ d => data_progress d
                                           | _ => None
                                           end).
Proof. now repeat split. Qed.

(** X19. Every progress object a run of [fetchUserCommits] sends is
    within its scale: [total] is the number of non-fork repositories,
    [current] lies between 1 and [total], and [percentage] between 0 and
    100. *)
Theorem X19_progress_stays_within_its_scale (env : Env) (username : string) :
  Forall (fun p => 1 ≤ current p ≤ total p
                   ∧ total p = Z.of_nat (length (reposToAnalyze env))
                   ∧ 0 ≤ percentage p ≤ 100)
    (progresses (events (fst (fetchUserCommits env username)))).
Proof.
  change (paced (Z.of_nat (length (reposToAnalyze env)))
                (fst (fetchUserCommits env username))).
  destruct (startFailure_cases env) as [(e & He & Hn) | (emails & repos & He & Hr & _)].
  - destruct (fetchUserCommits_thrown env username e He) as (r5 & -> & _ & _ & _ & _ & Hq).
    unfold paced. rewrite progresses_status. unfold progresses.
    rewrite (Hq _ _ progresses_silent). constructor.
  - destruct (fetchUserCommits_returned env username emails repos He Hr)
      as (r6 & -> & _ & _ & Hp & _ & Hq).
    unfold analyzeRepositories. cbv zeta.
    unfold paced. rewrite progresses_status.
    change (events (withStats ?s ?x)) with (events x).
    apply paced_loop.
    + rewrite Hp. lia.
    + rewrite Hp. lia.
    + unfold paced, progresses. rewrite (Hq _ _ progresses_silent). constructor.
Qed.

End PipelineMore.

(** ** The two-pass analysis *)

Module DetailedMore.
Import JS Lunar GitHub Pipeline Detailed Views DetailViews Scenarios.
Import AggregatorFacts.

Lemma sumHours_insert (m : gmap (option Z) Z) (k : option Z) :
  sumHours (<[k := default 0 (m !! k) + 1]> m) = sumHours m + 1.
Proof.
  assert (∀ (m : gmap (option Z) Z) k v,
            m !! k = None → sumHours (<[k:=v]> m) = v + sumHours m) as Hfresh.
  { intros m0 k0 v Hk. unfold sumHours.
    apply (map_fold_insert_L (fun _ v acc => v + acc)); [| exact Hk].
    intros. lia. }
  destruct (m !! k) as [x|] eqn:Hk; simpl.
  - rewrite <- insert_delete_eq.
    rewrite Hfresh by apply lookup_delete_eq.
    rewrite <- (insert_delete_id m k x Hk) at 2.
    rewrite Hfresh by apply lookup_delete_eq. lia.
  - rewrite Hfresh by exact Hk. lia.
Qed.

Lemma multiplesOfTen_hit (n : Z) :
  0 ≤ n → Z.rem (n + 1) 10 = 0 → multiplesOfTen (n + 1) = multiplesOfTen n ++ [n + 1].
Proof.
  intros Hn Hrem. rewrite Z.rem_mod_nonneg in Hrem by lia.
  unfold multiplesOfTen.
  assert ((n + 1) / 10 = n / 10 + 1) as -> by
    (pose proof (Z.div_mod n 10); pose proof (Z.div_mod (n + 1) 10);
     pose proof (Z.mod_pos_bound n 10); lia).
  assert (0 ≤ n / 10) by (apply Z.div_pos; lia).
  rewrite Z2Nat.inj_add by lia. change (Z.to_nat 1) with 1%nat.
  rewrite Nat.add_1_r, seq_S, map_app. simpl. do 2 f_equal.
  pose proof (Z.div_mod n 10); pose proof (Z.div_mod (n + 1) 10);
    pose proof (Z.mod_pos_bound n 10). lia.
Qed.

Lemma multiplesOfTen_miss (n : Z) :
  0 ≤ n → Z.rem (n + 1) 10 ≠ 0 → multiplesOfTen (n + 1) = multiplesOfTen n.
Proof.
  intros Hn Hrem. rewrite Z.rem_mod_nonneg in Hrem by lia.
  unfold multiplesOfTen.
  assert ((n + 1) / 10 = n / 10) as -> by
    (pose proof (Z.div_mod n 10); pose proof (Z.div_mod (n + 1) 10);
     pose proof (Z.mod_pos_bound n 10); pose proof (Z.mod_pos_bound (n + 1) 10); lia).
  reflexivity.
Qed.

Lemma tallied_basicCommit (env : DetailEnv) (repo : GitHubRepo) (b : BasicRun)
    (commit : GitHubCommitResponse) :
  tallied env b →
  tallied env (basicCommit env repo b commit)
  ∧ b_totalCommits (basicCommit env repo b commit) = b_totalCommits b + 1.
Proof.
  intros [H0 H1 H2 H3]. split; [| reflexivity].
  unfold basicCommit. cbv zeta. constructor; cbn [b_totalCommits b_commitsByPhase
    b_commitsByHour b_calls].
  - lia.
  - rewrite sumValues_insert. lia.
  - rewrite sumHours_insert. lia.
  - destruct (onProgress env); cbn [andb]; [| exact H3].
    destruct (Z.rem (b_totalCommits b + 1) 10 =? 0) eqn:Hrem.
    + apply Z.eqb_eq in Hrem. unfold basicTotals in *.
      rewrite omap_app, H3. simpl. now rewrite multiplesOfTen_hit.
    + apply Z.eqb_neq in Hrem. rewrite H3. now rewrite multiplesOfTen_miss.
Qed.

Lemma tallied_basicCommits (env : DetailEnv) (repo : GitHubRepo)
    (commits : list GitHubCommitResponse) (b : BasicRun) :
  tallied env b →
  tallied env (foldl (basicCommit env repo) b commits)
  ∧ b_totalCommits (foldl (basicCommit env repo) b commits)
    = b_totalCommits b + Z.of_nat (length commits).
Proof.
  revert b. induction commits as [|c commits IH]; intros b H; simpl.
  - split; [exact H | lia].
  - destruct (tallied_basicCommit env repo b c H) as [H' Ht].
    destruct (IH _ H') as [H'' Ht']. split; [exact H'' |]. rewrite Ht', Ht. lia.
Qed.

Lemma tallied_basicRepos (env : DetailEnv) (repos : list GitHubRepo) (b b' : BasicRun) :
  basicRepos env repos b = Ok b' →
  tallied env b →
  tallied env b'
  ∧ b_totalCommits b' = b_totalCommits b + Z.of_nat (length (commitsOfAll env repos)).
Proof.
  revert b. induction repos as [|repo repos IH]; intros b Hb H.
  - injection Hb as <-. split; [exact H | simpl; lia].
  - cbn [basicRepos] in Hb.
    destruct (listAllCommits env repo) as [commits | error] eqn:El; [| discriminate].
    assert (commitsOfAll env (repo :: repos)
            = map (pair repo) commits ++ commitsOfAll env repos) as ->.
    { unfold commitsOfAll. cbn [map concat]. unfold commitsOf at 1. now rewrite El. }
    destruct (tallied_basicCommits env repo commits b H) as [H' Ht].
    destruct (IH _ Hb H') as [H'' Ht']. split; [exact H'' |].
    rewrite Ht', Ht, length_app, length_map. lia.
Qed.

(** X20. When [fetchBasicCommitStats] returns, its total is the number
    of commits listed for the non-fork repositories, the counts by phase
    and the counts by hour each sum to it, and the callback, if one is
    passed, was called at every tenth commit and at no other. *)
Theorem X20_basic_stats_tally (env : DetailEnv) (b : BasicRun) :
  fetchBasicCommitStats env = Ok b →
  b_totalCommits b = Z.of_nat (length (listedCommits env))
  ∧ sumValues (b_commitsByPhase b) = b_totalCommits b
  ∧ sumHours (b_commitsByHour b) = b_totalCommits b
  ∧ basicTotals (b_calls b)
    = (if onProgress env then multiplesOfTen (b_totalCommits b) else []).
Proof.
  unfold fetchBasicCommitStats, listedCommits.
  destruct (fetchUserRepos env) as [repos | error]; [| discriminate].
  intros Hb. apply tallied_basicRepos in Hb as [[H0 H1 H2 H3] Ht].
  - cbn [b_totalCommits] in Ht. rewrite Z.add_0_l in Ht. auto.
  - constructor; cbn [b_totalCommits b_commitsByPhase b_commitsByHour b_calls].
    + lia.
    + apply sumValues_empty.
    + apply map_fold_empty.
    + now destruct (onProgress env).
Qed.

Lemma X20_basic_stats_tally_witness :
  ∃ b, fetchBasicCommitStats detailEnvTwelve = Ok b
       ∧ b_totalCommits b = 12
       ∧ basicTotals (b_calls b) = [10].
Proof.
  eexists. split; [vm_compute; reflexivity |].
  match goal with
  | |- b_totalCommits ?b = _ ∧ _ =>
      destruct (X20_basic_stats_tally detailEnvTwelve b) as (Ht & _ & _ & Hc);
        [vm_compute; reflexivity |]
  end.
  split; [rewrite Ht | rewrite Hc]; vm_compute; reflexivity.
Defined.

(** *** The detail pass *)

Lemma detailCommit_sizes (env : DetailEnv) (total : Z) (repo : GitHubRepo)
    (d : DetailRun) (commit : GitHubCommitResponse) :
  let d' := detailCommit env total repo d commit in
  d_largestSize d'
  = foldl Z.max (d_largestSize d) (option_list (sizeOf env (repo, commit)))
  ∧ d_totalAdditions d' + d_totalDeletions d'
    = d_totalAdditions d + d_totalDeletions d
      + sumList (option_list (sizeOf env (repo, commit))).
Proof.
  cbv zeta. unfold detailCommit, sizeOf, sumList. cbn [fst snd].
  destruct (getCommitDetails env repo (sha commit)) as [details | error];
    simpl.
  - split; [| lia].
    destruct (d_largestSize d <? _) eqn:E.
    + apply Z.ltb_lt in E. lia.
    + apply Z.ltb_ge in E. lia.
  - split; [reflexivity | lia].
Qed.

Lemma foldl_max_app (a : Z) (l1 l2 : list Z) :
  foldl Z.max a (l1 ++ l2) = foldl Z.max (foldl Z.max a l1) l2.
Proof. apply foldl_app. Qed.

Lemma sumList_app (l1 l2 : list Z) : sumList (l1 ++ l2) = sumList l1 + sumList l2.
Proof.
  unfold sumList. induction l1 as [|x l1 IH]; simpl; [reflexivity |].
  rewrite IH. lia.
Qed.

Lemma detailCommits_sizes (env : DetailEnv) (total : Z) (repo : GitHubRepo)
    (commits : list GitHubCommitResponse) (d : DetailRun) :
  let d' := foldl (detailCommit env total repo) d commits in
  let sizes := detailSizes env (map (pair repo) commits) in
  d_largestSize d' = foldl Z.max (d_largestSize d) sizes
  ∧ d_totalAdditions d' + d_totalDeletions d'
    = d_totalAdditions d + d_totalDeletions d + sumList sizes
  ∧ processedCommits d' = processedCommits d + Z.of_nat (length commits).
Proof.
  revert d. induction commits as [|c commits IH]; intros d; cbv zeta.
  - simpl. unfold sumList. simpl. lia.
  - cbn [foldl map]. destruct (IH (detailCommit env total repo d c)) as (H1 & H2 & H3).
    cbv zeta in H1, H2, H3.
    destruct (detailCommit_sizes env total repo d c) as (H4 & H5). cbv zeta in H4, H5.
    assert (detailSizes env ((repo, c) :: map (pair repo) commits)
            = option_list (sizeOf env (repo, c))
              ++ detailSizes env (map (pair repo) commits)) as ->.
    { unfold detailSizes. simpl. now destruct (sizeOf env (repo, c)). }
    rewrite foldl_max_app, sumList_app, H1, H2, H3, H4, H5.
    rewrite DetailedFacts.detailCommit_processed. cbn [length]. lia.
Qed.

Lemma detailRepos_sizes (env : DetailEnv) (total : Z) (repos : list GitHubRepo)
    (d d' : DetailRun) :
  detailRepos env total repos d = Ok d' →
  let sizes := detailSizes env (commitsOfAll env repos) in
  d_largestSize d' = foldl Z.max (d_largestSize d) sizes
  ∧ d_totalAdditions d' + d_totalDeletions d'
    = d_totalAdditions d + d_totalDeletions d + sumList sizes
  ∧ processedCommits d'
    = processedCommits d + Z.of_nat (length (commitsOfAll env repos)).
Proof.
  revert d. induction repos as [|repo repos IH]; intros d Hd; cbv zeta.
  - injection Hd as <-. simpl. unfold sumList. simpl. lia.
  - cbn [detailRepos] in Hd.
    destruct (listAllCommits env repo) as [commits | error] eqn:El; [| discriminate].
    assert (commitsOfAll env (repo :: repos)
            = map (pair repo) commits ++ commitsOfAll env repos) as ->.
    { unfold commitsOfAll. cbn [map concat]. unfold commitsOf at 1. now rewrite El. }
    destruct (IH _ Hd) as (H1 & H2 & H3). cbv zeta in H1, H2, H3.
    destruct (detailCommits_sizes env total repo commits d) as (H4 & H5 & H6).
    cbv zeta in H4, H5, H6.
    unfold detailSizes in *. rewrite omap_app.
    rewrite foldl_max_app, sumList_app, H1, H2, H3, H4, H5, H6.
    rewrite length_app, length_map. lia.
Qed.

(** X21. When [fetchDetailedCommitStats] returns, the size of its
    largest commit is the largest of 0 and the sizes
    [(additions || 0) + (deletions || 0)] of the commits whose detail
    request was answered, its additions and deletions together are the
    sum of these sizes, and every listed commit was processed, answered
    or not: a rejected detail request adds nothing and does not end the
    run. *)
Theorem X21_detail_pass_totals (env : DetailEnv) (ds : DetailedStats) :
  fetchDetailedCommitStats env = Ok ds →
  let sizes := detailSizes env (listedCommits env) in
  d_largestSize (ds_detail ds) = foldl Z.max 0 sizes
  ∧ d_totalAdditions (ds_detail ds) + d_totalDeletions (ds_detail ds) = sumList sizes
  ∧ processedCommits (ds_detail ds) = Z.of_nat (length (listedCommits env))
  ∧ Forall (fun size => size ≤ d_largestSize (ds_detail ds)) sizes.
Proof.
  unfold fetchDetailedCommitStats, listedCommits.
  destruct (fetchBasicCommitStats env) as [basic | error]; [| discriminate].
  destruct (fetchUserRepos env) as [repos | error]; [| discriminate].
  destruct (detailRepos env _ repos _) as [d | error] eqn:Hd; [| discriminate].
  intros [= <-]. cbv zeta. cbn [ds_detail].
  apply detailRepos_sizes in Hd as (H1 & H2 & H3). cbv zeta in H1, H2, H3.
  cbn [d_largestSize d_totalAdditions d_totalDeletions processedCommits] in H1, H2, H3.
  repeat split; [exact H1 | lia | lia |].
  rewrite H1. generalize (detailSizes env (commitsOfAll env repos)) as l.
  assert (∀ l a, a ≤ foldl Z.max a l) as Hmono.
  { induction l as [|x l IH]; intros a; simpl; [lia |].
    specialize (IH (Z.max a x)). lia. }
  intros l. generalize 0 as a. induction l as [|x l IH]; intros a; [constructor |].
  simpl. constructor; [| apply IH].
  specialize (Hmono l (Z.max a x)). lia.
Qed.

Lemma X21_detail_pass_totals_witness :
  ∃ ds, fetchDetailedCommitStats detailEnvFifthFails = Ok ds
        ∧ d_largestSize (ds_detail ds) = 42
        ∧ processedCommits (ds_detail ds) = 12.
Proof.
  eexists. split; [vm_compute; reflexivity |].
  match goal with
  | |- d_largestSize (ds_detail ?ds) = _ ∧ _ =>
      destruct (X21_detail_pass_totals detailEnvFifthFails ds) as (Hl & _ & Hp & _);
        [vm_compute; reflexivity |]
  end.
  split; [rewrite Hl | rewrite Hp]; vm_compute; reflexivity.
Defined.

End DetailedMore.

(** ** The messages about the rate limit *)

Module ProfileFacts.
Import JS Limiter GitHub Pipeline Profile Scenarios.

(** The minutes shown are the time to the reset rounded up to whole
    minutes. *)
Lemma minutesUntil_bounds (resetIn : Z) :
  0 < resetIn →
  1 ≤ minutesUntil (Some resetIn)
  ∧ 60000 * (minutesUntil (Some resetIn) - 1) < resetIn ≤ 60000 * minutesUntil (Some resetIn).
Proof.
  intros Hpos. unfold minutesUntil, Math_ceil.
  change (default 0 (Some resetIn)) with resetIn.
  change (inject_Z (60 * 1000)) with 60000%Q.
  set (q := (inject_Z resetIn / 60000)%Q).
  pose proof (Qle_ceiling q) as Hhi. pose proof (Qceiling_lt q) as Hlo.
  assert (q * 60000 == inject_Z resetIn)%Q as Hq by (unfold q; field).
  set (m := Qceiling q) in *.
  assert (inject_Z resetIn <= inject_Z (60000 * m))%Q as H1.
  { rewrite inject_Z_mult. change (inject_Z 60000) with 60000%Q. lra. }
  assert (inject_Z (60000 * (m - 1)) < inject_Z resetIn)%Q as H2.
  { rewrite inject_Z_mult. change (inject_Z 60000) with 60000%Q. lra. }
  rewrite <- Zle_Qle in H1. rewrite <- Zlt_Qlt in H2.
  clear Hhi Hlo Hq. lia.
Qed.

(** X22. For a 403 whose reset header is readable,
    [formatRateLimitError] says "now" when the reset is not ahead, and
    otherwise gives the time to the reset in whole minutes rounded up:
    at least 1, so never "0 minutes", with the singular exactly for a
    reset at most a minute ahead, followed by the local time of the
    reset. *)
Theorem X22_rate_limit_message_rounds_up (tl : Date → string) (dateNow : Z)
    (error : RequestError) (reset : Z) :
  status error = Some 403 →
  parseInt (orZeroString (resetHeader error)) = Some reset →
  (reset * 1000 - dateNow ≤ 0 →
     formatRateLimitError tl dateNow error
     = "Rate limit exceeded. You can try again now")
  ∧ (0 < reset * 1000 - dateNow →
       ∃ minutes : Z,
         formatRateLimitError tl dateNow error
         = ("Rate limit exceeded. You can try again in " ++ pretty minutes ++ " minute"
              ++ (if (minutes =? 1)%Z then "" else "s")
              ++ " (at " ++ tl (dateOfNumber (Some (reset * 1000))) ++ ")")%string
         ∧ 1 ≤ minutes
         ∧ 60000 * (minutes - 1) < reset * 1000 - dateNow ≤ 60000 * minutes
         ∧ (minutes = 1 ↔ reset * 1000 - dateNow ≤ 60000)).
Proof.
  intros Hs Hp. unfold formatRateLimitError.
  assert (statusIs error 403 = true) as -> by
    (unfold statusIs; now apply bool_decide_eq_true).
  rewrite Hp. cbv zeta. cbn [fmap option_fmap option_map gtZero].
  split.
  - intros Hle. apply Z.ltb_ge in Hle. now rewrite Hle.
  - intros Hlt. pose proof (minutesUntil_bounds _ Hlt) as (H1 & H2).
    apply Z.ltb_lt in Hlt. rewrite Hlt.
    exists (minutesUntil (Some (reset * 1000 - dateNow))).
    split; [reflexivity |]. split; [exact H1 |]. split; [exact H2 |]. lia.
Qed.

(** A reset 4001 ms ahead: one minute. *)
Lemma X22_rate_limit_message_rounds_up_witness :
  ∃ minutes : Z,
    formatRateLimitError (fun _ => "12:16:45 AM"%string) 1000999 rateLimited
    = ("Rate limit exceeded. You can try again in " ++ pretty minutes ++ " minute"
         ++ (if (minutes =? 1)%Z then "" else "s")
         ++ " (at " ++ "12:16:45 AM" ++ ")")%string
    ∧ 1 ≤ minutes
    ∧ 60000 * (minutes - 1) < 1005 * 1000 - 1000999 ≤ 60000 * minutes
    ∧ (minutes = 1 ↔ 1005 * 1000 - 1000999 ≤ 60000).
Proof.
  apply (proj2 (X22_rate_limit_message_rounds_up
                  (fun _ => "12:16:45 AM"%string) 1000999 rateLimited 1005
                  eq_refl eq_refl)).
  lia.
Defined.

(** X23. When the request of [fetchUserProfile] is refused, the limiter
    is left as it was; for a 403 the message of the error thrown is the
    one [formatRateLimitError] gives for the same error at the same
    clock, although the two are written apart, and any other error is
    thrown again as it came. *)
Theorem X23_profile_error_matches_formatter (env : ProfileEnv) (l : Settings)
    (error : RequestError) :
  getAuthenticated env = Failed error →
  fst (fetchUserProfile env l) = l
  ∧ snd (fetchUserProfile env l)
    = (if statusIs error 403
       then RateLimitError
              (formatRateLimitError (toLocaleTimeString env) (profileNow env) error)
       else Rethrown error).
Proof.
  intros H. unfold fetchUserProfile, formatRateLimitError. rewrite H.
  destruct (statusIs error 403); [| easy]. cbv zeta. cbn [fst snd].
  split; [reflexivity |].
  now destruct (gtZero _).
Qed.

Lemma X23_profile_error_matches_formatter_witness :
  snd (fetchUserProfile
         {| getAuthenticated := Failed rateLimited;
            profileNow := 1000999;
            toLocaleTimeString := fun _ => "12:16:45 AM"%string |}
         limiter)
  = RateLimitError
      "Rate limit exceeded. You can try again in 1 minute (at 12:16:45 AM)".
Proof.
  rewrite (proj2 (X23_profile_error_matches_formatter
                    {| getAuthenticated := Failed rateLimited;
                       profileNow := 1000999;
                       toLocaleTimeString := fun _ => "12:16:45 AM"%string |}
                    limiter rateLimited eq_refl)).
  vm_compute. reflexivity.
Defined.

End ProfileFacts.

(** ** The figures of the dashboard *)

Module DashboardFacts.
Import JS Lunar GitHub Dashboard.

Lemma largest_from (a : string * Z) (l : list (string * Z)) :
  let best := foldl (fun a b => if snd a <? snd b then b else a) a l in
  snd a ≤ snd best
  ∧ (∀ e, In e l → snd e ≤ snd best)
  ∧ (best = a ∧ (∀ e, In e l → snd e ≤ snd a)
     ∨ ∃ l1 l2, l = l1 ++ best :: l2
                ∧ snd a < snd best
                ∧ Forall (fun e => snd e < snd best) l1).
Proof.
  revert a. induction l as [|x l IH]; intros a; cbv zeta.
  - simpl. split; [lia |]. split; [intros e [] |]. left. split; [reflexivity | intros e []].
  - cbn [foldl]. destruct (snd a <? snd x) eqn:E.
    + apply Z.ltb_lt in E. destruct (IH x) as (H1 & H2 & H3). cbv zeta in H1, H2, H3.
      split; [lia |]. split.
      * intros e [<- | He]; [exact H1 | now apply H2].
      * right. destruct H3 as [[Hb _] | (l1 & l2 & He & Hlt & Hall)].
        -- exists [], l. rewrite Hb. repeat split; [exact E | constructor].
        -- exists (x :: l1), l2. split; [cbn [app]; now rewrite <- He |].
           split; [lia |]. constructor; [exact Hlt | exact Hall].
    + apply Z.ltb_ge in E. destruct (IH a) as (H1 & H2 & H3). cbv zeta in H1, H2, H3.
      split; [exact H1 |]. split.
      * intros e [<- | He]; [lia | now apply H2].
      * destruct H3 as [[Hb Hle] | (l1 & l2 & He & Hlt & Hall)].
        -- left. split; [exact Hb |]. intros e [<- | He]; [exact E | now apply Hle].
        -- right. exists (x :: l1), l2. split; [cbn [app]; now rewrite <- He |].
           split; [exact Hlt |]. constructor; [lia | exact Hall].
Qed.

(** X24. The entry the dashboard shows as dominant, for the phases and
    for the times of day alike, carries the largest count of the
    record; among entries with that count it is the first in the order
    of the keys; and when no count is positive it is the entry with the
    empty name and the count 0. For the times of day the count shown is
    the largest of 0 and the four counters. *)
Theorem X24_dominant_entry_is_first_maximum (entries : list (string * Z)) :
  0 ≤ snd (largestEntry entries)
  ∧ (∀ e, In e entries → snd e ≤ snd (largestEntry entries))
  ∧ (largestEntry entries = (""%string, 0) ∧ (∀ e, In e entries → snd e ≤ 0)
     ∨ ∃ before after,
         entries = before ++ largestEntry entries :: after
         ∧ 0 < snd (largestEntry entries)
         ∧ Forall (fun e => snd e < snd (largestEntry entries)) before)
  ∧ ∀ t, snd (maxTimeOfDay t)
         = Z.max 0 (Z.max (dawn t) (Z.max (day t) (Z.max (dusk t) (night t)))).
Proof.
  destruct (largest_from (""%string, 0) entries) as (H1 & H2 & H3).
  split; [exact H1 |]. split; [exact H2 |]. split; [exact H3 |].
  intros t. unfold maxTimeOfDay, largestEntry, timeOfDayEntries. cbn [foldl snd].
  destruct (0 <? dawn t) eqn:E1; cbn [snd];
    (match goal with
     | |- context [?x <? day t] => destruct (x <? day t) eqn:E2
     end); cbn [snd];
    (match goal with
     | |- context [?x <? dusk t] => destruct (x <? dusk t) eqn:E3
     end); cbn [snd];
    (match goal with
     | |- context [?x <? night t] => destruct (x <? night t) eqn:E4
     end); cbn [snd]; lia.
Qed.

Lemma X24_dominant_entry_is_first_maximum_witness :
  snd ("Full Moon"%string, 7) ≤ snd (largestEntry [("New Moon"%string, 7);
                                                   ("Full Moon"%string, 7)]).
Proof.
  apply (proj1 (proj2 (X24_dominant_entry_is_first_maximum
                         [("New Moon"%string, 7); ("Full Moon"%string, 7)]))).
  right. left. reflexivity.
Defined.

Lemma find_name (name : string) (names : list string) :
  In name names → List.find (String.eqb name) names = Some name.
Proof.
  induction names as [|x names IH]; intros H; [destruct H |].
  cbn [List.find]. destruct (String.eqb name x) eqn:E.
  - apply String.eqb_eq in E. now subst.
  - destruct H as [-> | H]; [now rewrite String.eqb_refl in E | now apply IH].
Qed.

(** X25. The phase the dashboard names as dominant is always one of
    the eight phases: the name of the dominant entry when that is a
    phase, and otherwise "New Moon"; in particular a record without a
    positive count is shown as "New Moon". *)
Theorem X25_dominant_phase_falls_back_to_new_moon (commitsByPhase : list (string * Z)) :
  In (dominantPhase commitsByPhase) LUNAR_PHASE_NAMES
  ∧ (In (dominantPhaseName commitsByPhase) LUNAR_PHASE_NAMES →
       dominantPhase commitsByPhase = dominantPhaseName commitsByPhase)
  ∧ (¬ In (dominantPhaseName commitsByPhase) LUNAR_PHASE_NAMES →
       dominantPhase commitsByPhase = "New Moon"%string)
  ∧ ((∀ e, In e commitsByPhase → snd e ≤ 0) →
       dominantPhase commitsByPhase = "New Moon"%string).
Proof.
  unfold dominantPhase.
  assert (¬ In (dominantPhaseName commitsByPhase) LUNAR_PHASE_NAMES →
          List.find (String.eqb (dominantPhaseName commitsByPhase)) LUNAR_PHASE_NAMES
          = None) as Hnone.
  { intros Hn.
    destruct (List.find _ LUNAR_PHASE_NAMES) as [x|] eqn:E; [| reflexivity].
    apply List.find_some in E as [Hin Heq]. apply String.eqb_eq in Heq. now subst. }
  split; [| split; [| split]].
  - destruct (List.find _ LUNAR_PHASE_NAMES) as [x|] eqn:E.
    + now apply List.find_some in E as [Hin _].
    + left. reflexivity.
  - intros Hin. now rewrite (find_name _ _ Hin).
  - intros Hn. now rewrite (Hnone Hn).
  - intros Hall. unfold dominantPhaseName.
    destruct (largest_from (""%string, 0) commitsByPhase)
      as (_ & _ & [[He _] | (before & after & He & Hpos & _)]);
      cbv zeta in He; fold (largestEntry commitsByPhase) in *.
    + now rewrite He.
    + exfalso. assert (In (largestEntry commitsByPhase) commitsByPhase) as Hin
        by (rewrite He at 2; apply in_elt).
      specialize (Hall _ Hin). unfold largestEntry in *. cbn [snd] in Hpos. lia.
Qed.

Lemma X25_dominant_phase_falls_back_to_new_moon_witness :
  dominantPhase [("New Moon"%string, 0); ("Full Moon"%string, 0)] = "New Moon"%string.
Proof.
  apply (proj2 (proj2 (proj2 (X25_dominant_phase_falls_back_to_new_moon
                                [("New Moon"%string, 0); ("Full Moon"%string, 0)])))).
  intros e [<- | [<- | []]]; simpl; lia.
Defined.

Lemma maxOrOne_bounds (values : list Z) :
  1 ≤ maxOrOne values ∧ ∀ v, In v values → v ≤ maxOrOne values.
Proof.
  unfold maxOrOne.
  assert (∀ l a, a ≤ foldl Z.max a l ∧ ∀ v, In v l → v ≤ foldl Z.max a l) as H.
  { induction l as [|x l IH]; intros b; simpl; [split; [lia | intros v []] |].
    destruct (IH (Z.max b x)) as [H1 H2]. split; [lia |].
    intros v [<- | Hv]; [lia | now apply H2]. }
  exact (H values 1).
Qed.

Lemma countOf_bounds (entries : list (string * Z)) (name : string) :
  countOf entries name = 0 ∨ In (countOf entries name) (map snd entries).
Proof.
  unfold countOf. destruct (List.find _ entries) as [e|] eqn:E; simpl; [| now left].
  right. apply List.find_some in E as [Hin _]. now apply in_map.
Qed.

(** X7. While the analysis runs, the bar of a phase is its count
    against the largest count of the snapshot, or against 1 when no
    count is larger: with counts that are not negative the value lies
    between 0 and 100, and a phase without an entry has the value 0. *)
Theorem X7_loading_bar_within_range (commitsByPhase : list (string * Z))
    (name : string) :
  (∀ e, In e commitsByPhase → 0 ≤ snd e) →
  (0 <= loadingBar commitsByPhase name)%Q
  ∧ (loadingBar commitsByPhase name <= 100)%Q
  ∧ (List.find (fun e => String.eqb (fst e) name) commitsByPhase = None →
       (loadingBar commitsByPhase name == 0)%Q).
Proof.
  intros Hpos. unfold loadingBar.
  destruct (maxOrOne_bounds (map snd commitsByPhase)) as [H1 H2].
  assert (0 ≤ countOf commitsByPhase name ≤ maxOrOne (map snd commitsByPhase)) as Hc.
  { destruct (countOf_bounds commitsByPhase name) as [-> | Hin]; [lia |].
    split; [| now apply H2].
    apply in_map_iff in Hin as (e & <- & He). now apply Hpos. }
  set (c := countOf commitsByPhase name) in *.
  set (m := maxOrOne (map snd commitsByPhase)) in *.
  assert (0 < inject_Z m)%Q as Hm
    by (change 0%Q with (inject_Z 0); rewrite <- Zlt_Qlt; lia).
  assert (0 <= inject_Z c / inject_Z m)%Q as Hlo.
  { apply Qle_shift_div_l; [exact Hm |].
    rewrite Qmult_0_l. change 0%Q with (inject_Z 0). rewrite <- Zle_Qle. apply Hc. }
  assert (inject_Z c / inject_Z m <= 1)%Q as Hhi.
  { apply Qle_shift_div_r; [exact Hm |].
    rewrite Qmult_1_l. rewrite <- Zle_Qle. apply Hc. }
  split; [lra | split; [lra |]].
  intros Hnone. subst c. unfold countOf. rewrite Hnone. simpl.
  unfold Qdiv. now rewrite !Qmult_0_l.
Qed.

Lemma X7_loading_bar_within_range_witness :
  (loadingBar [("New Moon"%string, 3%Z); ("Full Moon"%string, 12%Z)] "New Moon" <= 100)%Q.
Proof.
  apply (X7_loading_bar_within_range
           [("New Moon"%string, 3); ("Full Moon"%string, 12)] "New Moon").
  intros e [<- | [<- | []]]; simpl; lia.
Defined.

End DashboardFacts.

(** ** The run on a stream that can refuse a message *)

Module StreamFacts.
Import JS Lunar GitHub Pipeline Views Scenarios.
Import AggregatorFacts PipelineFacts PipelineMore.
Import Stream.

(** *** What one message changes *)

Lemma sendProgress_reached (env : StreamEnv) (site : Site) (msg : string)
    (p : option (Z * Z * option StatsSnapshot)) (w : Walk) :
  let w' := reached (sendProgress env site msg p w) in
  sent w' = S (sent w)
  ∧ run_stats (walk_run w') = run_stats (walk_run w)
  ∧ totalCommits (walk_run w') = totalCommits (walk_run w)
  ∧ processedRepos (walk_run w') = processedRepos (walk_run w)
  ∧ ∀ (A : Type) (f : Event → option A), deaf f →
      omap f (events (walk_run w')) = omap f (events (walk_run w)).
Proof.
  cbv zeta. unfold sendProgress.
  destruct (controllerAt env (sent w)); cbn [reached walk_run sent emit run_stats
    totalCommits processedRepos events]; repeat split; try reflexivity.
  intros A f Hf. rewrite omap_app. cbn [omap list_omap]. rewrite Hf. apply app_nil_r.
Qed.

Lemma sendProgress_threw (env : StreamEnv) (site : Site) (msg : string)
    (p : option (Z * Z * option StatsSnapshot)) (w w' : Walk) (error : RequestError) :
  sendProgress env site msg p w = Threw w' error →
  ∃ m, controllerAt env (sent w) = Rejecting m ∧ error = streamError m.
Proof.
  unfold sendProgress. destruct (controllerAt env (sent w)) as [| | m]; try discriminate.
  intros [= _ <-]. now exists m.
Qed.

(** The [catch] of a repository lets the exception of the stream pass
    without a wait. *)
Lemma onRepositoryError_streamError (e : Env) (repo : GitHubRepo) (m : string) (r : Run) :
  onRepositoryError e repo (streamError m) r = r.
Proof. reflexivity. Qed.

Lemma commitRequests_onRepositoryError (e : Env) (repo : GitHubRepo)
    (error : RequestError) (r : Run) :
  commitRequests (events (onRepositoryError e repo error r)) = commitRequests (events r).
Proof.
  unfold onRepositoryError.
  repeat match goal with
         | |- context [if ?b then _ else _] => destruct b
         end; try reflexivity.
  unfold commitRequests. rewrite quiet_emit. apply app_nil_r.
Qed.

Lemma listedRepos_deaf :
  deaf (fun e => match e with Requested (ListCommits repo) => Some repo | _ => None end).
Proof. now intros site data. Qed.

Lemma commitRequests_deaf :
  deaf (fun e => match e with Requested (GetCommit _ ref) => Some ref | _ => None end).
Proof. now intros site data. Qed.

(** *** The first loop *)

Lemma processBasic_reached (env : StreamEnv) (nRepos : Z) (w : Walk)
    (commit : GitHubCommitResponse) :
  let w' := reached (processBasic env nRepos w commit) in
  run_stats (walk_run w') = countCommit (host (api env)) commit (run_stats (walk_run w))
  ∧ totalCommits (walk_run w') = totalCommits (walk_run w) + 1
  ∧ processedRepos (walk_run w') = processedRepos (walk_run w)
  ∧ ∀ (A : Type) (f : Event → option A), deaf f →
      omap f (events (walk_run w')) = omap f (events (walk_run w)).
Proof.
  cbv zeta. unfold processBasic. cbv zeta.
  destruct (_ =? 0).
  - match goal with
    | |- context [sendProgress env ?site ?msg ?p ?w1] =>
        destruct (sendProgress_reached env site msg p w1) as (_ & H1 & H2 & H3 & H4)
    end.
    cbv zeta in H1, H2, H3, H4. rewrite H1, H2, H3.
    repeat split. intros A f Hf. now rewrite (H4 A f Hf).
  - cbn [reached walk_run]. now repeat split.
Qed.

(** The first loop counts a prefix of the commits it is given: all of
    them when it completes, and up to the commit whose message is
    refused when it throws. *)
Lemma countCommits_shape (env : StreamEnv) (nRepos : Z)
    (commits : list GitHubCommitResponse) (w : Walk) :
  let s := countCommits env nRepos w commits in
  ∃ k : nat,
    (k ≤ length commits)%nat
    ∧ run_stats (walk_run (reached s))
      = foldl (fun s c => countCommit (host (api env)) c s) (run_stats (walk_run w))
              (take k commits)
    ∧ totalCommits (walk_run (reached s)) = totalCommits (walk_run w) + Z.of_nat k
    ∧ processedRepos (walk_run (reached s)) = processedRepos (walk_run w)
    ∧ (∀ (A : Type) (f : Event → option A), deaf f →
         omap f (events (walk_run (reached s))) = omap f (events (walk_run w)))
    ∧ (∀ w', s = Went w' → k = length commits)
    ∧ (∀ w' error, s = Threw w' error →
         ∃ n m, controllerAt env n = Rejecting m ∧ error = streamError m).
Proof.
  revert w. induction commits as [|c commits IH]; intros w; cbv zeta.
  - exists 0%nat. cbn [countCommits reached take foldl length].
    repeat split; try lia; try reflexivity. intros w' error [=].
  - cbn [countCommits].
    destruct (processBasic_reached env nRepos w c) as (H1 & H2 & H3 & H4).
    cbv zeta in H1, H2, H3, H4.
    destruct (processBasic env nRepos w c) as [w1 | w1 e] eqn:Hb; cbn [andThen reached] in *.
    + destruct (IH w1) as (k & Hk & K1 & K2 & K3 & K4 & K5 & K6). cbv zeta in *.
      exists (S k). cbn [take foldl length]. rewrite K1, K2, K3, H1, H2, H3.
      repeat split; try lia.
      * intros A f Hf. now rewrite (K4 A f Hf), (H4 A f Hf).
      * intros w' Hw. now rewrite (K5 w' Hw).
      * exact K6.
    + exists 1%nat. cbn [take foldl length]. rewrite H1, H2, H3.
      repeat split; try lia.
      * intros A f Hf. now rewrite (H4 A f Hf).
      * intros w' [=].
      * intros w' error [= <- <-]. unfold processBasic in Hb. cbv zeta in Hb.
        destruct (_ =? 0); [| discriminate].
        apply sendProgress_threw in Hb as (m & Hm & ->). eauto.
Qed.

(** *** One repository *)

(** What an iteration adds: the listing of its repository, unless the
    boundary message was refused; a count for a prefix of the user's
    commits of the repository; and the detail requests of all of them,
    or of none. On a calm stream nothing is left out. *)
Lemma iteration_shape (env : StreamEnv) (username : string) (userEmails : list string)
    (nRepos : Z) (w : Walk) (repo : GitHubRepo) :
  let w' := processRepository env username userEmails nRepos w repo in
  let mine := userCommitsWith (api env) username userEmails repo in
  ∃ listed counted requested,
    listedRepos (events (walk_run w')) = listedRepos (events (walk_run w)) ++ listed
    ∧ sublist listed [repo]
    ∧ commitRequests (events (walk_run w'))
      = commitRequests (events (walk_run w)) ++ map sha requested
    ∧ sublist requested counted
    ∧ sublist counted mine
    ∧ sameCounts (run_stats (walk_run w'))
        (foldl (fun s c => countCommit (host (api env)) c s) (run_stats (walk_run w))
               counted)
    ∧ totalCommits (walk_run w') = totalCommits (walk_run w) + Z.of_nat (length counted)
    ∧ processedRepos (walk_run w') = processedRepos (walk_run w) + 1
    ∧ (calm env → listed = [repo] ∧ counted = mine ∧ requested = mine).
Proof.
  cbv zeta. unfold processRepository, tryRepository, userCommitsWith. cbv zeta.
  match goal with
  | |- context [sendProgress env ?site ?msg ?p ?w1] =>
      destruct (sendProgress_reached env site msg p w1) as (_ & H1 & H2 & H3 & H4);
        pose proof (sendProgress_threw env site msg p w1) as Hthrew;
        destruct (sendProgress env site msg p w1) as [w2 | w2 e] eqn:Hs
  end; cbv zeta in H1, H2, H3, H4; cbn [reached walk_run run_stats totalCommits
    processedRepos events] in H1, H2, H3, H4; cbn [andThen request].
  2: { (* the boundary message is refused *)
    destruct (Hthrew _ _ eq_refl) as (m & Hm & ->).
    exists [], [], []. cbn [onRun walk_run]. rewrite onRepositoryError_streamError.
    unfold listedRepos, commitRequests.
    rewrite (H4 _ _ listedRepos_deaf), (H4 _ _ commitRequests_deaf), H1, H2, H3.
    cbn [map length foldl]. rewrite !app_nil_r, Z.add_0_r.
    repeat split; try apply sublist_nil_l; try reflexivity;
      match goal with Hc : calm env |- _ => now destruct (Hc _ _ Hm) end. }
  destruct (listCommits (api env) repo) as [commits | error] eqn:Hl.
  2: { (* the listing is refused *)
    exists [repo], [], []. cbn [onRun walk_run].
    rewrite listedRepos_onRepositoryError, commitRequests_onRepositoryError.
    destruct (processedRepos_onRepositoryError (api env) repo error
                (emit (Requested (ListCommits repo)) (walk_run w2))) as (-> & -> & ->).
    cbn [emit run_stats totalCommits processedRepos events].
    unfold listedRepos, commitRequests. rewrite !omap_app.
    rewrite (H4 _ _ listedRepos_deaf), (H4 _ _ commitRequests_deaf), H1, H2, H3.
    cbn [omap list_omap map length foldl]. rewrite !app_nil_r, Z.add_0_r.
    repeat split; try reflexivity; try apply sublist_nil_l. }
  set (mine := filter (fun c => isUserCommit username userEmails c) commits).
  set (w3 := onRun (emit (Requested (ListCommits repo))) w2).
  assert (listedRepos (events (walk_run w3)) = listedRepos (events (walk_run w)) ++ [repo]
          ∧ commitRequests (events (walk_run w3)) = commitRequests (events (walk_run w))
          ∧ run_stats (walk_run w3) = run_stats (walk_run w)
          ∧ totalCommits (walk_run w3) = totalCommits (walk_run w)
          ∧ processedRepos (walk_run w3) = processedRepos (walk_run w) + 1)
    as (L3 & C3 & S3 & T3 & P3).
  { subst w3. cbn [onRun walk_run emit run_stats totalCommits processedRepos events].
    unfold listedRepos, commitRequests. rewrite !omap_app.
    rewrite (H4 _ _ listedRepos_deaf), (H4 _ _ commitRequests_deaf), H1, H2, H3.
    cbn [omap list_omap]. now rewrite app_nil_r. }
  destruct (countCommits_shape env nRepos mine w3) as (k & Hk & K1 & K2 & K3 & K4 & K5 & K6).
  cbv zeta in K1, K2, K3, K4, K5, K6.
  destruct (countCommits env nRepos w3 mine) as [w4 | w4 e] eqn:Hc;
    cbn [andThen reached] in *.
  - (* the first loop completes: the details of every commit are requested *)
    rewrite (K5 _ eq_refl) in *. rewrite firstn_all in K1.
    exists [repo], mine, mine. cbn [onRun walk_run].
    rewrite listedRepos_foldl by (intros; apply listedRepos_processBatch).
    rewrite (proj1 (commitRequests_processBatch _ _ _ _)), batches_concat.
    rewrite (proj2 (commitRequests_processBatch _ _ _ _)).
    rewrite processedRepos_foldl by (intros; apply processBatch_counters).
    unfold listedRepos, commitRequests in *.
    rewrite (K4 _ _ listedRepos_deaf), (K4 _ _ commitRequests_deaf), L3, C3, K2, K3, T3, P3.
    assert (sameCounts
              (run_stats (foldl (Pipeline.processBatch (api env) repo) (walk_run w4)
                                (batches mine)))
              (foldl (fun s c => countCommit (host (api env)) c s)
                     (run_stats (walk_run w)) mine)) as Hsame.
    { eapply sameCounts_trans; [apply processBatch_fold_counts |].
      rewrite K1, S3. apply sameCounts_refl. }
    repeat split; try reflexivity; apply Hsame.
  - (* a message of the first loop is refused *)
    destruct (K6 _ _ eq_refl) as (n & m & Hm & ->).
    exists [repo], (take k mine), []. cbn [onRun walk_run].
    rewrite onRepositoryError_streamError.
    unfold listedRepos, commitRequests in *.
    rewrite (K4 _ _ listedRepos_deaf), (K4 _ _ commitRequests_deaf), L3, C3, K1, K2, K3,
      S3, T3, P3.
    rewrite length_take, Nat.min_l by exact Hk. cbn [map]. rewrite app_nil_r.
    repeat split; try reflexivity; try apply sublist_nil_l; try apply sublist_take;
      match goal with Hc : calm env |- _ => now destruct (Hc _ _ Hm) end.
Qed.

(** *** The loop over the repositories *)

Lemma loop_shape (env : StreamEnv) (username : string) (userEmails : list string)
    (nRepos : Z) (repos : list GitHubRepo) (w : Walk) :
  let w' := foldl (processRepository env username userEmails nRepos) w repos in
  let mine := concat (map (userCommitsWith (api env) username userEmails) repos) in
  ∃ listed counted requested,
    listedRepos (events (walk_run w')) = listedRepos (events (walk_run w)) ++ listed
    ∧ sublist listed repos
    ∧ commitRequests (events (walk_run w'))
      = commitRequests (events (walk_run w)) ++ map sha requested
    ∧ sublist requested counted
    ∧ sublist counted mine
    ∧ sameCounts (run_stats (walk_run w'))
        (foldl (fun s c => countCommit (host (api env)) c s) (run_stats (walk_run w))
               counted)
    ∧ totalCommits (walk_run w') = totalCommits (walk_run w) + Z.of_nat (length counted)
    ∧ processedRepos (walk_run w')
      = processedRepos (walk_run w) + Z.of_nat (length repos)
    ∧ (calm env → listed = repos ∧ counted = mine ∧ requested = mine).
Proof.
  revert w. induction repos as [|repo repos IH]; intros w; cbv zeta.
  - exists [], [], []. cbn [foldl map concat length]. rewrite !app_nil_r, !Z.add_0_r.
    repeat split; try reflexivity.
  - cbn [foldl map concat].
    destruct (iteration_shape env username userEmails nRepos w repo)
      as (l1 & c1 & r1 & A1 & A2 & A3 & A4 & A5 & A6 & A7 & A8 & A9).
    destruct (IH (processRepository env username userEmails nRepos w repo))
      as (l2 & c2 & r2 & B1 & B2 & B3 & B4 & B5 & B6 & B7 & B8 & B9).
    cbv zeta in *.
    exists (l1 ++ l2), (c1 ++ c2), (r1 ++ r2).
    rewrite B1, A1, B3, A3, B7, A7, B8, A8, map_app, !length_app, <- !app_assoc.
    cbn [length].
    assert (sameCounts
              (run_stats (walk_run (foldl (processRepository env username userEmails nRepos)
                                          (processRepository env username userEmails nRepos
                                             w repo) repos)))
              (foldl (fun s c => countCommit (host (api env)) c s)
                     (run_stats (walk_run w)) (c1 ++ c2))) as Hsame.
    { rewrite foldl_app. eapply sameCounts_trans; [exact B6 |].
      now apply sameCounts_fold. }
    repeat split; try reflexivity; try lia; try apply Hsame.
    + apply (sublist_app l1 [repo] l2 repos A2 B2).
    + now apply sublist_app.
    + now apply sublist_app.
    + destruct (A9 H) as (-> & _ & _). now destruct (B9 H) as (-> & _ & _).
    + destruct (A9 H) as (_ & -> & _). now destruct (B9 H) as (_ & -> & _).
    + destruct (A9 H) as (_ & _ & ->). now destruct (B9 H) as (_ & _ & ->).
Qed.

(** *** Before and after the loop *)

Lemma fresh_start : fresh start.
Proof. now repeat split. Qed.

Lemma fresh_sendProgress (env : StreamEnv) (site : Site) (msg : string)
    (p : option (Z * Z * option StatsSnapshot)) (w : Walk) :
  fresh w → fresh (reached (sendProgress env site msg p w)).
Proof.
  intros (F1 & F2 & F3 & F4 & F5).
  destruct (sendProgress_reached env site msg p w) as (_ & H1 & H2 & H3 & H4).
  cbv zeta in *. unfold fresh, listedRepos, commitRequests in *.
  now rewrite H1, H2, H3, (H4 _ _ listedRepos_deaf), (H4 _ _ commitRequests_deaf).
Qed.

Lemma fresh_request (req : Request) (w : Walk) :
  req = ListEmails ∨ req = ListRepos →
  fresh w → fresh (onRun (emit (Requested req)) w).
Proof.
  intros Hreq (F1 & F2 & F3 & F4 & F5).
  unfold fresh, listedRepos, commitRequests in *.
  cbn [onRun walk_run emit run_stats totalCommits processedRepos events].
  rewrite !omap_app, F4, F5.
  now destruct Hreq as [-> | ->].
Qed.

(** One message of the part before the loop: the walk stays fresh, and
    a refusal ends the [try] block. *)
Ltac send F :=
  match goal with
  | |- context [sendProgress ?env ?site ?msg ?p ?w] =>
      let F' := fresh "F" in
      let E := fresh "E" in
      pose proof (fresh_sendProgress env site msg p w F) as F';
      pose proof (sendProgress_threw env site msg p w) as E;
      destruct (sendProgress env site msg p w) as [? | ? ?];
      cbn [andThen reached request] in *;
      [ clear E
      | left; destruct (E _ _ eq_refl) as (? & ? & ->);
        eexists; eexists; split; [reflexivity |];
        split; [exact F' |];
        split; [right; eauto |];
        let Hc := fresh "Hc" in
        intros Hc; exfalso; eapply Hc; eassumption ]
  end.

(** The [try] block of the function either throws before the loop,
    having counted nothing, or is the loop over the non-fork
    repositories followed by the averages and the last message. *)
Lemma tryRun_cases (env : StreamEnv) (username : string) (w0 : Walk) :
  fresh w0 →
  (∃ w error,
     tryRun env username w0 = Threw w error
     ∧ fresh w
     ∧ (startFailure (api env) = Some error
        ∨ ∃ n m, controllerAt env n = Rejecting m ∧ error = streamError m)
     ∧ (calm env → startFailure (api env) = Some error))
  ∨ (∃ w6,
       startFailure (api env) = None
       ∧ fresh w6
       ∧ tryRun env username w0
         = sendProgress env AtComplete "Analysis complete!" None
             (onRun (fun r => withStats (finalize (run_stats r)) r)
                (foldl (processRepository env username (userEmailsOf (api env))
                          (Z.of_nat (length (reposToAnalyze (api env)))))
                       w6 (reposToAnalyze (api env))))).
Proof.
  intros F0. unfold tryRun, startFailure, userEmailsOf, reposToAnalyze.
  send F0.
  assert (fresh (onRun (emit (Requested ListEmails)) w)) as F2
    by (apply fresh_request; auto).
  destruct (listEmailsForAuthenticatedUser (api env)) as [emails | error].
  2: { left. eexists; eexists. split; [reflexivity |]. split; [exact F2 |]. auto. }
  send F2. send F1.
  assert (fresh (onRun (emit (Requested ListRepos)) w2)) as F5
    by (apply fresh_request; auto).
  destruct (listForAuthenticatedUser (api env)) as [repos | error].
  2: { left. eexists; eexists. split; [reflexivity |]. split; [exact F5 |]. auto. }
  send F5.
  right. eexists. split; [reflexivity |]. split; [eassumption |]. reflexivity.
Qed.

Lemma outline_sendProgress (env : StreamEnv) (site : Site) (msg : string)
    (p : option (Z * Z * option StatsSnapshot)) (w : Walk) :
  outline (walk_run (reached (sendProgress env site msg p w))) = outline (walk_run w).
Proof.
  destruct (sendProgress_reached env site msg p w) as (_ & H1 & H2 & _ & H4).
  cbv zeta in *. unfold outline, listedRepos, commitRequests.
  now rewrite H1, H2, (H4 _ _ listedRepos_deaf), (H4 _ _ commitRequests_deaf).
Qed.

(** The outer [catch]: the walk ends where the message of the error
    leaves it, accepted or not. *)
Lemma catch_reached (env : StreamEnv) (msg : string) (w : Walk) (error : RequestError) :
  fst (match sendProgress env AtError msg None w with
       | Went w' => (w', Thrown error)
       | Threw w' error' => (w', Thrown error')
       end)
  = reached (sendProgress env AtError msg None w).
Proof. now destruct (sendProgress env AtError msg None w). Qed.

(** A run ends with the outline of a fresh walk, or with that of the
    loop started on one. *)
Lemma run_outline (env : StreamEnv) (username : string) :
  (∃ w, fresh w
        ∧ outline (walk_run (fst (fetchUserCommits env username))) = outline (walk_run w)
        ∧ (calm env → ∃ error, startFailure (api env) = Some error))
  ∨ (∃ w6, fresh w6
           ∧ startFailure (api env) = None
           ∧ outline (walk_run (fst (fetchUserCommits env username)))
             = outline (walk_run
                          (foldl (processRepository env username (userEmailsOf (api env))
                                    (Z.of_nat (length (reposToAnalyze (api env)))))
                                 w6 (reposToAnalyze (api env))))).
Proof.
  unfold fetchUserCommits.
  match goal with
  | |- context [sendProgress env ?site ?msg ?p start] =>
      pose proof (fresh_sendProgress env site msg p start fresh_start) as F0;
        pose proof (sendProgress_threw env site msg p start) as E0;
        destruct (sendProgress env site msg p start) as [w0 | w0 e0]
  end; cbn [reached] in F0.
  2: { left. exists w0. split; [exact F0 |]. split; [reflexivity |].
       intros Hc. destruct (E0 _ _ eq_refl) as (m & Hm & _). now destruct (Hc _ _ Hm). }
  clear E0.
  destruct (tryRun_cases env username w0 F0)
    as [(w & error & -> & Fw & _ & Hcalm) | (w6 & Hs & F6 & ->)].
  - left. exists w. split; [exact Fw |]. split.
    + rewrite catch_reached. apply outline_sendProgress.
    + intros Hc. eauto.
  - right. exists w6. split; [exact F6 |]. split; [exact Hs |].
    match goal with
    | |- context [sendProgress env AtComplete ?msg None ?w8] =>
        pose proof (outline_sendProgress env AtComplete msg None w8) as H8;
          destruct (sendProgress env AtComplete msg None w8) as [w9 | w9 e9];
          cbn [reached] in H8
    end.
    + cbn [fst]. rewrite H8. reflexivity.
    + rewrite catch_reached, outline_sendProgress, H8. reflexivity.
Qed.


(** *** A steady stream *)

Lemma steady_calm (e : Env) : calm (steady e).
Proof. intros n m. unfold steady. cbn [controllerAt]. now destruct (progressController e). Qed.

Lemma steady_sendProgress (e : Env) (site : Site) (msg : string)
    (p : option (Z * Z * option StatsSnapshot)) (w : Walk) :
  sendProgress (steady e) site msg p w
  = Went {| walk_run := Pipeline.sendProgress e site msg p (walk_run w);
            sent := S (sent w) |}.
Proof.
  unfold sendProgress, Pipeline.sendProgress, steady. cbn [controllerAt].
  now destruct (progressController e).
Qed.

Lemma steady_countCommits (e : Env) (nRepos : Z) (commits : list GitHubCommitResponse)
    (w : Walk) :
  ∃ k, countCommits (steady e) nRepos w commits
       = Went {| walk_run := foldl (Pipeline.processBasic e nRepos) (walk_run w) commits;
                 sent := k |}.
Proof.
  revert w. induction commits as [|c commits IH]; intros [r k].
  - now exists k.
  - cbn [countCommits foldl walk_run]. unfold processBasic at 1. cbv zeta.
    cbn [walk_run sent].
    unfold Pipeline.processBasic at 2. cbv zeta. cbn [totalCommits].
    destruct (Z.rem (totalCommits r + 1) 5 =? 0).
    + rewrite steady_sendProgress. cbn [andThen]. apply IH.
    + cbn [andThen]. apply IH.
Qed.

Lemma steady_processRepository (e : Env) (username : string) (userEmails : list string)
    (nRepos : Z) (w : Walk) (repo : GitHubRepo) :
  ∃ k, processRepository (steady e) username userEmails nRepos w repo
       = {| walk_run := Pipeline.processRepository e username userEmails nRepos
                          (walk_run w) repo;
            sent := k |}.
Proof.
  destruct w as [r k]. unfold processRepository, tryRepository, Pipeline.processRepository.
  cbv zeta. rewrite steady_sendProgress. cbn [andThen request walk_run sent api steady].
  destruct (listCommits e repo) as [commits | error].
  - match goal with
    | |- context [countCommits (steady e) nRepos ?w3 ?l] =>
        destruct (steady_countCommits e nRepos l w3) as (k' & ->)
    end.
    cbn [andThen onRun walk_run sent]. eauto.
  - cbn [onRun walk_run sent]. eauto.
Qed.

Lemma steady_loop (e : Env) (username : string) (userEmails : list string)
    (nRepos : Z) (repos : list GitHubRepo) (w : Walk) :
  walk_run (foldl (processRepository (steady e) username userEmails nRepos) w repos)
  = foldl (Pipeline.processRepository e username userEmails nRepos) (walk_run w) repos.
Proof.
  revert w. induction repos as [|repo repos IH]; intros w; [reflexivity |].
  cbn [foldl]. destruct (steady_processRepository e username userEmails nRepos w repo)
    as (k & ->).
  now rewrite IH.
Qed.

(** On a stream that finds no controller at any call, or one that
    accepts at every call, the run is the run of [Pipeline]: the same
    events, the same statistics, the same outcome. *)
Lemma steady_run (e : Env) (username : string) :
  walk_run (fst (fetchUserCommits (steady e) username))
  = fst (Pipeline.fetchUserCommits e username)
  ∧ snd (fetchUserCommits (steady e) username) = snd (Pipeline.fetchUserCommits e username).
Proof.
  unfold fetchUserCommits, Pipeline.fetchUserCommits, tryRun, analyzeRepositories.
  cbv zeta.
  repeat (rewrite ?steady_sendProgress; cbn [andThen request api steady]).
  destruct (listEmailsForAuthenticatedUser e) as [emails | error].
  2: { repeat (rewrite ?steady_sendProgress; cbn [andThen request]). split; reflexivity. }
  repeat (rewrite ?steady_sendProgress; cbn [andThen request]).
  destruct (listForAuthenticatedUser e) as [repos | error].
  2: { repeat (rewrite ?steady_sendProgress; cbn [andThen request]). split; reflexivity. }
  repeat (rewrite ?steady_sendProgress; cbn [andThen request]).
  cbn [fst snd walk_run onRun]. rewrite !steady_loop. split; reflexivity.
Qed.

(** *** The repositories, the commits and the details of a run *)








(** A stream that refuses one message of the run over the twelve
    commits, seven in the first repository and five in the second.
    Refused at the first message of the function, the run ends there.
    Refused at the boundary of the first repository, the sixth message,
    that repository is passed over: the five commits of the second are
    counted and detailed, and the run returns. Refused at the message
    of the fifth commit, the five commits counted so far stay counted,
    the other two of the first repository and all its details are left
    out, and the run goes on with the second repository and returns. *)
Example refused_messages :
  fetchUserCommits
    {| api := envTwelveCommits;
       controllerAt := fun n => if Nat.eqb n 0 then Rejecting "closed" else Accepting |}
    "octocat"
  = ({| walk_run := initialRun; sent := 1 |}, Thrown (streamError "closed"))
  ∧ (let run := fetchUserCommits
                  {| api := envTwelveCommits;
                     controllerAt := fun n => if Nat.eqb n 5 then Rejecting "closed"
                                              else Accepting |}
                  "octocat" in
     listedRepos (events (walk_run (fst run))) = [repoBeta]
     ∧ totalCommits (walk_run (fst run)) = 5
     ∧ commitRequests (events (walk_run (fst run))) = drop 7 twelveRefs
     ∧ ∃ s, snd run = Returned s)
  ∧ (let run := fetchUserCommits
                  {| api := envTwelveCommits;
                     controllerAt := fun n => if Nat.eqb n 6 then Rejecting "closed"
                                              else Accepting |}
                  "octocat" in
     listedRepos (events (walk_run (fst run))) = [repoAlpha; repoBeta]
     ∧ totalCommits (walk_run (fst run)) = 10
     ∧ commitRequests (events (walk_run (fst run))) = drop 7 twelveRefs
     ∧ ∃ s, snd run = Returned s).
Proof.
  split; [vm_compute; reflexivity |]. split.
  - cbv zeta. split; [vm_compute; reflexivity |]. split; [vm_compute; reflexivity |].
    split; [vm_compute; reflexivity |]. eexists. vm_compute. reflexivity.
  - cbv zeta. split; [vm_compute; reflexivity |]. split; [vm_compute; reflexivity |].
    split; [vm_compute; reflexivity |]. eexists. vm_compute. reflexivity.
Qed.

(** *** The outcome of a run *)

(** A run throws the error of a refused listing or the exception of the
    stream, and nothing else; it returns only with both listings
    answered; on a calm stream the listings alone decide. *)
Lemma run_outcome (env : StreamEnv) (username : string) :
  match snd (fetchUserCommits env username) with
  | Thrown error =>
      startFailure (api env) = Some error
      ∨ ∃ n m, controllerAt env n = Rejecting m ∧ error = streamError m
  | Returned s =>
      startFailure (api env) = None
      ∧ s = run_stats (walk_run (fst (fetchUserCommits env username)))
  end
  ∧ (calm env →
       snd (fetchUserCommits env username)
       = match startFailure (api env) with
         | Some error => Thrown error
         | None => Returned (run_stats (walk_run (fst (fetchUserCommits env username))))
         end).
Proof.
  unfold fetchUserCommits.
  match goal with
  | |- context [sendProgress env ?site ?msg ?p start] =>
      pose proof (fresh_sendProgress env site msg p start fresh_start) as F0;
        pose proof (sendProgress_threw env site msg p start) as E0;
        destruct (sendProgress env site msg p start) as [w0 | w0 e0]
  end; cbn [reached] in F0.
  2: { destruct (E0 _ _ eq_refl) as (m & Hm & ->). cbn [snd]. split; [eauto |].
       intros Hc. now destruct (Hc _ _ Hm). }
  clear E0.
  destruct (tryRun_cases env username w0 F0)
    as [(w & error & -> & Fw & Hwhy & Hcalm) | (w6 & Hs & F6 & ->)].
  - match goal with
    | |- context [sendProgress env AtError ?msg None w] =>
        pose proof (sendProgress_threw env AtError msg None w) as E1;
          destruct (sendProgress env AtError msg None w) as [w1 | w1 e1]
    end; cbn [snd fst].
    + split; [exact Hwhy |]. intros Hc. now rewrite (Hcalm Hc).
    + destruct (E1 _ _ eq_refl) as (m & Hm & ->). split; [eauto |].
      intros Hc. now destruct (Hc _ _ Hm).
  - match goal with
    | |- context [sendProgress env AtComplete ?msg None ?w8] =>
        pose proof (sendProgress_threw env AtComplete msg None w8) as E8;
          destruct (sendProgress env AtComplete msg None w8) as [w9 | w9 e9]
    end.
    + cbn [snd fst]. split; [now split |]. intros _. now rewrite Hs.
    + destruct (E8 _ _ eq_refl) as (m & Hm & ->).
      match goal with
      | |- context [sendProgress env AtError ?msg None w9] =>
          pose proof (sendProgress_threw env AtError msg None w9) as E1;
            destruct (sendProgress env AtError msg None w9) as [w1 | w1 e1]
      end; cbn [snd fst].
      * split; [eauto |]. intros Hc. now destruct (Hc _ _ Hm).
      * destruct (E1 _ _ eq_refl) as (m' & Hm' & ->). split; [eauto |].
        intros Hc. now destruct (Hc _ _ Hm).
Qed.

(** X16. A run of [fetchUserCommits] throws the error of a refused
    listing of addresses or of repositories, or the exception of the
    progress stream, and nothing else: no failure of a commit listing or
    of a detail request makes it throw. It returns only with both
    listings answered, and when the stream refuses no message it throws
    exactly when one of the two listings is refused, with that error. A
    run whose listing is refused has counted nothing and asked for no
    commit listing and no detail. A stream that refuses the first
    message ends the run before any request, with the exception of the
    stream. *)
Theorem X16_throws_only_when_a_listing_fails (env : StreamEnv) (username : string) :
  (∀ error,
     snd (fetchUserCommits env username) = Thrown error →
     startFailure (api env) = Some error
     ∨ ∃ n m, controllerAt env n = Rejecting m ∧ error = streamError m)
  ∧ (∀ s,
       snd (fetchUserCommits env username) = Returned s →
       startFailure (api env) = None
       ∧ s = run_stats (walk_run (fst (fetchUserCommits env username))))
  ∧ (calm env →
       snd (fetchUserCommits env username)
       = match startFailure (api env) with
         | Some error => Thrown error
         | None => Returned (run_stats (walk_run (fst (fetchUserCommits env username))))
         end)
  ∧ (∀ error,
       startFailure (api env) = Some error →
       (∃ thrown, snd (fetchUserCommits env username) = Thrown thrown)
       ∧ totalCommits (walk_run (fst (fetchUserCommits env username))) = 0
       ∧ listedRepos (events (walk_run (fst (fetchUserCommits env username)))) = []
       ∧ commitRequests (events (walk_run (fst (fetchUserCommits env username)))) = [])
  ∧ (∀ m,
       controllerAt env 0%nat = Rejecting m →
       fetchUserCommits env username
       = ({| walk_run := initialRun; sent := 1 |}, Thrown (streamError m))).
Proof.
  destruct (run_outcome env username) as [Ho Hcalm].
  split; [| split; [| split; [exact Hcalm | split]]].
  - intros error He. now rewrite He in Ho.
  - intros s Hs. now rewrite Hs in Ho.
  - intros error Hf. split.
    + destruct (snd (fetchUserCommits env username)) as [s | thrown]; [| eauto].
      destruct Ho as [Hn _]. congruence.
    + destruct (run_outline env username)
        as [(w & (_ & F2 & _ & F4 & F5) & Ho' & _) | (w6 & _ & Hn & _)]; [| congruence].
      unfold outline in Ho'. injection Ho' as _ _ -> -> ->. auto.
  - intros m Hm. unfold fetchUserCommits, sendProgress. cbn [start sent]. now rewrite Hm.
Qed.

(** The listing of the repositories is refused, on a stream without a
    controller. *)
Lemma X16_throws_only_when_a_listing_fails_witness :
  snd (fetchUserCommits
         (steady {| listEmailsForAuthenticatedUser := Ok [];
                    listForAuthenticatedUser := Failed serverError;
                    listCommits := fun _ => Ok [];
                    getCommit := fun _ _ => Failed serverError;
                    dateNowAtFailure := fun _ => 0;
                    host := utcHost;
                    progressController := false |}) "octocat")
  = Thrown serverError.
Proof.
  rewrite (proj1 (proj2 (proj2 (X16_throws_only_when_a_listing_fails _ "octocat")))).
  - reflexivity.
  - intros n m. vm_compute. discriminate.
Defined.

(** *** A repository that is rate limited *)

Lemma actions_app (l l' : list Event) : actions (l ++ l') = actions l ++ actions l'.
Proof. apply omap_app. Qed.

Lemma actions_deaf : deaf (fun e => match e with Enqueued _ _ => None | _ => Some e end).
Proof. now intros site data. Qed.

Lemma listedRepos_actions (l : list Event) : listedRepos (actions l) = listedRepos l.
Proof.
  unfold listedRepos, actions. induction l as [|e l IH]; [reflexivity |].
  destruct e as [site data | req | ms]; cbn [omap list_omap]; [exact IH | | exact IH].
  destruct req; cbn [omap list_omap]; try exact IH. now rewrite IH.
Qed.

(** C3, as stated: after the wait the repository is tried once more.
    [Requested] records the calls the function makes: in the run below,
    on a stream without a controller, it calls the commit listing of
    the first repository, which is refused with a 403 whose reset is
    five seconds ahead, waits the five seconds, and its next call is
    the commit listing of the second repository. *)
Lemma C3_rate_limited_repository_not_called_again :
  events (walk_run (fst (fetchUserCommits (steady envRateLimited) "octocat")))
  = [ Requested ListEmails; Requested ListRepos;
      Requested (ListCommits repoAlpha); Slept 5000;
      Requested (ListCommits repoBeta) ].
Proof. vm_compute. reflexivity. Qed.

(** C3, amended: when the commit listing of a repository is refused
    with a 403 whose reset time is ahead, the iteration has made that
    one call, waits until the reset time and ends, with the accumulator
    and the commit total as they were; the commit listings called in
    the rest of the loop are those of entries later in the list, in the
    order of the list and at most one per entry, and one for every
    entry when the stream refuses no message: the function does not
    call the listing again for the entry that failed. What the HTTP
    client repeats on the wire inside the one call, before it rejects,
    is not a call of the function. *)
Theorem C3_rate_limit_waits_then_moves_on (env : StreamEnv) (username : string)
    (userEmails : list string) (nRepos : Z) (w : Walk) (repo : GitHubRepo)
    (rest : list GitHubRepo) (error : RequestError) (reset : Z) :
  listCommits (api env) repo = Failed error →
  status error = Some 403 →
  parseInt (orZeroString (resetHeader error)) = Some reset →
  0 < reset * 1000 - dateNowAtFailure (api env) repo →
  (∀ m, controllerAt env (sent w) ≠ Rejecting m) →
  let w' := processRepository env username userEmails nRepos w repo in
  actions (events (walk_run w'))
  = actions (events (walk_run w))
    ++ [Requested (ListCommits repo);
        Slept (reset * 1000 - dateNowAtFailure (api env) repo)]
  ∧ run_stats (walk_run w') = run_stats (walk_run w)
  ∧ totalCommits (walk_run w') = totalCommits (walk_run w)
  ∧ ∃ later,
      listedRepos (events (walk_run
                             (foldl (processRepository env username userEmails nRepos)
                                    w (repo :: rest))))
      = listedRepos (events (walk_run w)) ++ repo :: later
      ∧ sublist later rest
      ∧ (calm env → later = rest).
Proof.
  intros Hfail Hstatus Hreset Hahead Hopen w'.
  assert (actions (events (walk_run w'))
          = actions (events (walk_run w))
            ++ [Requested (ListCommits repo);
                Slept (reset * 1000 - dateNowAtFailure (api env) repo)]
          ∧ run_stats (walk_run w') = run_stats (walk_run w)
          ∧ totalCommits (walk_run w') = totalCommits (walk_run w)) as (Ha & Hs & Ht).
  { subst w'. unfold processRepository, tryRepository. cbv zeta.
    match goal with
    | |- context [sendProgress env ?site ?msg ?p ?w1] =>
        destruct (sendProgress_reached env site msg p w1) as (_ & H1 & H2 & _ & H4);
          pose proof (sendProgress_threw env site msg p w1) as Hthrew;
          destruct (sendProgress env site msg p w1) as [w2 | w2 e]
    end; cbv zeta in H1, H2, H4; cbn [reached walk_run run_stats totalCommits events sent]
      in H1, H2, H4, Hthrew.
    2: { destruct (Hthrew _ _ eq_refl) as (m & Hm & _). now destruct (Hopen m). }
    cbn [andThen request]. rewrite Hfail. cbn [onRun walk_run].
    unfold onRepositoryError, statusIs. rewrite Hstatus, Hreset.
    rewrite (bool_decide_eq_false_2 (Some 403 = Some 404)) by congruence.
    rewrite (bool_decide_eq_true_2 (Some 403 = Some 403)) by reflexivity.
    unfold gtZero. cbn [fmap option_fmap option_map default].
    assert ((0 <? reset * 1000 - dateNowAtFailure (api env) repo) = true) as -> by lia.
    cbn [emit events run_stats totalCommits]. rewrite !actions_app.
    unfold actions at 1. rewrite (H4 _ _ actions_deaf). fold (actions (events (walk_run w))).
    rewrite <- app_assoc. split; [reflexivity |]. now rewrite H1, H2. }
  split; [exact Ha |]. split; [exact Hs |]. split; [exact Ht |].
  cbn [foldl]. fold w'.
  destruct (loop_shape env username userEmails nRepos rest w')
    as (later & counted & requested & L1 & L2 & _ & _ & _ & _ & _ & _ & L9).
  cbv zeta in L1, L9. exists later. rewrite L1.
  rewrite <- (listedRepos_actions (events (walk_run w'))), Ha.
  unfold listedRepos at 1. rewrite omap_app. fold (listedRepos (actions (events (walk_run w)))).
  rewrite listedRepos_actions. cbn [omap list_omap]. rewrite <- app_assoc.
  split; [reflexivity |]. split; [exact L2 |].
  intros Hc. now destruct (L9 Hc).
Qed.

(** The first of two repositories is rate limited, on a stream without
    a controller. *)
Lemma C3_rate_limit_waits_then_moves_on_witness :
  actions (events (walk_run (processRepository (steady envRateLimited) "octocat" [] 2
                               start repoAlpha)))
  = [Requested (ListCommits repoAlpha); Slept 5000].
Proof.
  apply (proj1 (C3_rate_limit_waits_then_moves_on (steady envRateLimited) "octocat" [] 2
                  start repoAlpha [repoBeta] rateLimited 1005
                  eq_refl eq_refl eq_refl eq_refl
                  (fun m => ltac:(discriminate)))).
Defined.

End StreamFacts.
